(** * VeilChat (TibbyTalk): the client-side encryption core and the
      disappearing-message scheduler, embedded in Rocq.

    The development follows the TypeScript sources:
    - [core/crypto/utils.ts]         base64 helpers, key identifiers
    - [core/crypto/keyGeneration.ts] identity and group key generation
    - [core/crypto/encryption.ts]    hybrid 1:1 encryption, key backup
    - [core/crypto/groupKeys.ts]     sender-keys group encryption
    - [services/disappearingMessageService.ts] TTL timers
    - [services/conversationService.ts] and [services/groupService.ts]
      groups, their members, admins and keys in the document store
    - [services/messageService.ts]   sending and opening messages
    - [core/auth/passwordValidation.ts] password requirements

    JavaScript strings are sequences of UTF-16 code units, byte buffers
    ([ArrayBuffer], [Uint8Array]) are lists of bytes, JavaScript objects
    used as dictionaries are finite maps.  What the host supplies (the Web
    Crypto primitives, [JSON], random numbers, the clock, timers) is a
    parameter of the development. *)

From Stdlib Require Import ZArith List Ascii String Lia Bool.
From Stdlib Require Import DecimalString.
From Stdlib.Strings Require Import Byte.
From stdpp Require Import gmap list.

Local Open Scope Z_scope.

(** ** JavaScript values *)

(** A JavaScript string: its UTF-16 code units. *)
Abbreviation jsstring := (list Z).

(** An [ArrayBuffer] or [Uint8Array]: its bytes. *)
Abbreviation bytes := (list byte).

(** A string literal of the source, as code units. *)
Definition js (s : string) : jsstring :=
  map (fun a => Z.of_N (N_of_ascii a)) (list_ascii_of_string s).

Definition u8_to_Z (b : byte) : Z := Z.of_N (Byte.to_N b).

(** Storing a number into a [Uint8Array] keeps it modulo 256. *)
Definition u8_of_Z (z : Z) : byte :=
  match Byte.of_N (Z.to_N (z mod 256)) with
  | Some b => b
  | None => x00
  end.

(** A [number] holds every whole number up to [Number.MAX_SAFE_INTEGER] in
    absolute value exactly. *)
Definition MAX_SAFE_INTEGER : Z := 9007199254740991.

(** [String(n)] and [`${n}`] for a whole number [n] that a [number] holds
    exactly: its decimal digits. *)
Definition Number_toString (n : Z) : jsstring :=
  js (NilZero.string_of_int (Z.to_int n)).

#[global] Instance byte_eq_dec : EqDecision byte.
Proof.
  intros a b. destruct (N.eq_dec (Byte.to_N a) (Byte.to_N b)) as [E|E].
  - left. apply (f_equal Byte.of_N) in E.
    rewrite !Byte.of_to_N in E. now injection E.
  - right. intros ->. now apply E.
Defined.

(** [s.charAt(i)]: the one-unit string at index [i], the empty string out
    of range. *)
Definition charAt (s : jsstring) (i : Z) : jsstring :=
  if i <? 0 then []
  else match nth_error s (Z.to_nat i) with
       | Some c => [c]
       | None => []
       end.

Fixpoint starts_with (pat s : jsstring) : bool :=
  match pat, s with
  | [], _ => true
  | _ :: _, [] => false
  | p :: pat', c :: s' => (p =? c) && starts_with pat' s'
  end.

Fixpoint indexOf_from (s pat : jsstring) (i : Z) : Z :=
  if starts_with pat s then i
  else match s with
       | [] => -1
       | _ :: s' => indexOf_from s' pat (i + 1)
       end.

(** [s.indexOf(pat)]: the first position at which [pat] occurs, [-1] when
    there is none; the empty string occurs at position 0. *)
Definition indexOf (s pat : jsstring) : Z := indexOf_from s pat 0.

(** ** The platform's text codec

    [new TextEncoder().encode(s)] and [new TextDecoder().decode(buf)] are
    the UTF-8 encoder and decoder of the WHATWG Encoding standard.  The
    encoder first converts the string to scalar values, replacing every
    unpaired surrogate by U+FFFD; the decoder replaces malformed input by
    U+FFFD and, [ignoreBOM] being false by default, drops a leading
    U+FEFF. *)

Module TextCodec.

Definition is_high_surrogate (c : Z) : bool := (0xD800 <=? c) && (c <=? 0xDBFF).
Definition is_low_surrogate (c : Z) : bool := (0xDC00 <=? c) && (c <=? 0xDFFF).

(** [s.isWellFormed()]: every code unit is a 16-bit number and every
    surrogate is half of a pair. *)
Fixpoint isWellFormed (s : jsstring) : bool :=
  match s with
  | [] => true
  | c :: rest =>
    if is_high_surrogate c then
      match rest with
      | d :: rest' => is_low_surrogate d && isWellFormed rest'
      | [] => false
      end
    else
      (0 <=? c) && (c <=? 0xFFFF) && negb (is_low_surrogate c)
        && isWellFormed rest
  end.

Fixpoint to_scalar_values (s : jsstring) : list Z :=
  match s with
  | [] => []
  | c :: rest =>
    if is_high_surrogate c then
      match rest with
      | d :: rest' =>
        if is_low_surrogate d
        then (0x10000 + (c - 0xD800) * 0x400 + (d - 0xDC00))
               :: to_scalar_values rest'
        else 0xFFFD :: to_scalar_values rest
      | [] => [0xFFFD]
      end
    else if is_low_surrogate c then 0xFFFD :: to_scalar_values rest
    else c :: to_scalar_values rest
  end.

Definition utf8_bytes (cp : Z) : bytes :=
  if cp <? 0x80 then [u8_of_Z cp]
  else if cp <? 0x800 then
    [u8_of_Z (0xC0 + cp / 0x40); u8_of_Z (0x80 + cp mod 0x40)]
  else if cp <? 0x10000 then
    [u8_of_Z (0xE0 + cp / 0x1000); u8_of_Z (0x80 + (cp / 0x40) mod 0x40);
     u8_of_Z (0x80 + cp mod 0x40)]
  else
    [u8_of_Z (0xF0 + cp / 0x40000); u8_of_Z (0x80 + (cp / 0x1000) mod 0x40);
     u8_of_Z (0x80 + (cp / 0x40) mod 0x40); u8_of_Z (0x80 + cp mod 0x40)].

Definition TextEncoder_encode (s : jsstring) : bytes :=
  flat_map utf8_bytes (to_scalar_values s).

(** The state of the UTF-8 decoder. *)
Record decoder := {
  code_point : Z;
  bytes_seen : Z;
  bytes_needed : Z;
  lower_boundary : Z;
  upper_boundary : Z
}.

Definition decoder0 : decoder :=
  {| code_point := 0; bytes_seen := 0; bytes_needed := 0;
     lower_boundary := 0x80; upper_boundary := 0xBF |}.

Definition between (lo x hi : Z) : bool := (lo <=? x) && (x <=? hi).

(** A byte met while no sequence is open. *)
Definition lead_byte (b : Z) : decoder * list Z :=
  if between 0x00 b 0x7F then (decoder0, [b])
  else if between 0xC2 b 0xDF then
    ({| code_point := b mod 0x20; bytes_seen := 0; bytes_needed := 1;
        lower_boundary := 0x80; upper_boundary := 0xBF |}, [])
  else if between 0xE0 b 0xEF then
    ({| code_point := b mod 0x10; bytes_seen := 0; bytes_needed := 2;
        lower_boundary := if b =? 0xE0 then 0xA0 else 0x80;
        upper_boundary := if b =? 0xED then 0x9F else 0xBF |}, [])
  else if between 0xF0 b 0xF4 then
    ({| code_point := b mod 0x08; bytes_seen := 0; bytes_needed := 3;
        lower_boundary := if b =? 0xF0 then 0x90 else 0x80;
        upper_boundary := if b =? 0xF4 then 0x8F else 0xBF |}, [])
  else (decoder0, [0xFFFD]).

(** The decoder's handler for one byte: the new state and the code points
    emitted.  A byte outside the boundaries ends the open sequence with an
    error and is then handled again from the initial state. *)
Definition handler (st : decoder) (b : Z) : decoder * list Z :=
  if bytes_needed st =? 0 then lead_byte b
  else if negb (between (lower_boundary st) b (upper_boundary st)) then
    let '(st', out) := lead_byte b in (st', 0xFFFD :: out)
  else
    let cp := code_point st * 0x40 + b mod 0x40 in
    if bytes_seen st + 1 =? bytes_needed st then (decoder0, [cp])
    else ({| code_point := cp; bytes_seen := bytes_seen st + 1;
             bytes_needed := bytes_needed st;
             lower_boundary := 0x80; upper_boundary := 0xBF |}, []).

Fixpoint utf8_decode (st : decoder) (input : bytes) : list Z :=
  match input with
  | [] => if bytes_needed st =? 0 then [] else [0xFFFD]
  | b :: rest =>
    let '(st', out) := handler st (u8_to_Z b) in
    out ++ utf8_decode st' rest
  end.

Definition strip_bom (cps : list Z) : list Z :=
  match cps with
  | cp :: rest => if cp =? 0xFEFF then rest else cps
  | [] => []
  end.

Definition utf16_units (cp : Z) : jsstring :=
  if cp <? 0x10000 then [cp]
  else [0xD800 + (cp - 0x10000) / 0x400; 0xDC00 + (cp - 0x10000) mod 0x400].

Definition TextDecoder_decode (input : bytes) : jsstring :=
  flat_map utf16_units (strip_bom (utf8_decode decoder0 input)).

End TextCodec.

(** ** Errors and promises *)

Inductive DOMExceptionName :=
  OperationError | DataError | SyntaxError | InvalidAccessError.

(** What a rejected promise carries: a [DOMException] of the Web Crypto
    API, a [TypeError], the [SyntaxError] of [JSON.parse], or an [Error]
    made by the code, with its message. *)
Inductive JsError :=
| DOMException (name : DOMExceptionName)
| TypeError
| SyntaxErrorJSON
| Error (message : string).

(** The outcome of an [async] function. *)
Inductive result (A : Type) :=
| Ok (a : A)
| Rejected (e : JsError).
Arguments Ok {A} a.
Arguments Rejected {A} e.

Definition rbind {A B} (r : result A) (k : A -> result B) : result B :=
  match r with
  | Ok a => k a
  | Rejected e => Rejected e
  end.

Inductive KeyUsage := encrypt | decrypt.

#[global] Instance KeyUsage_eq_dec : EqDecision KeyUsage.
Proof. solve_decision. Defined.

(** An AES [CryptoKey]: the key bytes, with the attributes fixed when the
    key was made. *)
Record AesKey := {
  aes_raw : bytes;
  aes_extractable : bool;
  aes_usages : list KeyUsage
}.

(** ** The platform

    The primitives behind [crypto.subtle], the random source, the clock
    and [JSON], as the host supplies them. *)
Class Platform := {
  (** everything outside the program that changes: entropy *)
  World : Type;
  (** RSA-2048 key material and its JSON Web Key form *)
  RsaPublic : Type;
  RsaPrivate : Type;
  JsonWebKey : Type;
  (** a value of type [Record<string, JsonWebKey>] *)
  KeyMap : Type;
  random_bytes : nat -> World -> bytes * World;
  rsa_keygen : World -> (RsaPublic * RsaPrivate) * World;
  rsa_oaep_encrypt : RsaPublic -> bytes -> bytes -> option bytes;
  rsa_oaep_decrypt : RsaPrivate -> bytes -> option bytes;
  jwk_of_public : RsaPublic -> JsonWebKey;
  jwk_of_private : RsaPrivate -> JsonWebKey;
  public_of_jwk : JsonWebKey -> option RsaPublic;
  private_of_jwk : JsonWebKey -> option RsaPrivate;
  (** the exception with which [importKey('jwk', ...)] rejects a key that
      it does not import for the usage asked: a [SyntaxError] for a key of
      the other kind (a private key asked to encrypt, a public key asked
      to decrypt), a [DataError] for a key that is malformed *)
  importKey_jwk_error : KeyUsage -> JsonWebKey -> JsError;
  aes_gcm_encrypt : bytes -> bytes -> bytes -> bytes;
  aes_gcm_decrypt : bytes -> bytes -> bytes -> option bytes;
  pbkdf2_sha256 : bytes -> bytes -> Z -> bytes;
  JSON_stringify : KeyMap -> jsstring;
  JSON_parse : jsstring -> option KeyMap;
  Date_now : World -> Z;
  Date_toISOString : Z -> jsstring
}.

Section Program.
Context `{Platform}.

(** An [async] function: it may use the platform and resolves or
    rejects. *)
Definition M (A : Type) : Type := World -> result A * World.

Definition ret {A} (a : A) : M A := fun w => (Ok a, w).

Definition bind {A B} (m : M A) (k : A -> M B) : M B :=
  fun w => match m w with
           | (Ok a, w') => k a w'
           | (Rejected e, w') => (Rejected e, w')
           end.

(** [await] of a promise that is already settled *)
Definition await {A} (r : result A) : M A := fun w => (r, w).

(** [throw new Error(message)] *)
Definition throw {A} (message : string) : M A :=
  fun w => (Rejected (Error message), w).

Definition getRandomValues (n : nat) : M bytes :=
  fun w => let '(bs, w') := random_bytes n w in (Ok bs, w').

Definition now : M Z := fun w => (Ok (Date_now w), w).

End Program.

Declare Scope js_scope.
Delimit Scope js_scope with js.
Notation "'let*' x ':=' m 'in' k" := (bind m (fun x => k))
  (at level 10, x name, m at level 100, k at level 200) : js_scope.
Notation "'let?' x ':=' r 'in' k" := (rbind r (fun x => k))
  (at level 10, x name, r at level 100, k at level 200) : js_scope.
Local Open Scope js_scope.

(** ** core/crypto/utils.ts *)

Module Utils.

Definition chars : jsstring :=
  js "ABCDEFGHIJKLMNOPQRSTUVWXYZabcdefghijklmnopqrstuvwxyz0123456789+/".

(** An element read from a typed array: [undefined] past the end. *)
Definition toInt32 (v : option Z) : Z :=
  match v with Some n => n | None => 0 end.
Definition isNaN (v : option Z) : bool :=
  match v with None => true | Some _ => false end.

(** One turn of the loop of [arrayBufferToBase64]: [byte1 = bytes[i]] is in
    range, [byte2 = bytes[i+1]] and [byte3 = bytes[i+2]] may be
    [undefined]. *)
Definition encode_group (byte1 : Z) (byte2 byte3 : option Z) : jsstring :=
  let enc1 := Z.shiftr byte1 2 in
  let enc2 := Z.lor (Z.shiftl (Z.land byte1 3) 4) (Z.shiftr (toInt32 byte2) 4) in
  let enc3 := Z.lor (Z.shiftl (Z.land (toInt32 byte2) 15) 2)
                    (Z.shiftr (toInt32 byte3) 6) in
  let enc4 := Z.land (toInt32 byte3) 63 in
  if isNaN byte2 then
    charAt chars enc1 ++ charAt chars enc2 ++ js "=="
  else if isNaN byte3 then
    charAt chars enc1 ++ charAt chars enc2 ++ charAt chars enc3 ++ js "="
  else
    charAt chars enc1 ++ charAt chars enc2 ++ charAt chars enc3
      ++ charAt chars enc4.

(** [arrayBufferToBase64]: the loop [for (i = 0; i < bytes.length; i += 3)]
    walks the buffer three bytes at a time. *)
Fixpoint arrayBufferToBase64 (buffer : bytes) : jsstring :=
  match buffer with
  | [] => []
  | b1 :: tl1 =>
    match tl1 with
    | [] => encode_group (u8_to_Z b1) None None
    | b2 :: tl2 =>
      match tl2 with
      | [] => encode_group (u8_to_Z b1) (Some (u8_to_Z b2)) None
      | b3 :: tl3 =>
        encode_group (u8_to_Z b1) (Some (u8_to_Z b2)) (Some (u8_to_Z b3))
          ++ arrayBufferToBase64 tl3
      end
    end
  end.

(** [base64.replace(/=+$/, '')]: the run of [=] at the end is removed. *)
Fixpoint drop_leading_eq (s : jsstring) : jsstring :=
  match s with
  | c :: s' => if c =? 61 then drop_leading_eq s' else s
  | [] => []
  end.

Definition remove_padding (base64 : jsstring) : jsstring :=
  rev (drop_leading_eq (rev base64)).

(** The typed array being filled and the write position [p].  A write past
    the end of a typed array is ignored. *)
Definition write (st : bytes * nat) (v : Z) : bytes * nat :=
  (<[snd st := u8_of_Z v]> (fst st), S (snd st)).

(** One turn of the loop of [base64ToArrayBuffer]; [c1] .. [c4] are
    [cleanBase64.charAt(i)] .. [cleanBase64.charAt(i + 3)]. *)
Definition decode_group (c1 c2 c3 c4 : jsstring) (st : bytes * nat)
  : bytes * nat :=
  let enc1 := indexOf chars c1 in
  let enc2 := indexOf chars c2 in
  let enc3 := indexOf chars c3 in
  let enc4 := indexOf chars c4 in
  let st := write st (Z.lor (Z.shiftl enc1 2) (Z.shiftr enc2 4)) in
  let st := if enc3 =? -1 then st
            else write st (Z.lor (Z.shiftl (Z.land enc2 15) 4)
                                 (Z.shiftr enc3 2)) in
  if enc4 =? -1 then st
  else write st (Z.lor (Z.shiftl (Z.land enc3 3) 6) enc4).

(** The loop [for (i = 0; i < cleanBase64.length; i += 4)]. *)
Fixpoint decode_loop (s : jsstring) (st : bytes * nat) : bytes * nat :=
  match s with
  | [] => st
  | c1 :: t1 =>
    match t1 with
    | [] => decode_group [c1] [] [] [] st
    | c2 :: t2 =>
      match t2 with
      | [] => decode_group [c1] [c2] [] [] st
      | c3 :: t3 =>
        match t3 with
        | [] => decode_group [c1] [c2] [c3] [] st
        | c4 :: t4 => decode_loop t4 (decode_group [c1] [c2] [c3] [c4] st)
        end
      end
    end
  end.

(** [base64ToArrayBuffer]: [new Uint8Array(length)] truncates a fractional
    length and starts zero-filled. *)
Definition base64ToArrayBuffer (base64 : jsstring) : bytes :=
  let cleanBase64 := remove_padding base64 in
  let length := (Z.of_nat (List.length cleanBase64) * 3) / 4 in
  let bytes0 := repeat x00 (Z.to_nat length) in
  fst (decode_loop cleanBase64 (bytes0, 0%nat)).

Definition hex_digit (n : Z) : Z :=
  if n <? 10 then 48 + n else 97 + (n - 10).

(** [b.toString(16).padStart(2, '0')] *)
Definition hex2 (b : byte) : jsstring :=
  [hex_digit (u8_to_Z b / 16); hex_digit (u8_to_Z b mod 16)].

(** [Array.from(bytes).map(b => b.toString(16).padStart(2, '0')).join('')] *)
Definition hex (bs : bytes) : jsstring := concat (map hex2 bs).

(** [generateKeyId]: eight random bytes, in hexadecimal. *)
Definition generateKeyId `{Platform} : M jsstring :=
  let* bs := getRandomValues 8 in
  ret (hex bs).

(** [s.slice(start, end)] for indices [0 <= start <= end]; both are clamped
    to the length of the string. *)
Definition slice (s : jsstring) (start end_ : nat) : jsstring :=
  firstn (end_ - start) (skipn start s).

(** [generateUUID]: sixteen random bytes, of which byte 6 gets the version
    and byte 8 the variant, in hexadecimal with dashes. *)
Definition generateUUID `{Platform} : M jsstring :=
  let* bytes := getRandomValues 16 in
  let bytes :=
    <[6%nat := u8_of_Z (Z.lor (Z.land (toInt32 (u8_to_Z <$> bytes !! 6%nat)) 0x0f)
                              0x40)]> bytes in
  let bytes :=
    <[8%nat := u8_of_Z (Z.lor (Z.land (toInt32 (u8_to_Z <$> bytes !! 8%nat)) 0x3f)
                              0x80)]> bytes in
  let hexs := hex bytes in
  ret (slice hexs 0 8 ++ js "-" ++ slice hexs 8 12 ++ js "-"
         ++ slice hexs 12 16 ++ js "-" ++ slice hexs 16 20 ++ js "-"
         ++ skipn 20 hexs).

End Utils.

(** ** crypto.subtle, over the platform's primitives *)

Module Subtle.
Section Subtle.
Context `{Platform}.

Definition has_usage (u : KeyUsage) (k : AesKey) : bool :=
  bool_decide (u ∈ aes_usages k).

(** [generateKey({name: 'AES-GCM', length: 256}, true, ['encrypt', 'decrypt'])] *)
Definition generateKey_AES : M AesKey :=
  let* raw := getRandomValues 32 in
  ret {| aes_raw := raw; aes_extractable := true;
         aes_usages := [encrypt; decrypt] |}.

(** [generateKey({name: 'RSA-OAEP', modulusLength: 2048, ...})] *)
Definition generateKey_RSA : M (RsaPublic * RsaPrivate) :=
  fun w => let '(kp, w') := rsa_keygen w in (Ok kp, w').

(** [importKey('raw', keyBytes, {name: 'AES-GCM'}, extractable, usages)]:
    a key of 128, 192 or 256 bits, a [DataError] otherwise. *)
Definition importKey_raw_AES (keyBytes : bytes) (extractable : bool)
    (usages : list KeyUsage) : result AesKey :=
  let n := List.length keyBytes in
  if (n =? 16)%nat || (n =? 24)%nat || (n =? 32)%nat then
    Ok {| aes_raw := keyBytes; aes_extractable := extractable;
          aes_usages := usages |}
  else Rejected (DOMException DataError).

(** [exportKey('raw', key)] *)
Definition exportKey_raw (key : AesKey) : result bytes :=
  if aes_extractable key then Ok (aes_raw key)
  else Rejected (DOMException InvalidAccessError).

(** [importKey('jwk', jwk, {name: 'RSA-OAEP', hash: 'SHA-256'}, false, ['encrypt'])]:
    a key that is not imported is rejected with the platform's exception. *)
Definition importKey_jwk_public (jwk : JsonWebKey) : result RsaPublic :=
  match public_of_jwk jwk with
  | Some k => Ok k
  | None => Rejected (importKey_jwk_error encrypt jwk)
  end.

(** [importKey('jwk', jwk, {name: 'RSA-OAEP', hash: 'SHA-256'}, false, ['decrypt'])] *)
Definition importKey_jwk_private (jwk : JsonWebKey) : result RsaPrivate :=
  match private_of_jwk jwk with
  | Some k => Ok k
  | None => Rejected (importKey_jwk_error decrypt jwk)
  end.

(** [encrypt({name: 'RSA-OAEP'}, publicKey, data)]: draws the OAEP seed. *)
Definition encrypt_RSA_OAEP (publicKey : RsaPublic) (data : bytes) : M bytes :=
  let* seed := getRandomValues 32 in
  await match rsa_oaep_encrypt publicKey seed data with
        | Some c => Ok c
        | None => Rejected (DOMException OperationError)
        end.

(** [decrypt({name: 'RSA-OAEP'}, privateKey, data)] *)
Definition decrypt_RSA_OAEP (privateKey : RsaPrivate) (data : bytes)
  : result bytes :=
  match rsa_oaep_decrypt privateKey data with
  | Some m => Ok m
  | None => Rejected (DOMException OperationError)
  end.

(** [encrypt({name: 'AES-GCM', iv}, key, data)] *)
Definition encrypt_AES_GCM (iv : bytes) (key : AesKey) (data : bytes)
  : result bytes :=
  if has_usage encrypt key then Ok (aes_gcm_encrypt (aes_raw key) iv data)
  else Rejected (DOMException InvalidAccessError).

(** [decrypt({name: 'AES-GCM', iv}, key, data)] *)
Definition decrypt_AES_GCM (iv : bytes) (key : AesKey) (data : bytes)
  : result bytes :=
  if has_usage decrypt key then
    match aes_gcm_decrypt (aes_raw key) iv data with
    | Some m => Ok m
    | None => Rejected (DOMException OperationError)
    end
  else Rejected (DOMException InvalidAccessError).

(** [importKey('raw', password, {name: 'PBKDF2'}, false, ['deriveKey'])]
    followed by [deriveKey({name: 'PBKDF2', salt, iterations, hash:
    'SHA-256'}, passwordKey, {name: 'AES-GCM', length: 256}, false,
    ['encrypt', 'decrypt'])].  [iterations] is an unsigned long: a whole
    number outside its range is a [TypeError].  The derivation fails with
    an [OperationError] for the count 0 and for a count from 2^31 on,
    which the PBKDF2 of the platform, taking a signed 32-bit count, does
    not run. *)
Definition deriveKey_PBKDF2 (password salt : bytes) (iterations : Z)
  : result AesKey :=
  if (iterations <? 0) || (4294967295 <? iterations) then Rejected TypeError
  else if (iterations =? 0) || (2147483647 <? iterations) then
    Rejected (DOMException OperationError)
  else Ok {| aes_raw := pbkdf2_sha256 password salt iterations;
             aes_extractable := false;
             aes_usages := [encrypt; decrypt] |}.

End Subtle.
End Subtle.

(** ** types/index.ts *)

Module KeyPair.
Record t `{Platform} := {
  publicKey : JsonWebKey;
  privateKey : JsonWebKey;
  keyId : jsstring;
  createdAt : Z
}.
End KeyPair.

Module EncryptedMessage.
Record t := {
  encrypted : bool;
  version : jsstring;
  data : jsstring;
  key : jsstring;
  iv : jsstring
}.
End EncryptedMessage.

Module GroupEncryptedMessage.
Record t := {
  encrypted : bool;
  version : jsstring;
  data : jsstring;
  iv : jsstring;
  keyId : jsstring
}.
End GroupEncryptedMessage.

Module EncryptedKeyBundle.
Record t := {
  version : jsstring;
  algorithm : jsstring;
  iterations : Z;
  salt : jsstring;
  iv : jsstring;
  ciphertext : jsstring;
  exportedAt : jsstring
}.
End EncryptedKeyBundle.

Module ParticipantKey.
Record t `{Platform} := {
  publicKey : JsonWebKey;
  keyId : jsstring
}.
End ParticipantKey.

Inductive ConversationType := direct | group.

Module Message.
Record t := {
  id : jsstring;
  conversationId : jsstring;
  senderId : jsstring;
  timestamp : Z;
  type : ConversationType;
  encryptedContent : EncryptedMessage.t + GroupEncryptedMessage.t;
  ttl : option Z;
  expiresAt : option Z;
  readBy : gmap jsstring Z
}.
End Message.

(** ** core/crypto/keyGeneration.ts *)

Module KeyGeneration.
Section KeyGeneration.
Context `{Platform}.

Definition generateUserKeyPair : M KeyPair.t :=
  let* keyPair := Subtle.generateKey_RSA in
  let publicKey := jwk_of_public (fst keyPair) in
  let privateKey := jwk_of_private (snd keyPair) in
  let* keyId := Utils.generateKeyId in
  let* createdAt := now in
  ret {| KeyPair.publicKey := publicKey;
         KeyPair.privateKey := privateKey;
         KeyPair.keyId := keyId;
         KeyPair.createdAt := createdAt |}.

Definition generateGroupSymmetricKey : M (AesKey * jsstring) :=
  let* key := Subtle.generateKey_AES in
  let* keyId := Utils.generateKeyId in
  ret (key, keyId).

Definition exportSymmetricKey (key : AesKey) : result bytes :=
  Subtle.exportKey_raw key.

Definition importSymmetricKey (keyBytes : bytes) : result AesKey :=
  Subtle.importKey_raw_AES keyBytes true [encrypt; decrypt].

Definition importPublicKey (publicKeyJwk : JsonWebKey) : result RsaPublic :=
  Subtle.importKey_jwk_public publicKeyJwk.

Definition importPrivateKey (privateKeyJwk : JsonWebKey) : result RsaPrivate :=
  Subtle.importKey_jwk_private privateKeyJwk.

End KeyGeneration.
End KeyGeneration.

(** ** core/crypto/encryption.ts *)

Module Encryption.
Section Encryption.
Context `{Platform}.

Definition generateSymmetricKey : M AesKey := Subtle.generateKey_AES.

Definition encryptMessage (plaintext : jsstring)
    (recipientPublicKeyJwk : JsonWebKey) : M EncryptedMessage.t :=
  let* publicKey := await (Subtle.importKey_jwk_public recipientPublicKeyJwk) in
  let* symmetricKey := generateSymmetricKey in
  let dataBytes := TextCodec.TextEncoder_encode plaintext in
  let* iv := getRandomValues 12 in
  let* encryptedData := await (Subtle.encrypt_AES_GCM iv symmetricKey dataBytes) in
  let* symmetricKeyBytes := await (Subtle.exportKey_raw symmetricKey) in
  let* encryptedKey := Subtle.encrypt_RSA_OAEP publicKey symmetricKeyBytes in
  ret {| EncryptedMessage.encrypted := true;
         EncryptedMessage.version := js "tt-e1";
         EncryptedMessage.data := Utils.arrayBufferToBase64 encryptedData;
         EncryptedMessage.key := Utils.arrayBufferToBase64 encryptedKey;
         EncryptedMessage.iv := Utils.arrayBufferToBase64 iv |}.

Definition decryptMessage (encryptedPayload : EncryptedMessage.t)
    (privateKeyJwk : JsonWebKey) : result jsstring :=
  let? privateKey := Subtle.importKey_jwk_private privateKeyJwk in
  let encryptedKeyBytes :=
    Utils.base64ToArrayBuffer (EncryptedMessage.key encryptedPayload) in
  let? symmetricKeyBytes := Subtle.decrypt_RSA_OAEP privateKey encryptedKeyBytes in
  let? symmetricKey := Subtle.importKey_raw_AES symmetricKeyBytes false [decrypt] in
  let iv := Utils.base64ToArrayBuffer (EncryptedMessage.iv encryptedPayload) in
  let encryptedData :=
    Utils.base64ToArrayBuffer (EncryptedMessage.data encryptedPayload) in
  let? decryptedBytes := Subtle.decrypt_AES_GCM iv symmetricKey encryptedData in
  Ok (TextCodec.TextDecoder_decode decryptedBytes).

Definition encryptWithSymmetricKey (plaintext : jsstring)
    (symmetricKey : AesKey) : M (jsstring * jsstring) :=
  let dataBytes := TextCodec.TextEncoder_encode plaintext in
  let* iv := getRandomValues 12 in
  let* encryptedData := await (Subtle.encrypt_AES_GCM iv symmetricKey dataBytes) in
  ret (Utils.arrayBufferToBase64 encryptedData, Utils.arrayBufferToBase64 iv).

Definition decryptWithSymmetricKey (encryptedData iv : jsstring)
    (symmetricKey : AesKey) : result jsstring :=
  let ivBytes := Utils.base64ToArrayBuffer iv in
  let dataBytes := Utils.base64ToArrayBuffer encryptedData in
  let? decryptedBytes := Subtle.decrypt_AES_GCM ivBytes symmetricKey dataBytes in
  Ok (TextCodec.TextDecoder_decode decryptedBytes).

Definition deriveKeyFromPassword (password : jsstring) (salt : bytes)
    (iterations : Z) : result AesKey :=
  Subtle.deriveKey_PBKDF2 (TextCodec.TextEncoder_encode password) salt iterations.

(** A string is falsy when it is empty, a number when it is zero. *)
Definition empty (s : jsstring) : bool :=
  match s with [] => true | _ => false end.

Definition exportPrivateKeys (privateKeys : KeyMap) (password : jsstring)
  : M EncryptedKeyBundle.t :=
  if empty password || (Z.of_nat (List.length password) <? 8) then
    throw "Password must be at least 8 characters"
  else
    let* salt := getRandomValues 32 in
    let* iv := getRandomValues 12 in
    let iterations := 100000 in
    let* encryptionKey := await (deriveKeyFromPassword password salt iterations) in
    let keysJson := JSON_stringify privateKeys in
    let keysData := TextCodec.TextEncoder_encode keysJson in
    let* encryptedData := await (Subtle.encrypt_AES_GCM iv encryptionKey keysData) in
    let* exportedAt := now in
    ret {| EncryptedKeyBundle.version := js "1.0";
           EncryptedKeyBundle.algorithm := js "PBKDF2-AES-GCM-256";
           EncryptedKeyBundle.iterations := iterations;
           EncryptedKeyBundle.salt := Utils.arrayBufferToBase64 salt;
           EncryptedKeyBundle.iv := Utils.arrayBufferToBase64 iv;
           EncryptedKeyBundle.ciphertext := Utils.arrayBufferToBase64 encryptedData;
           EncryptedKeyBundle.exportedAt := Date_toISOString exportedAt |}.

(** [try { ... } catch { throw new Error(message) }] *)
Definition try_catch_rethrow {A} (body : result A) (message : string)
  : result A :=
  match body with
  | Ok a => Ok a
  | Rejected _ => Rejected (Error message)
  end.

Definition importPrivateKeys (encryptedBundle : EncryptedKeyBundle.t)
    (password : jsstring) : result KeyMap :=
  if empty (EncryptedKeyBundle.ciphertext encryptedBundle) then
    Rejected (Error "Invalid key bundle format")
  else if empty password then
    Rejected (Error "Password is required")
  else if negb (bool_decide (EncryptedKeyBundle.version encryptedBundle = js "1.0")) then
    Rejected (Error "Unsupported key bundle version")
  else
    let salt := Utils.base64ToArrayBuffer (EncryptedKeyBundle.salt encryptedBundle) in
    let iv := Utils.base64ToArrayBuffer (EncryptedKeyBundle.iv encryptedBundle) in
    let ciphertext :=
      Utils.base64ToArrayBuffer (EncryptedKeyBundle.ciphertext encryptedBundle) in
    let iterations :=
      if EncryptedKeyBundle.iterations encryptedBundle =? 0 then 100000
      else EncryptedKeyBundle.iterations encryptedBundle in
    let? decryptionKey := deriveKeyFromPassword password salt iterations in
    try_catch_rethrow
      (let? decryptedData := Subtle.decrypt_AES_GCM iv decryptionKey ciphertext in
       let keysJson := TextCodec.TextDecoder_decode decryptedData in
       match JSON_parse keysJson with
       | Some keys => Ok keys
       | None => Rejected SyntaxErrorJSON
       end)
      "Invalid password or corrupted key bundle".

End Encryption.
End Encryption.

(** ** core/crypto/groupKeys.ts *)

Module GroupKeyBundle.
Record t := {
  keyId : jsstring;
  encryptedKeys : gmap jsstring jsstring;
  createdAt : Z;
  createdBy : jsstring
}.
End GroupKeyBundle.

Module GroupKeys.
Section GroupKeys.
Context `{Platform}.

(** The loop [for (const [userId, participantKey] of
    Object.entries(memberPublicKeys))] of [createGroupKeyBundle]. *)
Fixpoint encrypt_for_members (entries : list (jsstring * ParticipantKey.t))
    (rawKeyBytes : bytes) (encryptedKeys : gmap jsstring jsstring)
  : M (gmap jsstring jsstring) :=
  match entries with
  | [] => ret encryptedKeys
  | (userId, participantKey) :: rest =>
    let* publicKey :=
      await (KeyGeneration.importPublicKey (ParticipantKey.publicKey participantKey)) in
    let* encryptedKeyBytes := Subtle.encrypt_RSA_OAEP publicKey rawKeyBytes in
    encrypt_for_members rest rawKeyBytes
      (<[userId := Utils.arrayBufferToBase64 encryptedKeyBytes]> encryptedKeys)
  end.

Definition createGroupKeyBundle
    (memberPublicKeys : gmap jsstring ParticipantKey.t) (creatorId : jsstring)
  : M (GroupKeyBundle.t * AesKey) :=
  let* generated := KeyGeneration.generateGroupSymmetricKey in
  let groupKey := fst generated in
  let keyId := snd generated in
  let* rawKeyBytes := await (KeyGeneration.exportSymmetricKey groupKey) in
  let* encryptedKeys :=
    encrypt_for_members (map_to_list memberPublicKeys) rawKeyBytes ∅ in
  let* createdAt := now in
  ret ({| GroupKeyBundle.keyId := keyId;
          GroupKeyBundle.encryptedKeys := encryptedKeys;
          GroupKeyBundle.createdAt := createdAt;
          GroupKeyBundle.createdBy := creatorId |},
       groupKey).

Definition decryptGroupKey (encryptedKey : jsstring)
    (privateKeyJwk : JsonWebKey) : result AesKey :=
  let? privateKey := KeyGeneration.importPrivateKey privateKeyJwk in
  let encryptedKeyBytes := Utils.base64ToArrayBuffer encryptedKey in
  let? rawKeyBytes := Subtle.decrypt_RSA_OAEP privateKey encryptedKeyBytes in
  KeyGeneration.importSymmetricKey rawKeyBytes.

Definition encryptGroupMessage (plaintext : jsstring) (groupKey : AesKey)
    (keyId : jsstring) : M GroupEncryptedMessage.t :=
  let dataBytes := TextCodec.TextEncoder_encode plaintext in
  let* iv := getRandomValues 12 in
  let* encryptedData := await (Subtle.encrypt_AES_GCM iv groupKey dataBytes) in
  ret {| GroupEncryptedMessage.encrypted := true;
         GroupEncryptedMessage.version := js "tt-e1";
         GroupEncryptedMessage.data := Utils.arrayBufferToBase64 encryptedData;
         GroupEncryptedMessage.iv := Utils.arrayBufferToBase64 iv;
         GroupEncryptedMessage.keyId := keyId |}.

Definition decryptGroupMessage (encryptedPayload : GroupEncryptedMessage.t)
    (groupKey : AesKey) : result jsstring :=
  let iv := Utils.base64ToArrayBuffer (GroupEncryptedMessage.iv encryptedPayload) in
  let encryptedData :=
    Utils.base64ToArrayBuffer (GroupEncryptedMessage.data encryptedPayload) in
  let? decryptedBytes := Subtle.decrypt_AES_GCM iv groupKey encryptedData in
  Ok (TextCodec.TextDecoder_decode decryptedBytes).

Definition rotateGroupKey
    (remainingMemberKeys : gmap jsstring ParticipantKey.t) (creatorId : jsstring)
  : M (GroupKeyBundle.t * AesKey) :=
  createGroupKeyBundle remainingMemberKeys creatorId.

Definition addMemberToGroup (groupKey : AesKey)
    (newMemberPublicKey : JsonWebKey) : M jsstring :=
  let* rawKeyBytes := await (KeyGeneration.exportSymmetricKey groupKey) in
  let* publicKey := await (KeyGeneration.importPublicKey newMemberPublicKey) in
  let* encryptedKeyBytes := Subtle.encrypt_RSA_OAEP publicKey rawKeyBytes in
  ret (Utils.arrayBufferToBase64 encryptedKeyBytes).

End GroupKeys.
End GroupKeys.

(** ** services/disappearingMessageService.ts *)

Module DisappearingMessageService.
Section Service.

(** The state of the caller, on which the expiry callbacks act.  A callback
    [onExpire: () => void] changes that state and returns, or throws; it
    does not call back into this service. *)
Variable App : Type.

Definition Callback : Type := App -> result unit * App.

(** What [setTimeout] was given by [startMessageTimer]: the closure
    [() => { onExpire(); activeTimers.delete(message.id) }] and the delay. *)
Record Timer := {
  onExpire : Callback;
  messageId : jsstring;
  delay : Z
}.

(** The outcome with which the promise of [deleteMessage(conversationId,
    messageId)] settles; [deleteMessage] is an [async] function of the
    message service: the deletion sink. *)
Variable deleteMessage : jsstring -> jsstring -> result unit.

Record State := {
  (** [const activeTimers: Map<string, NodeJS.Timeout>] *)
  activeTimers : gmap jsstring positive;
  (** the platform's timers that are set and have neither fired nor been
      cleared *)
  timeouts : gmap positive Timer;
  (** the values that the successive calls of [Date.now()] return *)
  clock : nat -> Z;
  ticks : nat;
  app : App;
  (** the calls of [deleteMessage] made so far, latest first *)
  deletions : list (jsstring * jsstring);
  (** the promises of [deleteMessage] that have not settled yet, each with
      the handler of its [.catch], oldest first, as the outcomes with
      which they will settle *)
  pending : list (result unit);
  (** the lines written by [console.error], latest first *)
  console : list (string * JsError)
}.

Definition set_activeTimers (f : gmap jsstring positive -> gmap jsstring positive)
    (st : State) : State :=
  {| activeTimers := f (activeTimers st); timeouts := timeouts st;
     clock := clock st; ticks := ticks st; app := app st;
     deletions := deletions st; pending := pending st;
     console := console st |}.

Definition set_timeouts (f : gmap positive Timer -> gmap positive Timer)
    (st : State) : State :=
  {| activeTimers := activeTimers st; timeouts := f (timeouts st);
     clock := clock st; ticks := ticks st; app := app st;
     deletions := deletions st; pending := pending st;
     console := console st |}.

(** [Date.now()] *)
Definition Date_now (st : State) : Z * State :=
  (clock st (ticks st),
   {| activeTimers := activeTimers st; timeouts := timeouts st;
      clock := clock st; ticks := S (ticks st); app := app st;
      deletions := deletions st; pending := pending st;
      console := console st |}).

(** Running a callback of the caller: it returns or throws, and leaves the
    state of the caller as it made it. *)
Definition call (f : Callback) (st : State) : result unit * State :=
  (fst (f (app st)),
   {| activeTimers := activeTimers st; timeouts := timeouts st;
      clock := clock st; ticks := ticks st; app := snd (f (app st));
      deletions := deletions st; pending := pending st;
      console := console st |}).

(** [setTimeout(closure, ms)]: a handle not in use. *)
Definition setTimeout (t : Timer) (st : State) : positive * State :=
  let handle := fresh (dom (timeouts st)) in
  (handle, set_timeouts (insert handle t) st).

(** [clearTimeout(timer)] *)
Definition clearTimeout (timer : positive) (st : State) : State :=
  set_timeouts (delete timer) st.

(** [!message.expiresAt]: [null] and [0] are falsy. *)
Definition falsy (expiresAt : option Z) : bool :=
  match expiresAt with
  | None => true
  | Some t => t =? 0
  end.

(** A timestamp used as a number; [null] counts as [0]. *)
Definition number (expiresAt : option Z) : Z :=
  match expiresAt with
  | Some t => t
  | None => 0
  end.

(** [startMessageTimer] returns, or throws what [onExpire] threw. *)
Definition startMessageTimer (message : Message.t) (onExpire : Callback)
    (st : State) : result unit * State :=
  if falsy (Message.expiresAt message)
     || bool_decide (is_Some (activeTimers st !! Message.id message))
  then (Ok tt, st)
  else
    let '(t_now, st) := Date_now st in
    let msUntilExpiry := number (Message.expiresAt message) - t_now in
    if msUntilExpiry <=? 0 then
      call onExpire st
    else
      let '(timer, st) :=
        setTimeout {| onExpire := onExpire;
                      messageId := Message.id message;
                      delay := msUntilExpiry |} st in
      (Ok tt, set_activeTimers (insert (Message.id message) timer) st).

(** The platform fires the timer [timer]: the closure given to
    [setTimeout] runs.  When [onExpire] throws, the closure ends there,
    before [activeTimers.delete], and the exception goes to the host. *)
Definition fire (timer : positive) (st : State) : result unit * State :=
  match timeouts st !! timer with
  | None => (Ok tt, st)
  | Some t =>
    let st := set_timeouts (delete timer) st in
    match call (onExpire t) st with
    | (Ok _, st) => (Ok tt, set_activeTimers (delete (messageId t)) st)
    | (Rejected e, st) => (Rejected e, st)
    end
  end.

(** A timer handle is truthy, so [if (timer)] asks whether the map has an
    entry. *)
Definition cancelMessageTimer (messageId : jsstring) (st : State) : State :=
  match activeTimers st !! messageId with
  | Some timer =>
    let st := clearTimeout timer st in
    set_activeTimers (delete messageId) st
  | None => st
  end.

Definition clearAllTimers (st : State) : State :=
  let st := foldr (fun kv st => clearTimeout (snd kv) st) st
                  (map_to_list (activeTimers st)) in
  set_activeTimers (fun _ => ∅) st.

(** [console.error('Failed to delete expired message:', err)] *)
Definition console_error (line : string) (err : JsError) (st : State) : State :=
  {| activeTimers := activeTimers st; timeouts := timeouts st;
     clock := clock st; ticks := ticks st; app := app st;
     deletions := deletions st; pending := pending st;
     console := (line, err) :: console st |}.

(** [deleteMessage(conversationId, id).catch(err => ...)]: the call is
    made and the handler attached; the promise has not settled when the
    statement is done. *)
Definition request_deletion (conversationId id : jsstring) (st : State) : State :=
  {| activeTimers := activeTimers st; timeouts := timeouts st;
     clock := clock st; ticks := ticks st; app := app st;
     deletions := (conversationId, id) :: deletions st;
     pending := pending st ++ [deleteMessage conversationId id];
     console := console st |}.

(** The handler [err => { console.error('Failed to delete expired
    message:', err) }]: it runs for a promise that rejects. *)
Definition catch_handler (outcome : result unit) (st : State) : State :=
  match outcome with
  | Ok _ => st
  | Rejected err => console_error "Failed to delete expired message:" err st
  end.

(** One of the promises settles, once the call that made it has returned,
    and its handler runs; [i] is its place among those that have not
    settled.  They settle in any order. *)
Definition settle (i : nat) (st : State) : State :=
  match pending st !! i with
  | Some outcome =>
    catch_handler outcome
      {| activeTimers := activeTimers st; timeouts := timeouts st;
         clock := clock st; ticks := ticks st; app := app st;
         deletions := deletions st; pending := delete i (pending st);
         console := console st |}
  | None => st
  end.

(** The loop of [cleanupExpiredMessages]. *)
Fixpoint cleanup_loop (messages : list Message.t) (conversationId : jsstring)
    (t_now : Z) (validMessages : list Message.t) (st : State)
  : list Message.t * State :=
  match messages with
  | [] => (validMessages, st)
  | message :: rest =>
    if negb (falsy (Message.expiresAt message))
       && (number (Message.expiresAt message) <=? t_now)
    then cleanup_loop rest conversationId t_now validMessages
           (request_deletion conversationId (Message.id message) st)
    else cleanup_loop rest conversationId t_now
           (validMessages ++ [message]) st
  end.

Definition cleanupExpiredMessages (messages : list Message.t)
    (conversationId : jsstring) (st : State) : list Message.t * State :=
  let '(t_now, st) := Date_now st in
  cleanup_loop messages conversationId t_now [] st.

Definition getTimeRemaining (message : Message.t) (st : State)
  : option Z * State :=
  if falsy (Message.expiresAt message) then (None, st)
  else
    let '(t_now, st) := Date_now st in
    let remaining := number (Message.expiresAt message) - t_now in
    (Some (if 0 <? remaining then remaining else 0), st).

(** [formatTimeRemaining]: [ms] is [null] or a whole number of
    milliseconds that a [number] holds exactly, for which the divisions
    and [Math.floor] are those of whole numbers. *)
Definition formatTimeRemaining (ms : option Z) : jsstring :=
  match ms with
  | None => []
  | Some ms =>
    if ms <=? 0 then js "Expiring..."
    else
      let seconds := ms / 1000 in
      let minutes := seconds / 60 in
      let hours := minutes / 60 in
      let days := hours / 24 in
      if 0 <? days then Number_toString days ++ js "d"
      else if 0 <? hours then Number_toString hours ++ js "h"
      else if 0 <? minutes then Number_toString minutes ++ js "m"
      else Number_toString seconds ++ js "s"
  end.

(** [initializeTimers]: [Date.now()] is read only when [expiresAt] is
    truthy; what [startMessageTimer] throws ends the loop. *)
Fixpoint initializeTimers (messages : list Message.t)
    (onMessageExpire : jsstring -> Callback) (st : State)
  : result unit * State :=
  match messages with
  | [] => (Ok tt, st)
  | message :: rest =>
    if falsy (Message.expiresAt message) then
      initializeTimers rest onMessageExpire st
    else
      let '(t_now, st) := Date_now st in
      if t_now <? number (Message.expiresAt message) then
        match startMessageTimer message
                (onMessageExpire (Message.id message)) st with
        | (Ok _, st) => initializeTimers rest onMessageExpire st
        | (Rejected e, st) => (Rejected e, st)
        end
      else initializeTimers rest onMessageExpire st
  end.

Definition getActiveTimerCount (st : State) : nat := size (activeTimers st).

End Service.
End DisappearingMessageService.

(** ** The document store

    Cloud Firestore, reduced to what the services use: the collection
    [conversations] with the messages of each conversation, the key history
    [groupKeys/{groupId}/keys/{keyId}] and the collection [users].  The store is taken to be reachable: a read
    resolves with the document, a write is applied, and the one rejection
    is that of [update] on a document that does not exist.  Identifiers of
    users hold no dot, so that a field path
    [`participantKeys.${userId}`] names the entry of [userId]. *)

Module User.
Record t `{Platform} := {
  id : jsstring;
  email : jsstring;
  displayName : jsstring;
  publicKey : JsonWebKey;
  publicKeyId : jsstring;
  fcmToken : option jsstring;
  createdAt : Z;
  lastSeen : Z
}.
End User.

Module LastMessage.
Record t := {
  senderId : jsstring;
  timestamp : Z;
  preview : jsstring
}.
End LastMessage.

Module Conversation.
Record t `{Platform} := {
  id : jsstring;
  type : ConversationType;
  participants : list jsstring;
  participantKeys : gmap jsstring ParticipantKey.t;
  createdAt : Z;
  updatedAt : Z;
  lastMessage : option LastMessage.t;
  name : option jsstring;
  adminIds : option (list jsstring);
  groupKeyId : option jsstring;
  groupKeyDistribution : option (gmap jsstring jsstring)
}.
End Conversation.

Module Firestore.
Section Firestore.
Context `{Platform}.

(** The data of a user document: a [User] without its [id]. *)
Record UserData := {
  user_email : jsstring;
  user_displayName : jsstring;
  user_publicKey : JsonWebKey;
  user_publicKeyId : jsstring;
  user_fcmToken : option jsstring;
  user_createdAt : Z;
  user_lastSeen : Z
}.

(** The data of a conversation document; a field that a document does not
    have is [None]. *)
Record ConversationData := {
  type : ConversationType;
  participants : list jsstring;
  participantKeys : gmap jsstring ParticipantKey.t;
  createdAt : Z;
  updatedAt : Z;
  lastMessage : option LastMessage.t;
  name : option jsstring;
  adminIds : option (list jsstring);
  groupKeyId : option jsstring;
  groupKeyDistribution : option (gmap jsstring jsstring)
}.

(** The data of a message document. *)
Record MessageData := {
  message_senderId : jsstring;
  message_timestamp : Z;
  message_type : ConversationType;
  message_encrypted : bool;
  message_version : jsstring;
  message_encryptedContent : EncryptedMessage.t + GroupEncryptedMessage.t;
  message_ttl : option Z;
  message_expiresAt : option Z;
  message_readBy : gmap jsstring Z
}.

Record Store := {
  conversations : gmap jsstring ConversationData;
  (** [conversations/{conversationId}/messages/{messageId}] *)
  messages : gmap jsstring (gmap jsstring MessageData);
  groupKeys : gmap (jsstring * jsstring) GroupKeyBundle.t;
  users : gmap jsstring UserData
}.

(** The error of an [update] of a document that does not exist. *)
Variable not_found : JsError.

(** An [async] function of a service: it may use the platform and the
    store, and resolves or rejects; what it wrote before rejecting stays
    written. *)
Definition Svc (A : Type) : Type := Store -> World -> result A * Store * World.

Definition sret {A} (a : A) : Svc A := fun s w => (Ok a, s, w).

Definition sbind {A B} (m : Svc A) (k : A -> Svc B) : Svc B :=
  fun s w => match m s w with
             | (Ok a, s', w') => k a s' w'
             | (Rejected e, s', w') => (Rejected e, s', w')
             end.

(** An [async] function of the crypto core, awaited by a service. *)
Definition lift {A} (m : M A) : Svc A :=
  fun s w => let '(r, w') := m w in (r, s, w').

(** [throw new Error(message)] *)
Definition sthrow {A} (message : string) : Svc A :=
  fun s w => (Rejected (Error message), s, w).

(** [firestore().collection('conversations').doc(id).get()] *)
Definition conversation_get (id : jsstring) : Svc (option ConversationData) :=
  fun s w => (Ok (conversations s !! id), s, w).

(** [firestore().collection('users').doc(id).get()] *)
Definition user_get (id : jsstring) : Svc (option UserData) :=
  fun s w => (Ok (users s !! id), s, w).

(** [firestore().collection('conversations').add(data)]: the document gets
    an identifier that is not in use. *)
Definition conversation_add (data : ConversationData) : Svc jsstring :=
  fun s w =>
    let id := fresh (dom (conversations s)) in
    (Ok id,
     {| conversations := <[id := data]> (conversations s);
        messages := messages s;
        groupKeys := groupKeys s; users := users s |},
     w).

(** [firestore().collection('conversations').doc(id).update(fields)], the
    fields given as the change they make to the data. *)
Definition conversation_update (id : jsstring)
    (fields : ConversationData -> ConversationData) : Svc unit :=
  fun s w =>
    match conversations s !! id with
    | Some data =>
      (Ok tt,
       {| conversations := <[id := fields data]> (conversations s);
          messages := messages s;
          groupKeys := groupKeys s; users := users s |},
       w)
    | None => (Rejected not_found, s, w)
    end.

(** [firestore().collection('groupKeys').doc(groupId).collection('keys')
    .doc(keyId).set(keyBundle)] *)
Definition groupKey_set (groupId keyId : jsstring) (keyBundle : GroupKeyBundle.t)
  : Svc unit :=
  fun s w =>
    (Ok tt,
     {| conversations := conversations s;
        messages := messages s;
        groupKeys := <[(groupId, keyId) := keyBundle]> (groupKeys s);
        users := users s |},
     w).

(** The messages of a conversation; a conversation without messages has
    none. *)
Definition messages_of (s : Store) (conversationId : jsstring)
  : gmap jsstring MessageData :=
  match messages s !! conversationId with
  | Some stored => stored
  | None => ∅
  end.

(** [firestore().collection('conversations').doc(conversationId)
    .collection('messages').add(data)] *)
Definition message_add (conversationId : jsstring) (data : MessageData)
  : Svc jsstring :=
  fun s w =>
    let id := fresh (dom (messages_of s conversationId)) in
    (Ok id,
     {| conversations := conversations s;
        messages := <[conversationId := <[id := data]> (messages_of s conversationId)]>
                      (messages s);
        groupKeys := groupKeys s; users := users s |},
     w).

(** [firestore().collection('conversations').doc(conversationId)
    .collection('messages').doc(messageId).delete()]; deleting a document
    that does not exist succeeds. *)
Definition message_delete (conversationId messageId : jsstring) : Svc unit :=
  fun s w =>
    (Ok tt,
     {| conversations := conversations s;
        messages := <[conversationId := delete messageId (messages_of s conversationId)]>
                      (messages s);
        groupKeys := groupKeys s; users := users s |},
     w).

(** [FieldValue.arrayUnion(x)] and [FieldValue.arrayRemove(x)] on an array
    field. *)
Definition arrayUnion (x : jsstring) (l : list jsstring) : list jsstring :=
  if bool_decide (x ∈ l) then l else l ++ [x].

Definition arrayRemove (x : jsstring) (l : list jsstring) : list jsstring :=
  List.filter (fun y => negb (bool_decide (y = x))) l.

(** The same on a field that the document may not have: a field that is
    not an array is overwritten. *)
Definition arrayUnion_field (x : jsstring) (f : option (list jsstring))
  : option (list jsstring) :=
  match f with
  | Some l => Some (arrayUnion x l)
  | None => Some [x]
  end.

Definition arrayRemove_field (x : jsstring) (f : option (list jsstring))
  : option (list jsstring) :=
  match f with
  | Some l => Some (arrayRemove x l)
  | None => Some []
  end.

(** The changes that the services make to a conversation document; every
    other field is kept. *)
Definition set_lastMessage (m : LastMessage.t) (t : Z) (d : ConversationData)
  : ConversationData :=
  {| type := type d; participants := participants d;
     participantKeys := participantKeys d; createdAt := createdAt d;
     updatedAt := t; lastMessage := Some m; name := name d;
     adminIds := adminIds d; groupKeyId := groupKeyId d;
     groupKeyDistribution := groupKeyDistribution d |}.

Definition add_participant (newMemberId : jsstring) (pk : ParticipantKey.t)
    (t : Z) (d : ConversationData) : ConversationData :=
  {| type := type d;
     participants := arrayUnion newMemberId (participants d);
     participantKeys := <[newMemberId := pk]> (participantKeys d);
     createdAt := createdAt d; updatedAt := t;
     lastMessage := lastMessage d; name := name d;
     adminIds := adminIds d; groupKeyId := groupKeyId d;
     groupKeyDistribution := groupKeyDistribution d |}.

Definition remove_participant (memberId : jsstring)
    (keys : gmap jsstring ParticipantKey.t) (t : Z) (d : ConversationData)
  : ConversationData :=
  {| type := type d;
     participants := arrayRemove memberId (participants d);
     participantKeys := keys;
     createdAt := createdAt d; updatedAt := t;
     lastMessage := lastMessage d; name := name d;
     adminIds := adminIds d; groupKeyId := groupKeyId d;
     groupKeyDistribution := groupKeyDistribution d |}.

Definition set_groupKey (keyId : jsstring) (keys : gmap jsstring jsstring)
    (d : ConversationData) : ConversationData :=
  {| type := type d; participants := participants d;
     participantKeys := participantKeys d; createdAt := createdAt d;
     updatedAt := updatedAt d; lastMessage := lastMessage d; name := name d;
     adminIds := adminIds d; groupKeyId := Some keyId;
     groupKeyDistribution := Some keys |}.

Definition set_groupKey_entry (userId encryptedKey : jsstring)
    (d : ConversationData) : ConversationData :=
  {| type := type d; participants := participants d;
     participantKeys := participantKeys d; createdAt := createdAt d;
     updatedAt := updatedAt d; lastMessage := lastMessage d; name := name d;
     adminIds := adminIds d; groupKeyId := groupKeyId d;
     groupKeyDistribution :=
       Some (<[userId := encryptedKey]>
               (match groupKeyDistribution d with
                | Some keys => keys
                | None => ∅
                end)) |}.

Definition change_adminIds
    (f : option (list jsstring) -> option (list jsstring))
    (d : ConversationData) : ConversationData :=
  {| type := type d; participants := participants d;
     participantKeys := participantKeys d; createdAt := createdAt d;
     updatedAt := updatedAt d; lastMessage := lastMessage d; name := name d;
     adminIds := f (adminIds d); groupKeyId := groupKeyId d;
     groupKeyDistribution := groupKeyDistribution d |}.

Definition set_name (newName : jsstring) (t : Z) (d : ConversationData)
  : ConversationData :=
  {| type := type d; participants := participants d;
     participantKeys := participantKeys d; createdAt := createdAt d;
     updatedAt := t; lastMessage := lastMessage d; name := Some newName;
     adminIds := adminIds d; groupKeyId := groupKeyId d;
     groupKeyDistribution := groupKeyDistribution d |}.

End Firestore.
End Firestore.

Notation "'let!' x ':=' m 'in' k" := (Firestore.sbind m (fun x => k))
  (at level 10, x name, m at level 100, k at level 200) : js_scope.

(** ** core/auth/authService.ts: [getUserById] *)

Module AuthService.
Section AuthService.
Context `{Platform}.

Definition getUserById (userId : jsstring) : Firestore.Svc (option User.t) :=
  let! userDoc := Firestore.user_get userId in
  match userDoc with
  | None => Firestore.sret None
  | Some data =>
    Firestore.sret
      (Some {| User.id := userId;
               User.email := Firestore.user_email data;
               User.displayName := Firestore.user_displayName data;
               User.publicKey := Firestore.user_publicKey data;
               User.publicKeyId := Firestore.user_publicKeyId data;
               User.fcmToken := Firestore.user_fcmToken data;
               User.createdAt := Firestore.user_createdAt data;
               User.lastSeen := Firestore.user_lastSeen data |})
  end.

End AuthService.
End AuthService.

(** ** services/conversationService.ts *)

Module ConversationService.
Section ConversationService.
Context `{Platform}.
Variable not_found : JsError.

Definition documentToConversation (id : jsstring)
    (data : Firestore.ConversationData) : Conversation.t :=
  {| Conversation.id := id;
     Conversation.type := Firestore.type data;
     Conversation.participants := Firestore.participants data;
     Conversation.participantKeys := Firestore.participantKeys data;
     Conversation.createdAt := Firestore.createdAt data;
     Conversation.updatedAt := Firestore.updatedAt data;
     Conversation.lastMessage := Firestore.lastMessage data;
     Conversation.name := Firestore.name data;
     Conversation.adminIds := Firestore.adminIds data;
     Conversation.groupKeyId := Firestore.groupKeyId data;
     Conversation.groupKeyDistribution := Firestore.groupKeyDistribution data |}.

(** The loop [for (const memberId of allMemberIds)] of
    [createGroupConversation]: a member without a user document gets no
    entry. *)
Fixpoint collect_keys (memberIds : list jsstring)
    (participantKeys : gmap jsstring ParticipantKey.t)
  : Firestore.Svc (gmap jsstring ParticipantKey.t) :=
  match memberIds with
  | [] => Firestore.sret participantKeys
  | memberId :: rest =>
    let! user := AuthService.getUserById memberId in
    match user with
    | Some user =>
      collect_keys rest
        (<[memberId := {| ParticipantKey.publicKey := User.publicKey user;
                          ParticipantKey.keyId := User.publicKeyId user |}]>
           participantKeys)
    | None => collect_keys rest participantKeys
    end
  end.

Definition createGroupConversation (creatorId name : jsstring)
    (memberIds : list jsstring) : Firestore.Svc Conversation.t :=
  let allMemberIds :=
    creatorId
      :: List.filter (fun id => negb (bool_decide (id = creatorId))) memberIds in
  let! participantKeys := collect_keys allMemberIds ∅ in
  let! createdAt := Firestore.lift now in
  let! updatedAt := Firestore.lift now in
  let conversationData :=
    {| Firestore.type := group;
       Firestore.participants := allMemberIds;
       Firestore.participantKeys := participantKeys;
       Firestore.createdAt := createdAt;
       Firestore.updatedAt := updatedAt;
       Firestore.lastMessage := None;
       Firestore.name := Some name;
       Firestore.adminIds := Some [creatorId];
       Firestore.groupKeyId := None;
       Firestore.groupKeyDistribution := None |} in
  let! docRef_id := Firestore.conversation_add conversationData in
  Firestore.sret
    {| Conversation.id := docRef_id;
       Conversation.type := group;
       Conversation.participants := allMemberIds;
       Conversation.participantKeys := participantKeys;
       Conversation.createdAt := createdAt;
       Conversation.updatedAt := updatedAt;
       Conversation.lastMessage := None;
       Conversation.name := Some name;
       Conversation.adminIds := Some [creatorId];
       Conversation.groupKeyId := None;
       Conversation.groupKeyDistribution := None |}.

Definition getConversation (conversationId : jsstring)
  : Firestore.Svc (option Conversation.t) :=
  let! doc := Firestore.conversation_get conversationId in
  match doc with
  | None => Firestore.sret None
  | Some data => Firestore.sret (Some (documentToConversation conversationId data))
  end.

Definition updateLastMessage (conversationId senderId : jsstring)
  : Firestore.Svc unit :=
  let! timestamp := Firestore.lift now in
  let! updatedAt := Firestore.lift now in
  Firestore.conversation_update not_found conversationId
    (Firestore.set_lastMessage
       {| LastMessage.senderId := senderId;
          LastMessage.timestamp := timestamp;
          LastMessage.preview := js "Encrypted message" |}
       updatedAt).

Definition addGroupMember (conversationId newMemberId : jsstring)
  : Firestore.Svc unit :=
  let! user := AuthService.getUserById newMemberId in
  match user with
  | None => Firestore.sthrow "User not found"
  | Some user =>
    let! updatedAt := Firestore.lift now in
    Firestore.conversation_update not_found conversationId
      (Firestore.add_participant newMemberId
         {| ParticipantKey.publicKey := User.publicKey user;
            ParticipantKey.keyId := User.publicKeyId user |}
         updatedAt)
  end.

(** [removeGroupMember]: the transaction reads the document and updates
    it. *)
Definition removeGroupMember (conversationId memberId : jsstring)
  : Firestore.Svc unit :=
  let! doc := Firestore.conversation_get conversationId in
  match doc with
  | None => Firestore.sthrow "Conversation not found"
  | Some data =>
    let participantKeys := delete memberId (Firestore.participantKeys data) in
    let! updatedAt := Firestore.lift now in
    Firestore.conversation_update not_found conversationId
      (Firestore.remove_participant memberId participantKeys updatedAt)
  end.

End ConversationService.
End ConversationService.

(** ** services/groupService.ts *)

Module GroupService.
Section GroupService.
Context `{Platform}.
Variable not_found : JsError.

(** [getPrivateKey] of core/storage: the private key that the device holds
    for the user, or [null]; it does not reject. *)
Variable getPrivateKey : jsstring -> option JsonWebKey.

(** [conversation.adminIds?.includes(id)] *)
Definition is_admin (conversation : Conversation.t) (id : jsstring) : bool :=
  match Conversation.adminIds conversation with
  | Some adminIds => bool_decide (id ∈ adminIds)
  | None => false
  end.

(** [conversation.adminIds.length], read after [includes] held *)
Definition admin_count (conversation : Conversation.t) : nat :=
  match Conversation.adminIds conversation with
  | Some adminIds => List.length adminIds
  | None => 0
  end.

(** [!conversation || conversation.type !== 'group'] *)
Definition as_group (conversation : option Conversation.t)
  : option Conversation.t :=
  match conversation with
  | Some c => match Conversation.type c with
              | group => Some c
              | direct => None
              end
  | None => None
  end.

Definition createGroup (creatorId name : jsstring) (memberIds : list jsstring)
  : Firestore.Svc (Conversation.t * AesKey) :=
  let! conversation :=
    ConversationService.createGroupConversation creatorId name memberIds in
  let! created :=
    Firestore.lift
      (GroupKeys.createGroupKeyBundle
         (Conversation.participantKeys conversation) creatorId) in
  let keyBundle := fst created in
  let groupKey := snd created in
  let! _ :=
    Firestore.conversation_update not_found (Conversation.id conversation)
      (Firestore.set_groupKey (GroupKeyBundle.keyId keyBundle)
         (GroupKeyBundle.encryptedKeys keyBundle)) in
  let! _ :=
    Firestore.groupKey_set (Conversation.id conversation)
      (GroupKeyBundle.keyId keyBundle) keyBundle in
  Firestore.sret
    ({| Conversation.id := Conversation.id conversation;
        Conversation.type := Conversation.type conversation;
        Conversation.participants := Conversation.participants conversation;
        Conversation.participantKeys := Conversation.participantKeys conversation;
        Conversation.createdAt := Conversation.createdAt conversation;
        Conversation.updatedAt := Conversation.updatedAt conversation;
        Conversation.lastMessage := Conversation.lastMessage conversation;
        Conversation.name := Conversation.name conversation;
        Conversation.adminIds := Conversation.adminIds conversation;
        Conversation.groupKeyId := Some (GroupKeyBundle.keyId keyBundle);
        Conversation.groupKeyDistribution :=
          Some (GroupKeyBundle.encryptedKeys keyBundle) |},
     groupKey).

Definition getGroupKey (groupId userId : jsstring)
  : Firestore.Svc (option AesKey) :=
  let! conversation := ConversationService.getConversation groupId in
  match as_group conversation with
  | None => Firestore.sret None
  | Some conversation =>
    let encryptedKey :=
      match Conversation.groupKeyDistribution conversation with
      | Some keys => keys !! userId
      | None => None
      end in
    match encryptedKey with
    | None => Firestore.sret None
    | Some encryptedKey =>
      if Encryption.empty encryptedKey then Firestore.sret None
      else
        match getPrivateKey userId with
        | None => Firestore.sret None
        | Some privateKey =>
          let! groupKey :=
            Firestore.lift
              (await (GroupKeys.decryptGroupKey encryptedKey privateKey)) in
          Firestore.sret (Some groupKey)
        end
    end
  end.

Definition addMember (groupId adminId newMemberId : jsstring)
  : Firestore.Svc unit :=
  let! conversation := ConversationService.getConversation groupId in
  match as_group conversation with
  | None => Firestore.sthrow "Group not found"
  | Some conversation =>
    if negb (is_admin conversation adminId) then
      Firestore.sthrow "Only admins can add members"
    else
      let! groupKey := getGroupKey groupId adminId in
      match groupKey with
      | None => Firestore.sthrow "Could not retrieve group key"
      | Some groupKey =>
        let! newMember := AuthService.getUserById newMemberId in
        match newMember with
        | None => Firestore.sthrow "User not found"
        | Some newMember =>
          let! encryptedKeyForNewMember :=
            Firestore.lift
              (GroupKeys.addMemberToGroup groupKey (User.publicKey newMember)) in
          let! _ :=
            ConversationService.addGroupMember not_found groupId newMemberId in
          Firestore.conversation_update not_found groupId
            (Firestore.set_groupKey_entry newMemberId encryptedKeyForNewMember)
        end
      end
  end.

Definition removeMember (groupId adminId memberIdToRemove : jsstring)
  : Firestore.Svc AesKey :=
  let! conversation := ConversationService.getConversation groupId in
  match as_group conversation with
  | None => Firestore.sthrow "Group not found"
  | Some conversation =>
    if negb (is_admin conversation adminId) then
      Firestore.sthrow "Only admins can remove members"
    else if is_admin conversation memberIdToRemove
            && (admin_count conversation =? 1)%nat then
      Firestore.sthrow "Cannot remove the last admin"
    else
      let! _ :=
        ConversationService.removeGroupMember not_found groupId
          memberIdToRemove in
      let remainingParticipantKeys :=
        filter (fun entry => fst entry <> memberIdToRemove)
               (Conversation.participantKeys conversation) in
      let! rotated :=
        Firestore.lift
          (GroupKeys.rotateGroupKey remainingParticipantKeys adminId) in
      let keyBundle := fst rotated in
      let groupKey := snd rotated in
      let! _ :=
        Firestore.conversation_update not_found groupId
          (Firestore.set_groupKey (GroupKeyBundle.keyId keyBundle)
             (GroupKeyBundle.encryptedKeys keyBundle)) in
      let! _ :=
        Firestore.groupKey_set groupId (GroupKeyBundle.keyId keyBundle)
          keyBundle in
      Firestore.sret groupKey
  end.

Definition makeAdmin (groupId currentAdminId newAdminId : jsstring)
  : Firestore.Svc unit :=
  let! conversation := ConversationService.getConversation groupId in
  match as_group conversation with
  | None => Firestore.sthrow "Group not found"
  | Some conversation =>
    if negb (is_admin conversation currentAdminId) then
      Firestore.sthrow "Only admins can promote members"
    else if negb (bool_decide
                    (newAdminId ∈ Conversation.participants conversation)) then
      Firestore.sthrow "User is not a member of this group"
    else
      Firestore.conversation_update not_found groupId
        (Firestore.change_adminIds (Firestore.arrayUnion_field newAdminId))
  end.

Definition removeAdmin (groupId currentAdminId adminIdToRemove : jsstring)
  : Firestore.Svc unit :=
  let! conversation := ConversationService.getConversation groupId in
  match as_group conversation with
  | None => Firestore.sthrow "Group not found"
  | Some conversation =>
    if negb (is_admin conversation currentAdminId) then
      Firestore.sthrow "Only admins can demote members"
    else if (admin_count conversation =? 1)%nat then
      Firestore.sthrow "Cannot remove the last admin"
    else
      Firestore.conversation_update not_found groupId
        (Firestore.change_adminIds (Firestore.arrayRemove_field adminIdToRemove))
  end.

Definition updateGroupName (groupId adminId newName : jsstring)
  : Firestore.Svc unit :=
  let! conversation := ConversationService.getConversation groupId in
  match as_group conversation with
  | None => Firestore.sthrow "Group not found"
  | Some conversation =>
    if negb (is_admin conversation adminId) then
      Firestore.sthrow "Only admins can rename the group"
    else
      let! updatedAt := Firestore.lift now in
      Firestore.conversation_update not_found groupId
        (Firestore.set_name newName updatedAt)
  end.

Definition leaveGroup (groupId userId : jsstring) : Firestore.Svc unit :=
  let! conversation := ConversationService.getConversation groupId in
  match as_group conversation with
  | None => Firestore.sthrow "Group not found"
  | Some conversation =>
    if is_admin conversation userId
       && (admin_count conversation =? 1)%nat
       && (1 <? List.length (Conversation.participants conversation))%nat then
      Firestore.sthrow
        "You are the last admin. Please promote another member before leaving."
    else ConversationService.removeGroupMember not_found groupId userId
  end.

End GroupService.
End GroupService.

(** ** services/messageService.ts *)

Module MessageService.
Section MessageService.
Context `{Platform}.
Variable not_found : JsError.

(** [getPrivateKey] of core/storage, as for the group service. *)
Variable getPrivateKey : jsstring -> option JsonWebKey.

(** [ttl ? Date.now() + ttl * 1000 : null]: [null] and [0] are falsy. *)
Definition expiry (ttl : option Z) : Firestore.Svc (option Z) :=
  match ttl with
  | None => Firestore.sret None
  | Some seconds =>
    if seconds =? 0 then Firestore.sret None
    else
      let! t_now := Firestore.lift now in
      Firestore.sret (Some (t_now + seconds * 1000))
  end.

Definition sendDirectMessage (conversationId senderId plaintext : jsstring)
    (ttl : option Z) : Firestore.Svc Message.t :=
  let! conversation := ConversationService.getConversation conversationId in
  match conversation with
  | None => Firestore.sthrow "Conversation not found"
  | Some conversation =>
    match List.find (fun id => negb (bool_decide (id = senderId)))
                    (Conversation.participants conversation) with
    | None => Firestore.sthrow "Recipient not found"
    | Some recipientId =>
      if Encryption.empty recipientId then
        Firestore.sthrow "Recipient not found"
      else
        match Conversation.participantKeys conversation !! recipientId with
        | None => Firestore.sthrow "Recipient's public key not found"
        | Some recipientKey =>
          let! encryptedContent :=
            Firestore.lift
              (Encryption.encryptMessage plaintext
                 (ParticipantKey.publicKey recipientKey)) in
          let! timestamp := Firestore.lift now in
          let! expiresAt := expiry ttl in
          let messageData :=
            {| Firestore.message_senderId := senderId;
               Firestore.message_timestamp := timestamp;
               Firestore.message_type := direct;
               Firestore.message_encrypted := true;
               Firestore.message_version := js "tt-e1";
               Firestore.message_encryptedContent := inl encryptedContent;
               Firestore.message_ttl := ttl;
               Firestore.message_expiresAt := expiresAt;
               Firestore.message_readBy := ∅ |} in
          let! docRef_id := Firestore.message_add conversationId messageData in
          let! _ :=
            ConversationService.updateLastMessage not_found conversationId
              senderId in
          Firestore.sret
            {| Message.id := docRef_id;
               Message.conversationId := conversationId;
               Message.senderId := senderId;
               Message.timestamp := timestamp;
               Message.type := direct;
               Message.encryptedContent := inl encryptedContent;
               Message.ttl := ttl;
               Message.expiresAt := expiresAt;
               Message.readBy := ∅ |}
        end
    end
  end.

Definition sendGroupMessage (conversationId senderId plaintext : jsstring)
    (groupKey : AesKey) (keyId : jsstring) (ttl : option Z)
  : Firestore.Svc Message.t :=
  let! encryptedContent :=
    Firestore.lift (GroupKeys.encryptGroupMessage plaintext groupKey keyId) in
  let! timestamp := Firestore.lift now in
  let! expiresAt := expiry ttl in
  let messageData :=
    {| Firestore.message_senderId := senderId;
       Firestore.message_timestamp := timestamp;
       Firestore.message_type := group;
       Firestore.message_encrypted := true;
       Firestore.message_version := js "tt-e1";
       Firestore.message_encryptedContent := inr encryptedContent;
       Firestore.message_ttl := ttl;
       Firestore.message_expiresAt := expiresAt;
       Firestore.message_readBy := ∅ |} in
  let! docRef_id := Firestore.message_add conversationId messageData in
  let! _ :=
    ConversationService.updateLastMessage not_found conversationId senderId in
  Firestore.sret
    {| Message.id := docRef_id;
       Message.conversationId := conversationId;
       Message.senderId := senderId;
       Message.timestamp := timestamp;
       Message.type := group;
       Message.encryptedContent := inr encryptedContent;
       Message.ttl := ttl;
       Message.expiresAt := expiresAt;
       Message.readBy := ∅ |}.

Definition decryptDirectMessageContent (encryptedContent : EncryptedMessage.t)
    (userId : jsstring) : Firestore.Svc jsstring :=
  match getPrivateKey userId with
  | None => Firestore.sthrow "Private key not found"
  | Some privateKey =>
    Firestore.lift
      (await (Encryption.decryptMessage encryptedContent privateKey))
  end.

Definition decryptGroupMessageContent
    (encryptedContent : GroupEncryptedMessage.t) (groupKey : AesKey)
  : Firestore.Svc jsstring :=
  Firestore.lift
    (await (GroupKeys.decryptGroupMessage encryptedContent groupKey)).

Definition deleteMessage (conversationId messageId : jsstring)
  : Firestore.Svc unit :=
  Firestore.message_delete conversationId messageId.

End MessageService.
End MessageService.

(** ** core/auth/passwordValidation.ts *)

Module PasswordValidation.

Record PasswordRequirements := {
  minLength : Z;
  requireUppercase : bool;
  requireLowercase : bool;
  requireNumber : bool;
  requireSpecial : bool
}.

Definition PASSWORD_REQUIREMENTS : PasswordRequirements :=
  {| minLength := 12;
     requireUppercase := true;
     requireLowercase := true;
     requireNumber := true;
     requireSpecial := false |}.

Record PasswordValidationResult := {
  valid : bool;
  errors : list jsstring
}.

(** The code unit of an ASCII character. *)
Definition code (a : ascii) : Z := Z.of_N (N_of_ascii a).

(** [/[lo-hi]/.test(s)]: some code unit of [s] lies in the range. *)
Definition test_range (lo hi : ascii) (s : jsstring) : bool :=
  existsb (fun c => (code lo <=? c) && (c <=? code hi)) s.

(** The characters of the class for special characters; 34 is the double
    quote. *)
Definition special_characters : jsstring :=
  js "!@#$%^&*(),.?" ++ [34] ++ js ":{}|<>".

(** The test of the regular expression for special characters. *)
Definition test_special (s : jsstring) : bool :=
  existsb (fun c => bool_decide (c ∈ special_characters)) s.

(** [if (cond) errors.push(message)] *)
Definition push_if (cond : bool) (message : jsstring) (errors : list jsstring)
  : list jsstring :=
  if cond then errors ++ [message] else errors.

Definition validatePassword (password : jsstring) : PasswordValidationResult :=
  let errors := [] in
  let errors :=
    push_if (Encryption.empty password
             || (Z.of_nat (List.length password) <? minLength PASSWORD_REQUIREMENTS))
      (js "Password must be at least "
         ++ Number_toString (minLength PASSWORD_REQUIREMENTS)
         ++ js " characters") errors in
  let errors :=
    push_if (requireUppercase PASSWORD_REQUIREMENTS
             && negb (test_range "A" "Z" password))
      (js "Password must contain at least one uppercase letter") errors in
  let errors :=
    push_if (requireLowercase PASSWORD_REQUIREMENTS
             && negb (test_range "a" "z" password))
      (js "Password must contain at least one lowercase letter") errors in
  let errors :=
    push_if (requireNumber PASSWORD_REQUIREMENTS
             && negb (test_range "0" "9" password))
      (js "Password must contain at least one number") errors in
  let errors :=
    push_if (requireSpecial PASSWORD_REQUIREMENTS
             && negb (test_special password))
      (js "Password must contain at least one special character") errors in
  {| valid := (List.length errors =? 0)%nat; errors := errors |}.

Definition getPasswordRequirementsText : list jsstring :=
  let requirements :=
    [js "At least " ++ Number_toString (minLength PASSWORD_REQUIREMENTS)
       ++ js " characters long"] in
  let requirements :=
    push_if (requireUppercase PASSWORD_REQUIREMENTS)
      (js "At least one uppercase letter (A-Z)") requirements in
  let requirements :=
    push_if (requireLowercase PASSWORD_REQUIREMENTS)
      (js "At least one lowercase letter (a-z)") requirements in
  let requirements :=
    push_if (requireNumber PASSWORD_REQUIREMENTS)
      (js "At least one number (0-9)") requirements in
  push_if (requireSpecial PASSWORD_REQUIREMENTS)
    (js "At least one special character (!@#$%^&*...)") requirements.

End PasswordValidation.

(** ** What is assumed of the platform *)

(** The sizes of an AES key, in bytes. *)
Definition aes_key_size (k : bytes) : bool :=
  let n := List.length k in
  (n =? 16)%nat || (n =? 24)%nat || (n =? 32)%nat.

(** Functional correctness of the primitives: decryption inverts
    encryption, RSA-OAEP with a 2048-bit modulus and SHA-256 takes up to
    190 bytes, an AES-GCM ciphertext carries its tag, and [JSON.parse]
    inverts [JSON.stringify], whose output is a well-formed string that
    opens with a brace. *)
Class PlatformLaws (P : Platform) : Prop := {
  random_bytes_length :
    forall n w, List.length (fst (random_bytes n w)) = n;
  rsa_oaep_correct :
    forall w seed m,
      (List.length m <= 190)%nat ->
      exists c,
        rsa_oaep_encrypt (fst (fst (rsa_keygen w))) seed m = Some c /\
        rsa_oaep_decrypt (snd (fst (rsa_keygen w))) c = Some m;
  jwk_public_round_trip :
    forall pub, public_of_jwk (jwk_of_public pub) = Some pub;
  jwk_private_round_trip :
    forall priv, private_of_jwk (jwk_of_private priv) = Some priv;
  aes_gcm_correct :
    forall k iv m, aes_gcm_decrypt k iv (aes_gcm_encrypt k iv m) = Some m;
  aes_gcm_nonempty :
    forall k iv m, aes_gcm_encrypt k iv m <> [];
  JSON_round_trip :
    forall K, JSON_parse (JSON_stringify K) = Some K;
  JSON_stringify_well_formed :
    forall K, TextCodec.isWellFormed (JSON_stringify K) = true;
  JSON_stringify_brace :
    forall K, exists rest, JSON_stringify K = 123 :: rest
}.

(** ** A reference platform

    A small executable platform on which the functions can be run: the
    random source is a counter, a key pair is a number and its copy, a
    ciphertext names its key in clear.  It provides no secrecy; it serves
    to evaluate the program on concrete inputs. *)

Module Reference.

Definition tag (n : nat) : byte := u8_of_Z (Z.of_nat n).

Definition rsa_encrypt (pub : nat) (seed m : bytes) : option bytes :=
  if (List.length m <=? 190)%nat then Some (tag pub :: m) else None.

Definition rsa_decrypt (priv : nat) (c : bytes) : option bytes :=
  match c with
  | t :: m => if bool_decide (t = tag priv) then Some m else None
  | [] => None
  end.

Definition aes_encrypt (k iv m : bytes) : bytes :=
  tag (List.length k) :: k ++ m.

Definition aes_decrypt (k iv c : bytes) : option bytes :=
  match c with
  | t :: rest =>
    if bool_decide (t = tag (List.length k))
       && bool_decide (firstn (List.length k) rest = k)
    then Some (skipn (List.length k) rest)
    else None
  | [] => None
  end.

Definition stringify (K : bool) : jsstring :=
  if K then [123; 125] else [123; 32; 125].

Definition parse (s : jsstring) : option bool :=
  if bool_decide (s = [123; 125]) then Some true
  else if bool_decide (s = [123; 32; 125]) then Some false
  else None.

#[local] Instance platform : Platform := {|
  World := nat;
  RsaPublic := nat;
  RsaPrivate := nat;
  JsonWebKey := nat + nat;
  KeyMap := bool;
  random_bytes := fun n w => (repeat (tag w) n, S w);
  rsa_keygen := fun w => ((w, w), S w);
  rsa_oaep_encrypt := rsa_encrypt;
  rsa_oaep_decrypt := rsa_decrypt;
  jwk_of_public := inl;
  jwk_of_private := inr;
  public_of_jwk := fun jwk => match jwk with inl n => Some n | inr _ => None end;
  private_of_jwk := fun jwk => match jwk with inr n => Some n | inl _ => None end;
  importKey_jwk_error := fun _ _ => DOMException SyntaxError;
  aes_gcm_encrypt := aes_encrypt;
  aes_gcm_decrypt := aes_decrypt;
  pbkdf2_sha256 := fun password salt _ => firstn 32 (password ++ salt ++ repeat x00 32);
  JSON_stringify := stringify;
  JSON_parse := parse;
  Date_now := fun w => 1700000000000 + Z.of_nat w;
  Date_toISOString := fun _ => js "2023-11-14T22:13:20.000Z"
|}.

(** The identities that [generateUserKeyPair] makes first. *)
Definition alice : @KeyPair.t platform :=
  {| KeyPair.publicKey := inl 0%nat; KeyPair.privateKey := inr 0%nat;
     KeyPair.keyId := js "0101010101010101";
     KeyPair.createdAt := 1700000000002 |}.

Definition bob : @KeyPair.t platform :=
  {| KeyPair.publicKey := inl 2%nat; KeyPair.privateKey := inr 2%nat;
     KeyPair.keyId := js "0303030303030303";
     KeyPair.createdAt := 1700000000004 |}.

Definition carol : @KeyPair.t platform :=
  {| KeyPair.publicKey := inl 4%nat; KeyPair.privateKey := inr 4%nat;
     KeyPair.keyId := js "0505050505050505";
     KeyPair.createdAt := 1700000000006 |}.

(** The group of [alice], [bob] and [carol], and the group without
    [carol]. *)
Definition three_members : gmap jsstring (@KeyPair.t platform) :=
  <[js "alice" := alice]> (<[js "bob" := bob]> {[js "carol" := carol]}).

Definition two_members : gmap jsstring (@KeyPair.t platform) :=
  <[js "alice" := alice]> {[js "bob" := bob]}.

(** The key that the platform generates when the random source stands at
    [n]: 32 bytes [n]. *)
Definition group_key (n : nat) : AesKey :=
  {| aes_raw := repeat (tag n) 32; aes_extractable := true;
     aes_usages := [encrypt; decrypt] |}.

(** What [encryptMessage] makes of "hello" for [alice] when the random
    source stands at 2: the AES key is 32 bytes 02, the nonce 12 bytes 03. *)
Definition hello_for_alice : EncryptedMessage.t :=
  {| EncryptedMessage.encrypted := true;
     EncryptedMessage.version := js "tt-e1";
     EncryptedMessage.data :=
       Utils.arrayBufferToBase64
         (aes_encrypt (repeat x02 32) (repeat x03 12)
            (TextCodec.TextEncoder_encode (js "hello")));
     EncryptedMessage.key :=
       Utils.arrayBufferToBase64
         (tag 0 :: repeat x02 32);
     EncryptedMessage.iv := Utils.arrayBufferToBase64 (repeat x03 12) |}.

(** The same payload with its ciphertext replaced by three zero bytes. *)
Definition tampered_for_alice : EncryptedMessage.t :=
  {| EncryptedMessage.encrypted := true;
     EncryptedMessage.version := js "tt-e1";
     EncryptedMessage.data := js "AAAA";
     EncryptedMessage.key := EncryptedMessage.key hello_for_alice;
     EncryptedMessage.iv := EncryptedMessage.iv hello_for_alice |}.

(** A payload whose [key] field wraps, for [alice], five bytes instead of
    an AES key. *)
Definition short_key_for_alice : EncryptedMessage.t :=
  {| EncryptedMessage.encrypted := true;
     EncryptedMessage.version := js "tt-e1";
     EncryptedMessage.data := EncryptedMessage.data hello_for_alice;
     EncryptedMessage.key :=
       Utils.arrayBufferToBase64 (tag 0 :: repeat x02 5);
     EncryptedMessage.iv := EncryptedMessage.iv hello_for_alice |}.

End Reference.

(** ** The round trips that the specification names *)

Section RoundTrips.
Context `{Platform}.

(** [decryptMessage(await encryptMessage(plaintext, pub), priv)] *)
Definition roundTripDirect (plaintext : jsstring) (kp : KeyPair.t)
  : M jsstring :=
  let* payload := Encryption.encryptMessage plaintext (KeyPair.publicKey kp) in
  await (Encryption.decryptMessage payload (KeyPair.privateKey kp)).

(** [decryptGroupMessage(await encryptGroupMessage(plaintext, groupKey,
    keyId), groupKey')] *)
Definition roundTripGroup (plaintext : jsstring) (groupKey : AesKey)
    (keyId : jsstring) (groupKey' : AesKey) : M jsstring :=
  let* payload := GroupKeys.encryptGroupMessage plaintext groupKey keyId in
  await (GroupKeys.decryptGroupMessage payload groupKey').

(** [importPrivateKeys(await exportPrivateKeys(privateKeys, password),
    password')] *)
Definition roundTripBackup (privateKeys : KeyMap)
    (password password' : jsstring) : M KeyMap :=
  let* bundle := Encryption.exportPrivateKeys privateKeys password in
  await (Encryption.importPrivateKeys bundle password').

(** The directory entry of an identity: its public half. *)
Definition participant (kp : KeyPair.t) : ParticipantKey.t :=
  {| ParticipantKey.publicKey := KeyPair.publicKey kp;
     ParticipantKey.keyId := KeyPair.keyId kp |}.

(** An identity made by [generateUserKeyPair]. *)
Definition generated (kp : KeyPair.t) : Prop :=
  exists w0 w1, KeyGeneration.generateUserKeyPair w0 = (Ok kp, w1).

(** A payload with another [version]. *)
Definition with_version (v : jsstring) (payload : EncryptedMessage.t)
  : EncryptedMessage.t :=
  {| EncryptedMessage.encrypted := EncryptedMessage.encrypted payload;
     EncryptedMessage.version := v;
     EncryptedMessage.data := EncryptedMessage.data payload;
     EncryptedMessage.key := EncryptedMessage.key payload;
     EncryptedMessage.iv := EncryptedMessage.iv payload |}.

Definition group_with_version (v : jsstring) (payload : GroupEncryptedMessage.t)
  : GroupEncryptedMessage.t :=
  {| GroupEncryptedMessage.encrypted := GroupEncryptedMessage.encrypted payload;
     GroupEncryptedMessage.version := v;
     GroupEncryptedMessage.data := GroupEncryptedMessage.data payload;
     GroupEncryptedMessage.iv := GroupEncryptedMessage.iv payload;
     GroupEncryptedMessage.keyId := GroupEncryptedMessage.keyId payload |}.

End RoundTrips.

(** ** Batches of messages, for the statements about the service *)

Module Batch.

(** A message is expired at [t_now] when its [expiresAt] is set and not
    later than [t_now]. *)
Definition expired (t_now : Z) (message : Message.t) : bool :=
  match Message.expiresAt message with
  | Some t => t <=? t_now
  | None => false
  end.

Definition not_expired (t_now : Z) (message : Message.t) : bool :=
  negb (expired t_now message).

(** A message is dropped at [t_now] when its [expiresAt] is truthy and not
    later than [t_now]: the timestamp 0 is, like [null], no expiry.  The
    other messages are kept. *)
Definition dropped (t_now : Z) (message : Message.t) : bool :=
  match Message.expiresAt message with
  | Some t => negb (t =? 0) && (t <=? t_now)
  | None => false
  end.

Definition kept (t_now : Z) (message : Message.t) : bool :=
  negb (dropped t_now message).

(** The line that a promise leaves on the console when it has settled:
    none when it resolved. *)
Definition line (outcome : result unit) : list (string * JsError) :=
  match outcome with
  | Ok _ => []
  | Rejected err => [("Failed to delete expired message:"%string, err)]
  end.

(** The line that a failed deletion leaves on the console. *)
Definition failure (deleteMessage : jsstring -> jsstring -> result unit)
    (conversationId : jsstring) (message : Message.t)
  : list (string * JsError) :=
  line (deleteMessage conversationId (Message.id message)).

Definition payload0 : EncryptedMessage.t + GroupEncryptedMessage.t :=
  inl {| EncryptedMessage.encrypted := true;
         EncryptedMessage.version := js "tt-e1";
         EncryptedMessage.data := [];
         EncryptedMessage.key := [];
         EncryptedMessage.iv := [] |}.

(** A message of conversation "c1" with the given id and [expiresAt]. *)
Definition message (id : string) (expiresAt : option Z) : Message.t :=
  {| Message.id := js id;
     Message.conversationId := js "c1";
     Message.senderId := js "alice";
     Message.timestamp := 1699999990000;
     Message.type := direct;
     Message.encryptedContent := payload0;
     Message.ttl := match expiresAt with Some _ => Some 60 | None => None end;
     Message.expiresAt := expiresAt;
     Message.readBy := ∅ |}.

(** A service in which nothing has happened yet; the clock stands at
    1700000000000 and the caller's state counts the callbacks run. *)
Definition idle : DisappearingMessageService.State nat :=
  {| DisappearingMessageService.activeTimers := ∅;
     DisappearingMessageService.timeouts := ∅;
     DisappearingMessageService.clock := fun _ => 1700000000000;
     DisappearingMessageService.ticks := 0;
     DisappearingMessageService.app := 0%nat;
     DisappearingMessageService.deletions := [];
     DisappearingMessageService.pending := [];
     DisappearingMessageService.console := [] |}.


(** A message that expires in a minute, one that expired, one that stays,
    and another that expired. *)
Definition m1 : Message.t := message "m1" (Some 1700000060000).
Definition m2 : Message.t := message "m2" (Some 1699999000000).
Definition m3 : Message.t := message "m3" None.
Definition m4 : Message.t := message "m4" (Some 1700000000000).

(** A callback of the caller: it counts and returns. *)
Definition count (id : jsstring) : DisappearingMessageService.Callback nat :=
  fun n => (Ok tt, S n).

(** A callback that counts and throws. *)
Definition throwing (id : jsstring) : DisappearingMessageService.Callback nat :=
  fun n => (Rejected (Error "render failed"), S n).

(** A deletion sink that fails for the message "m2". *)
Definition failing_sink (conversationId id : jsstring) : result unit :=
  if bool_decide (id = js "m2") then Rejected (Error "unavailable") else Ok tt.

End Batch.

(** ** Notions used in the proofs *)

(** The four 6-bit values of a group of three bytes. *)
Definition sextet1 (b1 : Z) := Z.shiftr b1 2.
Definition sextet2 (b1 b2 : Z) := Z.lor (Z.shiftl (Z.land b1 3) 4) (Z.shiftr b2 4).
Definition sextet3 (b2 b3 : Z) := Z.lor (Z.shiftl (Z.land b2 15) 2) (Z.shiftr b3 6).
Definition sextet4 (b3 : Z) := Z.land b3 63.

Definition alphabet_check (i : Z) : bool :=
  match charAt Utils.chars i with
  | [c] => (indexOf Utils.chars [c] =? i) && negb (c =? 61)
  | _ => false
  end.

(** The character for a 6-bit value. *)
Definition b64char (i : Z) : Z := nth (Z.to_nat i) Utils.chars 0.

Fixpoint clean_encoding (buffer : bytes) : jsstring :=
  match buffer with
  | [] => []
  | b1 :: tl1 =>
    match tl1 with
    | [] => [b64char (sextet1 (u8_to_Z b1)); b64char (sextet2 (u8_to_Z b1) 0)]
    | b2 :: tl2 =>
      match tl2 with
      | [] => [b64char (sextet1 (u8_to_Z b1)); b64char (sextet2 (u8_to_Z b1) (u8_to_Z b2));
               b64char (sextet3 (u8_to_Z b2) 0)]
      | b3 :: tl3 =>
        [b64char (sextet1 (u8_to_Z b1)); b64char (sextet2 (u8_to_Z b1) (u8_to_Z b2));
         b64char (sextet3 (u8_to_Z b2) (u8_to_Z b3)); b64char (sextet4 (u8_to_Z b3))]
          ++ clean_encoding tl3
      end
    end
  end.

Definition padding (buffer : bytes) : nat :=
  match (List.length buffer mod 3)%nat with
  | 1%nat => 2%nat
  | 2%nat => 1%nat
  | _ => 0%nat
  end.

(** A Unicode scalar value: a code point that is not a surrogate. *)
Definition scalar (c : Z) : Prop :=
  0 <= c < 0xD800 \/ 0xE000 <= c < 0x110000.

Section Wrapping.
Context `{Platform}.

(** The public key of an entry comes from the platform's key generator. *)
Definition entry_generated (e : jsstring * ParticipantKey.t) : Prop :=
  exists w0, ParticipantKey.publicKey (snd e) = jwk_of_public (fst (fst (rsa_keygen w0))).

(** [ek] wraps [raw] for the public key of [pk]. *)
Definition wraps (raw : bytes) (pk : ParticipantKey.t) (ek : jsstring) : Prop :=
  exists pub seed c,
    public_of_jwk (ParticipantKey.publicKey pk) = Some pub /\
    rsa_oaep_encrypt pub seed raw = Some c /\
    ek = Utils.arrayBufferToBase64 c.

End Wrapping.

(** A directory entry of the reference platform that holds a private key
    where the public key belongs, and a directory with that entry. *)
Definition broken_entry : @ParticipantKey.t Reference.platform :=
  @ParticipantKey.Build_t Reference.platform (inr 4%nat)
    (js "0505050505050505").

Definition broken_directory : gmap jsstring (@ParticipantKey.t Reference.platform) :=
  <[js "carol" := broken_entry]>
    (@participant Reference.platform <$> Reference.two_members).


(** A group key as the program makes them: generated by
    [generateGroupSymmetricKey], or recovered by [decryptGroupKey]. *)
Definition group_key_made `{Platform} (groupKey : AesKey) : Prop :=
  (exists w0 keyId w1,
     KeyGeneration.generateGroupSymmetricKey w0 = (Ok (groupKey, keyId), w1)) \/
  (exists encryptedKey privateKeyJwk,
     GroupKeys.decryptGroupKey encryptedKey privateKeyJwk = Ok groupKey).

(** The group key of a [createGroupKeyBundle] that resolves. *)
Definition key_of (r : result (GroupKeyBundle.t * AesKey)) : option AesKey :=
  match r with
  | Ok (_, k) => Some k
  | Rejected _ => None
  end.

(** The group that the store holds under [groupId], as [getConversation]
    followed by the test for a group sees it. *)
Definition stored_group `{Platform} (s : Firestore.Store) (groupId : jsstring)
  : option Conversation.t :=
  GroupService.as_group
    (ConversationService.documentToConversation groupId
       <$> Firestore.conversations s !! groupId).

(** The user documents of [s] publish the identities [members]: the
    document of each member holds its public key and key identifier. *)
Definition published `{Platform} (s : Firestore.Store)
    (members : gmap jsstring KeyPair.t) : Prop :=
  forall id kp,
    members !! id = Some kp ->
    exists user,
      Firestore.users s !! id = Some user /\
      Firestore.user_publicKey user = KeyPair.publicKey kp /\
      Firestore.user_publicKeyId user = KeyPair.keyId kp.

(** A store on the reference platform: the user documents of [alice],
    [bob] and [carol]; the group "g1" of the three, with [alice] as its
    admin and the group key of [Reference.group_key 6] distributed; the
    group "g2" of [alice] and [bob]; and the device of [alice]. *)
Module ReferenceStore.

Definition user_of (kp : @KeyPair.t Reference.platform) (name : string)
  : @Firestore.UserData Reference.platform :=
  @Firestore.Build_UserData Reference.platform
    (js name) (js name) (KeyPair.publicKey kp) (KeyPair.keyId kp) None
    (KeyPair.createdAt kp) (KeyPair.createdAt kp).

(** The group key that the generator makes at [n], wrapped for the public
    key [pub]. *)
Definition wrapped (pub n : nat) : jsstring :=
  Utils.arrayBufferToBase64 (Reference.tag pub :: repeat (Reference.tag n) 32).

Definition group_data (members : gmap jsstring (@KeyPair.t Reference.platform))
    (participants : list jsstring) (keys : gmap jsstring jsstring)
  : @Firestore.ConversationData Reference.platform :=
  @Firestore.Build_ConversationData Reference.platform
    group participants (@participant Reference.platform <$> members)
    1700000000000 1700000000000 None (Some (js "friends"))
    (Some [js "alice"]) (Some (js "0707070707070707")) (Some keys).

Definition g1 : @Firestore.ConversationData Reference.platform :=
  group_data Reference.three_members [js "alice"; js "bob"; js "carol"]
    (<[js "alice" := wrapped 0 6]>
       (<[js "bob" := wrapped 2 6]> {[js "carol" := wrapped 4 6]})).

Definition g2 : @Firestore.ConversationData Reference.platform :=
  group_data Reference.two_members [js "alice"; js "bob"]
    (<[js "alice" := wrapped 0 6]> {[js "bob" := wrapped 2 6]}).

Definition store : @Firestore.Store Reference.platform :=
  @Firestore.Build_Store Reference.platform
    (<[js "g1" := g1]> {[js "g2" := g2]})
    ∅
    ∅
    (<[js "alice" := user_of Reference.alice "alice"]>
       (<[js "bob" := user_of Reference.bob "bob"]>
          {[js "carol" := user_of Reference.carol "carol"]})).

Definition getPrivateKey (userId : jsstring)
  : option (@JsonWebKey Reference.platform) :=
  if bool_decide (userId = js "alice")
  then Some (KeyPair.privateKey Reference.alice)
  else None.

Definition not_found : JsError := Error "not-found".

End ReferenceStore.

(** A message whose [expiresAt] is the timestamp 0. *)
Definition m0 : Message.t := Batch.message "m0" (Some 0).

Section TimerNotions.
Import DisappearingMessageService.
Context {App : Type}.
Context (deleteMessage : jsstring -> jsstring -> result unit).

(** Every timer of the platform that is pending is the one registered for
    its message. *)
Definition timers_tracked (st : State App) : Prop :=
  forall timer t,
    timeouts App st !! timer = Some t ->
    activeTimers App st !! messageId App t = Some timer.

(** The map of the service and the timers of the platform agree: every
    registered message has a pending timer that was set for it, and every
    pending timer is the one registered for its message. *)
Definition timers_consistent (st : State App) : Prop :=
  (forall id timer,
     activeTimers App st !! id = Some timer ->
     exists t, timeouts App st !! timer = Some t /\ messageId App t = id) /\
  timers_tracked st.

(** Consistent, and as many registered messages as pending timers. *)
Definition timers_balanced (st : State App) : Prop :=
  timers_consistent st /\
  getActiveTimerCount App st = size (timeouts App st).

(** The promises settle in the order [order]. *)
Definition settle_in (order : list nat) (st : State App) : State App :=
  fold_left (fun st i => settle App i st) order st.

(** One call of a function that the service exports, the platform firing a
    timer, or the promise of a deletion settling; with the exception, if
    any, that the step lets escape. *)
Inductive step : State App -> result unit -> State App -> Prop :=
| step_start message onExpire st :
    step st (fst (startMessageTimer App message onExpire st))
            (snd (startMessageTimer App message onExpire st))
| step_cancel id st :
    step st (Ok tt) (cancelMessageTimer App id st)
| step_clear st :
    step st (Ok tt) (clearAllTimers App st)
| step_cleanup messages conversationId st :
    step st (Ok tt)
         (snd (cleanupExpiredMessages App deleteMessage messages
                 conversationId st))
| step_remaining message st :
    step st (Ok tt) (snd (getTimeRemaining App message st))
| step_initialize messages onMessageExpire st :
    step st (fst (initializeTimers App messages onMessageExpire st))
            (snd (initializeTimers App messages onMessageExpire st))
| step_fire timer st :
    step st (fst (fire App timer st)) (snd (fire App timer st))
| step_settle i st :
    step st (Ok tt) (settle App i st).

(** The states that the service reaches when it starts without timers,
    with the outcomes of the steps taken, latest first. *)
Inductive reachable : list (result unit) -> State App -> Prop :=
| reachable_start st :
    activeTimers App st = ∅ -> timeouts App st = ∅ -> reachable [] st
| reachable_step outcomes st outcome st' :
    reachable outcomes st -> step st outcome st' ->
    reachable (outcome :: outcomes) st'.

End TimerNotions.

(** A lowercase hexadecimal digit, as a code unit. *)
Definition hex_char (c : Z) : bool :=
  (48 <=? c) && (c <=? 57) || (97 <=? c) && (c <=? 102).

(** * Theorems *)

(** ** Bytes *)

Lemma u8_to_Z_range (b : byte) : 0 <= u8_to_Z b < 256.
Proof.
  unfold u8_to_Z. pose proof (Byte.to_N_bounded b). lia.
Qed.

Lemma u8_of_to_Z (b : byte) : u8_of_Z (u8_to_Z b) = b.
Proof.
  unfold u8_of_Z. pose proof (u8_to_Z_range b) as Hb.
  rewrite Z.mod_small by lia. unfold u8_to_Z.
  rewrite N2Z.id, Byte.of_to_N. reflexivity.
Qed.

Lemma u8_of_Z_mod (z : Z) : u8_of_Z (z mod 256) = u8_of_Z z.
Proof. unfold u8_of_Z. now rewrite Z.mod_mod by lia. Qed.

(** ** Bit operations on small numbers, as arithmetic *)

Lemma lor_shiftl_low (a b n : Z) :
  0 <= n -> 0 <= b < 2 ^ n -> Z.lor (Z.shiftl a n) b = a * 2 ^ n + b.
Proof.
  intros Hn Hb. rewrite Z.shiftl_mul_pow2 by lia.
  symmetry. apply Z.add_nocarry_lor.
  apply Z.bits_inj'. intros k Hk.
  rewrite Z.land_spec, Z.bits_0.
  destruct (Z.lt_ge_cases k n) as [Hlt|Hge].
  - rewrite Z.mul_pow2_bits_low by lia. reflexivity.
  - destruct (Z.eq_dec b 0) as [->|Hnz].
    + rewrite Z.bits_0. apply andb_false_r.
    + rewrite (Z.bits_above_log2 b k); [apply andb_false_r | lia |].
      apply Z.log2_lt_pow2; [lia|].
      apply Z.lt_le_trans with (2 ^ n); [lia|].
      apply Z.pow_le_mono_r; lia.
Qed.

Lemma land_low (a n : Z) : 0 <= n -> Z.land a (2 ^ n - 1) = a mod 2 ^ n.
Proof.
  intros Hn. rewrite <- Z.land_ones by lia. f_equal.
  rewrite Z.ones_equiv. lia.
Qed.

Ltac dlia := Z.div_mod_to_equations; lia.

Ltac bits_to_arith :=
  repeat match goal with
  | |- context [Z.land ?a 3] => change (Z.land a 3) with (Z.land a (2 ^ 2 - 1));
                                rewrite (land_low a 2) by lia
  | |- context [Z.land ?a 15] => change (Z.land a 15) with (Z.land a (2 ^ 4 - 1));
                                 rewrite (land_low a 4) by lia
  | |- context [Z.land ?a 63] => change (Z.land a 63) with (Z.land a (2 ^ 6 - 1));
                                 rewrite (land_low a 6) by lia
  | |- context [Z.shiftr ?a ?n] => rewrite (Z.shiftr_div_pow2 a n) by lia
  end.

Lemma sextet1_eq b1 : sextet1 b1 = b1 / 4.
Proof. unfold sextet1. now rewrite Z.shiftr_div_pow2 by lia. Qed.

Lemma sextet2_eq b1 b2 : 0 <= b2 < 256 -> sextet2 b1 b2 = (b1 mod 4) * 16 + b2 / 16.
Proof.
  intros H2. unfold sextet2. bits_to_arith. change (2 ^ 4) with 16. change (2 ^ 2) with 4.
  rewrite lor_shiftl_low; [reflexivity | lia |].
  change (2 ^ 4) with 16. dlia.
Qed.

Lemma sextet3_eq b2 b3 : 0 <= b3 < 256 -> sextet3 b2 b3 = (b2 mod 16) * 4 + b3 / 64.
Proof.
  intros H3. unfold sextet3. bits_to_arith. change (2 ^ 4) with 16. change (2 ^ 6) with 64.
  rewrite lor_shiftl_low; [reflexivity | lia |].
  change (2 ^ 2) with 4. dlia.
Qed.

Lemma sextet4_eq b3 : sextet4 b3 = b3 mod 64.
Proof. unfold sextet4. bits_to_arith. reflexivity. Qed.

Lemma sextet1_range b1 : 0 <= b1 < 256 -> 0 <= sextet1 b1 < 64.
Proof. intros. rewrite sextet1_eq. dlia. Qed.
Lemma sextet2_range b1 b2 : 0 <= b1 < 256 -> 0 <= b2 < 256 -> 0 <= sextet2 b1 b2 < 64.
Proof. intros. rewrite sextet2_eq by assumption. dlia. Qed.
Lemma sextet3_range b2 b3 : 0 <= b2 < 256 -> 0 <= b3 < 256 -> 0 <= sextet3 b2 b3 < 64.
Proof. intros. rewrite sextet3_eq by assumption. dlia. Qed.
Lemma sextet4_range b3 : 0 <= b3 < 256 -> 0 <= sextet4 b3 < 64.
Proof. intros. rewrite sextet4_eq. dlia. Qed.

Lemma d1_eq b1 b2 :
  0 <= b1 < 256 -> 0 <= b2 < 256 ->
  Z.lor (Z.shiftl (sextet1 b1) 2) (Z.shiftr (sextet2 b1 b2) 4) = b1.
Proof.
  intros H1 H2. rewrite Z.shiftr_div_pow2 by lia.
  pose proof (sextet2_range b1 b2 H1 H2).
  rewrite lor_shiftl_low; [ | lia | change (2^4) with 16; change (2^2) with 4; dlia].
  rewrite sextet1_eq, sextet2_eq by assumption.
  change (2^4) with 16; change (2^2) with 4. dlia.
Qed.

Lemma d2_eq b1 b2 b3 :
  0 <= b1 < 256 -> 0 <= b2 < 256 -> 0 <= b3 < 256 ->
  Z.lor (Z.shiftl (Z.land (sextet2 b1 b2) 15) 4) (Z.shiftr (sextet3 b2 b3) 2) = b2.
Proof.
  intros H1 H2 H3. bits_to_arith. pose proof (sextet3_range b2 b3 H2 H3).
  rewrite lor_shiftl_low; [ | lia | change (2^4) with 16; change (2^2) with 4; dlia].
  rewrite sextet2_eq, sextet3_eq by assumption.
  change (2^4) with 16; change (2^2) with 4. dlia.
Qed.

Lemma d3_eq b2 b3 :
  0 <= b2 < 256 -> 0 <= b3 < 256 ->
  Z.lor (Z.shiftl (Z.land (sextet3 b2 b3) 3) 6) (sextet4 b3) = b3.
Proof.
  intros H2 H3. bits_to_arith. pose proof (sextet4_range b3 H3).
  rewrite lor_shiftl_low; [ | lia | change (2^6) with 64; dlia].
  rewrite sextet3_eq, sextet4_eq by assumption.
  change (2^6) with 64; change (2^2) with 4. dlia.
Qed.

(** ** The alphabet *)

Lemma alphabet_checked :
  forallb alphabet_check (map Z.of_nat (seq 0 64)) = true.
Proof. vm_compute. reflexivity. Qed.

Lemma alphabet_char (i : Z) :
  0 <= i < 64 ->
  exists c, charAt Utils.chars i = [c] /\ indexOf Utils.chars [c] = i /\ c <> 61.
Proof.
  intros Hi. pose proof alphabet_checked as H.
  rewrite forallb_forall in H. specialize (H i).
  assert (Hin : In i (map Z.of_nat (seq 0 64))).
  { apply in_map_iff. exists (Z.to_nat i). split; [lia|].
    apply in_seq. lia. }
  specialize (H Hin). unfold alphabet_check in H.
  destruct (charAt Utils.chars i) as [|c [|? ?]]; try discriminate.
  apply andb_true_iff in H. destruct H as [Ha Hb].
  exists c. split; [reflexivity|]. split; [lia|].
  apply negb_true_iff in Hb. lia.
Qed.

Lemma charAt_b64char (i : Z) : 0 <= i < 64 -> charAt Utils.chars i = [b64char i].
Proof.
  intros Hi. destruct (alphabet_char i Hi) as (c & Hc & _).
  rewrite Hc. unfold charAt in Hc.
  destruct (i <? 0); [discriminate|].
  destruct (nth_error Utils.chars (Z.to_nat i)) eqn:E; [|discriminate].
  injection Hc as ->. unfold b64char.
  now rewrite (nth_error_nth _ _ _ E).
Qed.

Lemma indexOf_b64char (i : Z) : 0 <= i < 64 -> indexOf Utils.chars [b64char i] = i.
Proof.
  intros Hi. destruct (alphabet_char i Hi) as (c & Hc & Hidx & _).
  rewrite charAt_b64char in Hc by assumption. now injection Hc as ->.
Qed.

Lemma b64char_not_pad (i : Z) : 0 <= i < 64 -> b64char i <> 61.
Proof.
  intros Hi. destruct (alphabet_char i Hi) as (c & Hc & _ & Hne).
  rewrite charAt_b64char in Hc by assumption. now injection Hc as ->.
Qed.

Lemma indexOf_empty : indexOf Utils.chars [] = 0.
Proof. reflexivity. Qed.

(** ** The encoding without its padding *)

(** Induction on a buffer, three bytes at a time. *)
Lemma bytes_ind3 (P : bytes -> Prop) :
  P [] -> (forall a, P [a]) -> (forall a b, P [a; b]) ->
  (forall a b c tl, P tl -> P (a :: b :: c :: tl)) ->
  forall l, P l.
Proof.
  intros H0 H1 H2 H3.
  fix IH 1. intros [|a [|b [|c tl]]].
  - exact H0.
  - apply H1.
  - apply H2.
  - apply H3. apply IH.
Qed.

Lemma zero_range : 0 <= 0 < 256.
Proof. lia. Qed.

Create HintDb b64.
#[local] Hint Resolve u8_to_Z_range zero_range sextet1_range sextet2_range sextet3_range sextet4_range : b64.

Lemma encode_group_full (b1 b2 b3 : byte) :
  Utils.encode_group (u8_to_Z b1) (Some (u8_to_Z b2)) (Some (u8_to_Z b3)) =
  [b64char (sextet1 (u8_to_Z b1)); b64char (sextet2 (u8_to_Z b1) (u8_to_Z b2));
   b64char (sextet3 (u8_to_Z b2) (u8_to_Z b3)); b64char (sextet4 (u8_to_Z b3))].
Proof.
  unfold Utils.encode_group. cbn [Utils.isNaN Utils.toInt32].
  fold (sextet1 (u8_to_Z b1)). fold (sextet2 (u8_to_Z b1) (u8_to_Z b2)).
  fold (sextet3 (u8_to_Z b2) (u8_to_Z b3)). fold (sextet4 (u8_to_Z b3)).
  rewrite !charAt_b64char by auto with b64. reflexivity.
Qed.

Lemma encode_group_two (b1 b2 : byte) :
  Utils.encode_group (u8_to_Z b1) (Some (u8_to_Z b2)) None =
  [b64char (sextet1 (u8_to_Z b1)); b64char (sextet2 (u8_to_Z b1) (u8_to_Z b2));
   b64char (sextet3 (u8_to_Z b2) 0); 61].
Proof.
  unfold Utils.encode_group. cbn [Utils.isNaN Utils.toInt32].
  fold (sextet1 (u8_to_Z b1)). fold (sextet2 (u8_to_Z b1) (u8_to_Z b2)).
  fold (sextet3 (u8_to_Z b2) 0).
  rewrite !charAt_b64char by auto with b64. reflexivity.
Qed.

Lemma encode_group_one (b1 : byte) :
  Utils.encode_group (u8_to_Z b1) None None =
  [b64char (sextet1 (u8_to_Z b1)); b64char (sextet2 (u8_to_Z b1) 0); 61; 61].
Proof.
  unfold Utils.encode_group. cbn [Utils.isNaN Utils.toInt32].
  fold (sextet1 (u8_to_Z b1)). fold (sextet2 (u8_to_Z b1) 0).
  rewrite !charAt_b64char by auto with b64. reflexivity.
Qed.

Lemma arrayBufferToBase64_split (buffer : bytes) :
  Utils.arrayBufferToBase64 buffer =
  clean_encoding buffer ++ repeat 61 (padding buffer).
Proof.
  induction buffer as [|a|a b|a b c tl IH] using bytes_ind3.
  - reflexivity.
  - cbn [Utils.arrayBufferToBase64]. now rewrite encode_group_one.
  - cbn [Utils.arrayBufferToBase64]. now rewrite encode_group_two.
  - cbn [Utils.arrayBufferToBase64 clean_encoding].
    rewrite encode_group_full, IH.
    replace (padding (a :: b :: c :: tl)) with (padding tl).
    + now rewrite <- app_assoc.
    + unfold padding. cbn [List.length].
      replace (S (S (S (List.length tl)))) with (List.length tl + 1 * 3)%nat by lia.
      now rewrite Nat.Div0.mod_add.
Qed.

Lemma clean_encoding_no_pad (buffer : bytes) :
  Forall (fun c => c <> 61) (clean_encoding buffer).
Proof.
  induction buffer as [|a|a b|a b c tl IH] using bytes_ind3;
    cbn [clean_encoding app]; repeat constructor;
    try (apply b64char_not_pad; auto with b64); assumption.
Qed.

Lemma clean_encoding_length (buffer : bytes) :
  (Z.of_nat (List.length (clean_encoding buffer)) * 3) / 4
  = Z.of_nat (List.length buffer).
Proof.
  induction buffer as [|a|a b|a b c tl IH] using bytes_ind3;
    try reflexivity.
  cbn [clean_encoding app List.length].
  rewrite !Nat2Z.inj_succ. revert IH.
  generalize (Z.of_nat (List.length (clean_encoding tl))).
  generalize (Z.of_nat (List.length tl)). intros n m IH.
  dlia.
Qed.

Lemma drop_leading_eq_repeat (k : nat) (s : jsstring) :
  Utils.drop_leading_eq (repeat 61 k ++ s) = Utils.drop_leading_eq s.
Proof. induction k; [reflexivity | exact IHk]. Qed.

Lemma drop_leading_eq_id (s : jsstring) :
  match s with c :: _ => c <> 61 | [] => True end ->
  Utils.drop_leading_eq s = s.
Proof.
  destruct s as [|c s]; [reflexivity|]. intros Hc. cbn.
  destruct (Z.eqb_spec c 61); [contradiction | reflexivity].
Qed.

Lemma rev_repeat {A} (x : A) (k : nat) : rev (repeat x k) = repeat x k.
Proof.
  induction k; [reflexivity|]. cbn [repeat rev]. rewrite IHk.
  clear IHk. induction k; [reflexivity|]. cbn. now rewrite IHk.
Qed.

Lemma remove_padding_spec (s : jsstring) (k : nat) :
  Forall (fun c => c <> 61) s ->
  Utils.remove_padding (s ++ repeat 61 k) = s.
Proof.
  intros Hs. unfold Utils.remove_padding.
  rewrite rev_app_distr, rev_repeat, drop_leading_eq_repeat.
  rewrite drop_leading_eq_id; [apply rev_involutive|].
  destruct (rev s) as [|c r] eqn:E; [exact I|].
  rewrite List.Forall_forall in Hs. apply Hs.
  apply in_rev. rewrite E. now left.
Qed.

(** ** Decoding *)

Lemma write_middle (pre : bytes) (x : byte) (rest : bytes) (p : nat) (v : Z) :
  p = List.length pre ->
  Utils.write (pre ++ x :: rest, p) v = (pre ++ u8_of_Z v :: rest, S p).
Proof.
  intros ->. unfold Utils.write. cbn [fst snd]. f_equal.
  rewrite insert_app_r_alt by lia.
  now rewrite Nat.sub_diag.
Qed.

Lemma write_past_end (l : bytes) (p : nat) (v : Z) :
  (List.length l <= p)%nat -> Utils.write (l, p) v = (l, S p).
Proof.
  intros Hp. unfold Utils.write. cbn [fst snd]. f_equal.
  now apply list_insert_ge.
Qed.

Lemma u8_store (b : byte) (v : Z) : v = u8_to_Z b -> u8_of_Z v = b.
Proof. intros ->. apply u8_of_to_Z. Qed.

Ltac enc_index :=
  rewrite ?indexOf_b64char, ?indexOf_empty by auto with b64.

Lemma index_not_minus1 (i : Z) : 0 <= i < 64 -> (i =? -1) = false.
Proof. intros. apply Z.eqb_neq. lia. Qed.

Lemma decode_group_full (b1 b2 b3 x1 x2 x3 : byte) (pre rest : bytes) :
  Utils.decode_group
    [b64char (sextet1 (u8_to_Z b1))] [b64char (sextet2 (u8_to_Z b1) (u8_to_Z b2))]
    [b64char (sextet3 (u8_to_Z b2) (u8_to_Z b3))] [b64char (sextet4 (u8_to_Z b3))]
    (pre ++ x1 :: x2 :: x3 :: rest, List.length pre)
  = ((pre ++ [b1; b2; b3]) ++ rest, List.length (pre ++ [b1; b2; b3])).
Proof.
  unfold Utils.decode_group. enc_index.
  rewrite !index_not_minus1 by auto with b64.
  rewrite d1_eq, d2_eq, d3_eq by auto with b64.
  rewrite write_middle by reflexivity.
  change (pre ++ u8_of_Z (u8_to_Z b1) :: x2 :: x3 :: rest)
    with (pre ++ [u8_of_Z (u8_to_Z b1)] ++ x2 :: x3 :: rest).
  rewrite app_assoc, write_middle by (rewrite length_app; cbn; lia).
  change ((pre ++ [u8_of_Z (u8_to_Z b1)]) ++ u8_of_Z (u8_to_Z b2) :: x3 :: rest)
    with ((pre ++ [u8_of_Z (u8_to_Z b1)]) ++ [u8_of_Z (u8_to_Z b2)] ++ x3 :: rest).
  rewrite app_assoc, write_middle by (rewrite !length_app; cbn; lia).
  rewrite !u8_of_to_Z, !length_app. cbn [List.length].
  f_equal; [|lia]. now rewrite <- !app_assoc.
Qed.

Lemma decode_group_two (b1 b2 x1 x2 : byte) (pre : bytes) :
  fst (Utils.decode_group
    [b64char (sextet1 (u8_to_Z b1))] [b64char (sextet2 (u8_to_Z b1) (u8_to_Z b2))]
    [b64char (sextet3 (u8_to_Z b2) 0)] []
    (pre ++ [x1; x2], List.length pre))
  = pre ++ [b1; b2].
Proof.
  unfold Utils.decode_group. enc_index.
  rewrite (index_not_minus1 (sextet3 _ _)) by auto with b64.
  change (0 =? -1) with false. cbv iota.
  rewrite d1_eq, d2_eq by auto with b64.
  rewrite write_middle by reflexivity.
  change (pre ++ u8_of_Z (u8_to_Z b1) :: [x2])
    with (pre ++ [u8_of_Z (u8_to_Z b1)] ++ x2 :: []).
  rewrite app_assoc, write_middle by (rewrite length_app; cbn; lia).
  rewrite write_past_end by (rewrite !length_app; cbn; lia).
  cbn [fst]. rewrite !u8_of_to_Z. now rewrite <- app_assoc.
Qed.

Lemma decode_group_one (b1 x1 : byte) (pre : bytes) :
  fst (Utils.decode_group
    [b64char (sextet1 (u8_to_Z b1))] [b64char (sextet2 (u8_to_Z b1) 0)] [] []
    (pre ++ [x1], List.length pre))
  = pre ++ [b1].
Proof.
  unfold Utils.decode_group. enc_index.
  change (0 =? -1) with false. cbv iota.
  rewrite d1_eq by auto with b64.
  rewrite write_middle by reflexivity.
  rewrite !write_past_end by (rewrite !length_app; cbn; lia).
  cbn [fst]. now rewrite u8_of_to_Z.
Qed.

Lemma decode_loop_clean (buffer pre : bytes) :
  fst (Utils.decode_loop (clean_encoding buffer)
         (pre ++ repeat x00 (List.length buffer), List.length pre))
  = pre ++ buffer.
Proof.
  revert pre.
  induction buffer as [|a|a b|a b c tl IH] using bytes_ind3; intros pre.
  - reflexivity.
  - cbn [clean_encoding Utils.decode_loop List.length repeat].
    apply decode_group_one.
  - cbn [clean_encoding Utils.decode_loop List.length repeat].
    apply decode_group_two.
  - cbn [clean_encoding Utils.decode_loop List.length repeat app].
    rewrite decode_group_full, IH. now rewrite <- app_assoc.
Qed.

(** Decoding a buffer's base64 text gives the buffer back, whatever its
    length. *)
Lemma base64_round_trip (buffer : bytes) :
  Utils.base64ToArrayBuffer (Utils.arrayBufferToBase64 buffer) = buffer.
Proof.
  unfold Utils.base64ToArrayBuffer.
  rewrite arrayBufferToBase64_split.
  rewrite remove_padding_spec by apply clean_encoding_no_pad.
  rewrite clean_encoding_length, Nat2Z.id.
  apply (decode_loop_clean buffer []).
Qed.


Example b64_1 : Utils.arrayBufferToBase64 [x4d; x61; x6e] = js "TWFu".
Proof. reflexivity. Qed.
Example b64_2 : Utils.arrayBufferToBase64 [x4d; x61] = js "TWE=".
Proof. reflexivity. Qed.
Example b64_3 : Utils.arrayBufferToBase64 [x4d] = js "TQ==".
Proof. reflexivity. Qed.
Example b64_4 : Utils.base64ToArrayBuffer (js "TWE=") = [x4d; x61].
Proof. reflexivity. Qed.
Example b64_5 : Utils.base64ToArrayBuffer (js "TQ==") = [x4d].
Proof. reflexivity. Qed.
Example b64_6 : Utils.base64ToArrayBuffer (js "TWFuTQ") = [x4d; x61; x6e; x4d].
Proof. reflexivity. Qed.

(** ** The text codec *)

Section TextCodecProofs.
Import TextCodec.

Lemma u8_to_of_Z (z : Z) : 0 <= z < 256 -> u8_to_Z (u8_of_Z z) = z.
Proof.
  intros Hz. unfold u8_to_Z, u8_of_Z. rewrite Z.mod_small by lia.
  destruct (Byte.of_N (Z.to_N z)) as [b|] eqn:E.
  - apply Byte.to_of_N in E. lia.
  - apply Byte.of_N_None_iff in E. lia.
Qed.

Ltac cmp_true := 
  repeat match goal with
  | |- context [Z.leb ?a ?b] => rewrite (proj2 (Z.leb_le a b)) by dlia
  | |- context [Z.ltb ?a ?b] => rewrite (proj2 (Z.ltb_lt a b)) by dlia
  | |- context [Z.eqb ?a ?b] => rewrite (proj2 (Z.eqb_eq a b)) by dlia
  end.
Ltac cmp_false := 
  repeat match goal with
  | |- context [Z.leb ?a ?b] => rewrite (proj2 (Z.leb_gt a b)) by dlia
  | |- context [Z.ltb ?a ?b] => rewrite (proj2 (Z.ltb_ge a b)) by dlia
  | |- context [Z.eqb ?a ?b] => rewrite (proj2 (Z.eqb_neq a b)) by dlia
  end.

Lemma between_true lo x hi : lo <= x <= hi -> between lo x hi = true.
Proof. intros. unfold between. apply andb_true_iff. lia. Qed.

Lemma between_false lo x hi : x < lo \/ hi < x -> between lo x hi = false.
Proof. intros. unfold between. apply andb_false_iff. lia. Qed.

Lemma handler_ascii (b : Z) :
  0 <= b <= 0x7F -> handler decoder0 b = (decoder0, [b]).
Proof.
  intros Hb. unfold handler, lead_byte. cbn [bytes_needed decoder0].
  change (0 =? 0) with true. cbv iota.
  now rewrite between_true by lia.
Qed.

Lemma handler_lead2 (b : Z) :
  0xC2 <= b <= 0xDF ->
  handler decoder0 b =
  ({| code_point := b mod 0x20; bytes_seen := 0; bytes_needed := 1;
      lower_boundary := 0x80; upper_boundary := 0xBF |}, []).
Proof.
  intros Hb. unfold handler, lead_byte. cbn [bytes_needed decoder0].
  change (0 =? 0) with true. cbv iota.
  rewrite between_false by lia. now rewrite between_true by lia.
Qed.

Lemma handler_lead3 (b : Z) :
  0xE0 <= b <= 0xEF ->
  handler decoder0 b =
  ({| code_point := b mod 0x10; bytes_seen := 0; bytes_needed := 2;
      lower_boundary := if b =? 0xE0 then 0xA0 else 0x80;
      upper_boundary := if b =? 0xED then 0x9F else 0xBF |}, []).
Proof.
  intros Hb. unfold handler, lead_byte. cbn [bytes_needed decoder0].
  change (0 =? 0) with true. cbv iota.
  rewrite !between_false by lia. now rewrite between_true by lia.
Qed.

Lemma handler_lead4 (b : Z) :
  0xF0 <= b <= 0xF4 ->
  handler decoder0 b =
  ({| code_point := b mod 0x08; bytes_seen := 0; bytes_needed := 3;
      lower_boundary := if b =? 0xF0 then 0x90 else 0x80;
      upper_boundary := if b =? 0xF4 then 0x8F else 0xBF |}, []).
Proof.
  intros Hb. unfold handler, lead_byte. cbn [bytes_needed decoder0].
  change (0 =? 0) with true. cbv iota.
  rewrite !(between_false _ b) by lia. now rewrite between_true by lia.
Qed.

Lemma handler_last (cp seen needed lo hi b : Z) :
  needed <> 0 -> lo <= b <= hi -> seen + 1 = needed ->
  handler {| code_point := cp; bytes_seen := seen; bytes_needed := needed;
             lower_boundary := lo; upper_boundary := hi |} b
  = (decoder0, [cp * 0x40 + b mod 0x40]).
Proof.
  intros Hn Hb Hs. unfold handler.
  cbn [bytes_needed lower_boundary upper_boundary bytes_seen code_point].
  rewrite (proj2 (Z.eqb_neq needed 0)) by assumption.
  rewrite between_true by assumption. cbn [negb].
  now rewrite (proj2 (Z.eqb_eq (seen + 1) needed)) by assumption.
Qed.

Lemma handler_more (cp seen needed lo hi b : Z) :
  needed <> 0 -> lo <= b <= hi -> seen + 1 <> needed ->
  handler {| code_point := cp; bytes_seen := seen; bytes_needed := needed;
             lower_boundary := lo; upper_boundary := hi |} b
  = ({| code_point := cp * 0x40 + b mod 0x40; bytes_seen := seen + 1;
        bytes_needed := needed;
        lower_boundary := 0x80; upper_boundary := 0xBF |}, []).
Proof.
  intros Hn Hb Hs. unfold handler.
  cbn [bytes_needed lower_boundary upper_boundary bytes_seen code_point].
  rewrite (proj2 (Z.eqb_neq needed 0)) by assumption.
  rewrite between_true by assumption. cbn [negb].
  now rewrite (proj2 (Z.eqb_neq (seen + 1) needed)) by assumption.
Qed.

Lemma boundary_cases (b k lo hi : Z) :
  (if b =? k then lo else hi) = lo /\ b = k \/
  (if b =? k then lo else hi) = hi /\ b <> k.
Proof. destruct (Z.eqb_spec b k); auto. Qed.

(** Decoding the UTF-8 bytes of a scalar value yields that value and
    leaves the decoder in its initial state. *)
Lemma utf8_decode_bytes (c : Z) (rest : bytes) :
  scalar c ->
  utf8_decode decoder0 (utf8_bytes c ++ rest) = c :: utf8_decode decoder0 rest.
Proof.
  intros Hc. unfold utf8_bytes.
  destruct (Z.ltb_spec c 0x80) as [H1|H1];
    [|destruct (Z.ltb_spec c 0x800) as [H2|H2];
      [|destruct (Z.ltb_spec c 0x10000) as [H3|H3]]].
  - cbn [app utf8_decode]. rewrite u8_to_of_Z by (unfold scalar in Hc; lia).
    rewrite handler_ascii by (unfold scalar in Hc; lia). reflexivity.
  - cbn [app utf8_decode]. rewrite !u8_to_of_Z by dlia.
    rewrite handler_lead2 by dlia.
    rewrite handler_last by dlia. cbn [app]. f_equal. dlia.
  - cbn [app utf8_decode]. rewrite !u8_to_of_Z by dlia.
    rewrite handler_lead3 by dlia.
    assert (Hlo : (if 0xE0 + c / 0x1000 =? 0xE0 then 0xA0 else 0x80)
                  <= 0x80 + (c / 0x40) mod 0x40).
    { destruct (boundary_cases (0xE0 + c / 0x1000) 0xE0 0xA0 0x80)
        as [[-> ?]|[-> ?]]; dlia. }
    assert (Hhi : 0x80 + (c / 0x40) mod 0x40
                  <= (if 0xE0 + c / 0x1000 =? 0xED then 0x9F else 0xBF)).
    { unfold scalar in Hc.
      destruct (boundary_cases (0xE0 + c / 0x1000) 0xED 0x9F 0xBF)
        as [[-> ?]|[-> ?]]; dlia. }
    rewrite handler_more by (try split; try assumption; lia).
    rewrite handler_last by dlia. cbn [app]. f_equal. dlia.
  - assert (c < 0x110000) by (unfold scalar in Hc; lia).
    cbn [app utf8_decode]. rewrite !u8_to_of_Z by dlia.
    rewrite handler_lead4 by dlia.
    assert (Hlo : (if 0xF0 + c / 0x40000 =? 0xF0 then 0x90 else 0x80)
                  <= 0x80 + (c / 0x1000) mod 0x40).
    { destruct (boundary_cases (0xF0 + c / 0x40000) 0xF0 0x90 0x80)
        as [[-> ?]|[-> ?]]; dlia. }
    assert (Hhi : 0x80 + (c / 0x1000) mod 0x40
                  <= (if 0xF0 + c / 0x40000 =? 0xF4 then 0x8F else 0xBF)).
    { destruct (boundary_cases (0xF0 + c / 0x40000) 0xF4 0x8F 0xBF)
        as [[-> ?]|[-> ?]]; dlia. }
    rewrite handler_more by (try split; try assumption; lia).
    rewrite handler_more by dlia.
    rewrite handler_last by dlia. cbn [app]. f_equal. dlia.
Qed.

Lemma utf8_decode_encode (cps : list Z) :
  Forall scalar cps ->
  utf8_decode decoder0 (flat_map utf8_bytes cps) = cps.
Proof.
  induction 1 as [|c cps Hc _ IH]; [reflexivity|].
  cbn [flat_map]. rewrite utf8_decode_bytes by assumption. now rewrite IH.
Qed.

(** Induction on a well-formed string: one code unit outside the surrogate
    range, or a surrogate pair, at a time. *)
Lemma well_formed_ind (P : jsstring -> Prop) :
  P [] ->
  (forall c rest,
     is_high_surrogate c = false -> is_low_surrogate c = false ->
     0 <= c <= 0xFFFF -> isWellFormed rest = true -> P rest -> P (c :: rest)) ->
  (forall c d rest,
     is_high_surrogate c = true -> is_low_surrogate d = true ->
     isWellFormed rest = true -> P rest -> P (c :: d :: rest)) ->
  forall s, isWellFormed s = true -> P s.
Proof.
  intros H0 H1 H2. fix IH 1. intros [|c rest] Hs.
  - exact H0.
  - cbn [isWellFormed] in Hs.
    destruct (is_high_surrogate c) eqn:Hh.
    + destruct rest as [|d rest']; [discriminate|].
      apply andb_true_iff in Hs. destruct Hs as [Hd Hr].
      apply H2; [assumption | assumption | assumption |].
      apply IH. exact Hr.
    + apply andb_true_iff in Hs. destruct Hs as [Hs Hr].
      apply andb_true_iff in Hs. destruct Hs as [Hs Hl].
      apply andb_true_iff in Hs. destruct Hs as [Hc1 Hc2].
      apply negb_true_iff in Hl.
      apply H1; [assumption | assumption | lia | assumption |].
      apply IH. exact Hr.
Qed.

Lemma high_range c : is_high_surrogate c = true -> 0xD800 <= c <= 0xDBFF.
Proof. unfold is_high_surrogate. intros H. apply andb_true_iff in H. lia. Qed.

Lemma low_range c : is_low_surrogate c = true -> 0xDC00 <= c <= 0xDFFF.
Proof. unfold is_low_surrogate. intros H. apply andb_true_iff in H. lia. Qed.

Lemma not_surrogate c :
  is_high_surrogate c = false -> is_low_surrogate c = false ->
  0 <= c <= 0xFFFF -> scalar c.
Proof.
  unfold is_high_surrogate, is_low_surrogate, scalar. intros Hh Hl Hc.
  apply andb_false_iff in Hh. apply andb_false_iff in Hl. lia.
Qed.

Lemma to_scalar_values_unit c rest :
  is_high_surrogate c = false -> is_low_surrogate c = false ->
  to_scalar_values (c :: rest) = c :: to_scalar_values rest.
Proof. intros Hh Hl. cbn [to_scalar_values]. now rewrite Hh, Hl. Qed.

Lemma to_scalar_values_pair c d rest :
  is_high_surrogate c = true -> is_low_surrogate d = true ->
  to_scalar_values (c :: d :: rest) =
  (0x10000 + (c - 0xD800) * 0x400 + (d - 0xDC00)) :: to_scalar_values rest.
Proof. intros Hh Hl. cbn [to_scalar_values]. now rewrite Hh, Hl. Qed.

Lemma to_scalar_values_scalar (s : jsstring) :
  isWellFormed s = true -> Forall scalar (to_scalar_values s).
Proof.
  revert s. apply (well_formed_ind (fun s => Forall scalar (to_scalar_values s)));
    [|intros c rest Hh Hl Hc _ IH|intros c d rest Hh Hl _ IH].
  - constructor.
  - rewrite to_scalar_values_unit by assumption.
    constructor; [now apply not_surrogate | exact IH].
  - rewrite to_scalar_values_pair by assumption.
    constructor; [|exact IH].
    apply high_range in Hh. apply low_range in Hl. unfold scalar. lia.
Qed.

Lemma utf16_of_scalar_values (s : jsstring) :
  isWellFormed s = true -> flat_map utf16_units (to_scalar_values s) = s.
Proof.
  revert s.
  apply (well_formed_ind (fun s => flat_map utf16_units (to_scalar_values s) = s));
    [|intros c rest Hh Hl Hc _ IH|intros c d rest Hh Hl _ IH].
  - reflexivity.
  - rewrite to_scalar_values_unit by assumption. cbn [flat_map].
    rewrite IH. unfold utf16_units.
    now rewrite (proj2 (Z.ltb_lt c 0x10000)) by lia.
  - rewrite to_scalar_values_pair by assumption. cbn [flat_map].
    rewrite IH. unfold utf16_units.
    apply high_range in Hh. apply low_range in Hl.
    rewrite (proj2 (Z.ltb_ge _ 0x10000)) by lia.
    cbn [app]. f_equal; [dlia|]. f_equal. dlia.
Qed.

Lemma strip_bom_no_bom (s : jsstring) :
  isWellFormed s = true -> head s <> Some 0xFEFF ->
  strip_bom (to_scalar_values s) = to_scalar_values s.
Proof.
  intros Hs Hb. destruct s as [|c rest]; [reflexivity|].
  cbn [isWellFormed] in Hs. cbn [to_scalar_values].
  destruct (is_high_surrogate c) eqn:Hh.
  - destruct rest as [|d rest']; [discriminate|].
    apply andb_true_iff in Hs. destruct Hs as [Hd _]. rewrite Hd.
    apply high_range in Hh. apply low_range in Hd.
    unfold strip_bom. now rewrite (proj2 (Z.eqb_neq _ 0xFEFF)) by lia.
  - apply andb_true_iff in Hs. destruct Hs as [Hs _].
    apply andb_true_iff in Hs. destruct Hs as [_ Hl].
    apply negb_true_iff in Hl. rewrite Hl.
    unfold strip_bom. rewrite (proj2 (Z.eqb_neq c 0xFEFF)); [reflexivity|].
    intros ->. now apply Hb.
Qed.

(** Decoding the UTF-8 encoding of a well-formed string that does not open
    with U+FEFF gives the string back. *)
Lemma text_round_trip (s : jsstring) :
  isWellFormed s = true -> head s <> Some 0xFEFF ->
  TextDecoder_decode (TextEncoder_encode s) = s.
Proof.
  intros Hs Hb. unfold TextDecoder_decode, TextEncoder_encode.
  rewrite utf8_decode_encode by now apply to_scalar_values_scalar.
  rewrite strip_bom_no_bom by assumption.
  now apply utf16_of_scalar_values.
Qed.

(** A leading U+FEFF does not survive, an unpaired surrogate comes back as
    U+FFFD. *)
Example text_bom_dropped :
  TextDecoder_decode (TextEncoder_encode (0xFEFF :: js "hi")) = js "hi".
Proof. vm_compute. reflexivity. Qed.

Example text_lone_surrogate_replaced :
  TextDecoder_decode (TextEncoder_encode [0xD83D]) = [0xFFFD].
Proof. vm_compute. reflexivity. Qed.

Example text_emoji :
  TextDecoder_decode (TextEncoder_encode [0xD83D; 0xDE00]) = [0xD83D; 0xDE00]
  /\ TextEncoder_encode [0xD83D; 0xDE00] = [xf0; x9f; x98; x80].
Proof. vm_compute. split; reflexivity. Qed.


End TextCodecProofs.

(** ** The reference platform satisfies what is assumed *)

Lemma reference_laws : PlatformLaws Reference.platform.
Proof.
  split.
  - intros n w. cbn. apply repeat_length.
  - intros w seed m Hm. cbn. unfold Reference.rsa_encrypt.
    rewrite (proj2 (Nat.leb_le _ _) Hm).
    eexists. split; [reflexivity|]. cbn.
    now rewrite bool_decide_eq_true_2.
  - reflexivity.
  - reflexivity.
  - intros k iv m. cbn. unfold Reference.aes_encrypt, Reference.aes_decrypt.
    rewrite bool_decide_eq_true_2 by reflexivity.
    rewrite bool_decide_eq_true_2.
    + cbn [andb]. f_equal. now rewrite drop_app_length.
    + now rewrite take_app_length.
  - intros k iv m. cbn. discriminate.
  - intros [|]; reflexivity.
  - intros [|]; reflexivity.
  - intros [|]; eexists; reflexivity.
Qed.

(** ** Direct messages *)

Section Crypto.
Context `{P : Platform}.
Context (L : PlatformLaws P).

Lemma generateKey_AES_eq (w : World) :
  Subtle.generateKey_AES w =
  (Ok {| aes_raw := fst (random_bytes 32 w); aes_extractable := true;
         aes_usages := [encrypt; decrypt] |},
   snd (random_bytes 32 w)).
Proof.
  unfold Subtle.generateKey_AES, bind, getRandomValues, ret.
  now destruct (random_bytes 32 w).
Qed.

Lemma getRandomValues_eq (n : nat) (w : World) :
  getRandomValues n w = (Ok (fst (random_bytes n w)), snd (random_bytes n w)).
Proof. unfold getRandomValues. now destruct (random_bytes n w). Qed.

Lemma generateKeyId_eq (w : World) :
  Utils.generateKeyId w =
  (Ok (Utils.hex (fst (random_bytes 8 w))), snd (random_bytes 8 w)).
Proof.
  unfold Utils.generateKeyId, bind, ret. now rewrite getRandomValues_eq.
Qed.

(** A generated identity: the JSON Web Keys of a pair drawn by the
    platform's RSA key generator. *)
Lemma generateUserKeyPair_keys (w0 w1 : World) (kp : KeyPair.t) :
  KeyGeneration.generateUserKeyPair w0 = (Ok kp, w1) ->
  KeyPair.publicKey kp = jwk_of_public (fst (fst (rsa_keygen w0))) /\
  KeyPair.privateKey kp = jwk_of_private (snd (fst (rsa_keygen w0))).
Proof.
  unfold KeyGeneration.generateUserKeyPair, Subtle.generateKey_RSA, bind, ret, now.
  destruct (rsa_keygen w0) as [[pub priv] w']. rewrite generateKeyId_eq.
  intros E. injection E as <- _. split; reflexivity.
Qed.

Lemma generateUserKeyPair_total (w0 : World) :
  exists kp w1, KeyGeneration.generateUserKeyPair w0 = (Ok kp, w1).
Proof.
  unfold KeyGeneration.generateUserKeyPair, Subtle.generateKey_RSA, bind, ret, now.
  destruct (rsa_keygen w0) as [[pub priv] w']. rewrite generateKeyId_eq.
  eexists. eexists. reflexivity.
Qed.

Lemma encrypt_RSA_OAEP_generated (w0 w : World) (m : bytes) :
  (List.length m <= 190)%nat ->
  exists c,
    Subtle.encrypt_RSA_OAEP (fst (fst (rsa_keygen w0))) m w
      = (Ok c, snd (random_bytes 32 w)) /\
    Subtle.decrypt_RSA_OAEP (snd (fst (rsa_keygen w0))) c = Ok m.
Proof.
  intros Hm. unfold Subtle.encrypt_RSA_OAEP, Subtle.decrypt_RSA_OAEP, bind, await.
  rewrite getRandomValues_eq.
  destruct (rsa_oaep_correct w0 (fst (random_bytes 32 w)) m Hm) as (c & Hc & Hd).
  exists c. now rewrite Hc, Hd.
Qed.

Lemma importKey_raw_AES_32 (raw : bytes) (extractable : bool)
    (usages : list KeyUsage) :
  List.length raw = 32%nat ->
  Subtle.importKey_raw_AES raw extractable usages =
  Ok {| aes_raw := raw; aes_extractable := extractable; aes_usages := usages |}.
Proof. intros E. unfold Subtle.importKey_raw_AES. now rewrite E. Qed.

Lemma AES_GCM_round_trip (iv : bytes) (k k' : AesKey) (m : bytes) :
  aes_raw k' = aes_raw k ->
  Subtle.has_usage encrypt k = true -> Subtle.has_usage decrypt k' = true ->
  exists c, Subtle.encrypt_AES_GCM iv k m = Ok c /\
            Subtle.decrypt_AES_GCM iv k' c = Ok m.
Proof.
  intros E He Hd. unfold Subtle.encrypt_AES_GCM, Subtle.decrypt_AES_GCM.
  rewrite He, Hd, E. eexists. split; [reflexivity|].
  now rewrite aes_gcm_correct.
Qed.

(** The hybrid scheme on a generated identity: what [encryptMessage] makes
    for the public key, [decryptMessage] opens with the private key, up to
    the text codec. *)
Lemma hybrid_round_trip (p : jsstring) (w0 w : World) :
  exists payload w',
    Encryption.encryptMessage p (jwk_of_public (fst (fst (rsa_keygen w0)))) w
      = (Ok payload, w') /\
    Encryption.decryptMessage payload (jwk_of_private (snd (fst (rsa_keygen w0))))
      = Ok (TextCodec.TextDecoder_decode (TextCodec.TextEncoder_encode p)).
Proof.
  unfold Encryption.encryptMessage, Encryption.generateSymmetricKey.
  unfold bind at 1. unfold await at 1. unfold Subtle.importKey_jwk_public.
  rewrite jwk_public_round_trip.
  unfold bind at 1. rewrite generateKey_AES_eq.
  set (w1 := snd (random_bytes 32 w)). set (raw := fst (random_bytes 32 w)).
  unfold bind at 1. rewrite getRandomValues_eq.
  set (w2 := snd (random_bytes 12 w1)). set (iv := fst (random_bytes 12 w1)).
  unfold bind at 1. unfold await at 1.
  destruct (AES_GCM_round_trip iv
              {| aes_raw := raw; aes_extractable := true;
                 aes_usages := [encrypt; decrypt] |}
              {| aes_raw := raw; aes_extractable := false;
                 aes_usages := [decrypt] |}
              (TextCodec.TextEncoder_encode p) eq_refl eq_refl eq_refl)
    as (c & Hc & Hd).
  rewrite Hc.
  unfold bind at 1. unfold await at 1. unfold Subtle.exportKey_raw at 1.
  cbn [aes_extractable aes_raw].
  assert (Hraw : List.length raw = 32%nat) by apply random_bytes_length.
  destruct (encrypt_RSA_OAEP_generated w0 w2 raw ltac:(lia)) as (ck & Hck & Hdk).
  unfold bind at 1. rewrite Hck. unfold ret.
  eexists. eexists. split; [reflexivity|].
  unfold Encryption.decryptMessage. cbn [EncryptedMessage.key EncryptedMessage.iv
    EncryptedMessage.data].
  unfold Subtle.importKey_jwk_private. rewrite jwk_private_round_trip.
  cbn [rbind]. rewrite !base64_round_trip. rewrite Hdk. cbn [rbind].
  rewrite importKey_raw_AES_32 by assumption. cbn [rbind].
  rewrite Hd. reflexivity.
Qed.

End Crypto.

Section DirectMessages.
Context `{P : Platform}.
Context (L : PlatformLaws P).

(** C1 (amended): for every generated identity key pair and every
    plaintext that is a well-formed string not opening with U+FEFF,
    [encryptMessage] for the public key resolves and [decryptMessage] of its
    payload with the private key returns the plaintext. *)
Theorem direct_round_trip (p : jsstring) (kp : KeyPair.t) (w : World) :
  generated kp ->
  TextCodec.isWellFormed p = true ->
  head p <> Some 0xFEFF ->
  exists payload w',
    Encryption.encryptMessage p (KeyPair.publicKey kp) w = (Ok payload, w') /\
    Encryption.decryptMessage payload (KeyPair.privateKey kp) = Ok p.
Proof.
  intros (w0 & w1 & Hkp) Hwf Hbom.
  destruct (generateUserKeyPair_keys w0 w1 kp Hkp) as [-> ->].
  destruct (hybrid_round_trip L p w0 w) as (payload & w' & He & Hd).
  exists payload, w'. split; [exact He|].
  now rewrite Hd, text_round_trip.
Qed.

End DirectMessages.

(** The identities that the reference platform generates first. *)
Lemma reference_alice :
  @KeyGeneration.generateUserKeyPair Reference.platform 0%nat =
  (Ok Reference.alice, 2%nat).
Proof. reflexivity. Qed.

Lemma reference_bob :
  @KeyGeneration.generateUserKeyPair Reference.platform 2%nat =
  (Ok Reference.bob, 4%nat).
Proof. reflexivity. Qed.

Lemma reference_carol :
  @KeyGeneration.generateUserKeyPair Reference.platform 4%nat =
  (Ok Reference.carol, 6%nat).
Proof. reflexivity. Qed.

Lemma direct_round_trip_witness :
  exists payload w',
    @Encryption.encryptMessage Reference.platform (js "hello")
      (KeyPair.publicKey Reference.alice) 2%nat = (Ok payload, w') /\
    @Encryption.decryptMessage Reference.platform payload
      (KeyPair.privateKey Reference.alice) = Ok (js "hello").
Proof.
  apply (@direct_round_trip Reference.platform reference_laws (js "hello")
           Reference.alice 2%nat).
  - exists 0%nat, 2%nat. exact reference_alice.
  - reflexivity.
  - discriminate.
Defined.

(** C1 as stated fails: the plaintext U+FEFF "hi" comes back as "hi", and
    the plaintext made of the unpaired surrogate U+D83D comes back as
    U+FFFD. *)
Lemma direct_round_trip_counterexample :
  @KeyGeneration.generateUserKeyPair Reference.platform 0%nat
    = (Ok Reference.alice, 2%nat) /\
  fst (@roundTripDirect Reference.platform (0xFEFF :: js "hi")
         Reference.alice 2%nat)
    = Ok (js "hi") /\
  js "hi" <> 0xFEFF :: js "hi" /\
  fst (@roundTripDirect Reference.platform [0xD83D]
         Reference.alice 2%nat)
    = Ok [0xFFFD] /\
  [0xFFFD] <> [0xD83D].
Proof.
  split; [exact reference_alice|].
  split; [vm_compute; reflexivity|]. split; [discriminate|].
  split; [vm_compute; reflexivity | discriminate].
Qed.


(** ** Versions and failures of decryption *)

(** C4 (amended): [decryptMessage] and [decryptGroupMessage] never read the
    [version] field; a payload with any other version is handled exactly as
    the same payload with its own version, without any version error. *)
Theorem decrypt_ignores_version `{P : Platform}
    (v : jsstring) (payload : EncryptedMessage.t) (privateKeyJwk : JsonWebKey)
    (groupPayload : GroupEncryptedMessage.t) (groupKey : AesKey) :
  Encryption.decryptMessage (with_version v payload) privateKeyJwk
    = Encryption.decryptMessage payload privateKeyJwk /\
  GroupKeys.decryptGroupMessage (group_with_version v groupPayload) groupKey
    = GroupKeys.decryptGroupMessage groupPayload groupKey.
Proof. split; reflexivity. Qed.

Lemma reference_hello :
  fst (@Encryption.encryptMessage Reference.platform (js "hello")
         (KeyPair.publicKey Reference.alice) 2%nat)
  = Ok Reference.hello_for_alice.
Proof. reflexivity. Qed.

(** C4 as stated fails: a direct payload whose version is "tt-e2" is
    decrypted, not rejected. *)
Lemma version_check_counterexample :
  EncryptedMessage.version (with_version (js "tt-e2") Reference.hello_for_alice)
    <> js "tt-e1" /\
  @Encryption.decryptMessage Reference.platform
    (with_version (js "tt-e2") Reference.hello_for_alice)
    (KeyPair.privateKey Reference.alice)
  = Ok (js "hello").
Proof. split; [discriminate | vm_compute; reflexivity]. Qed.

(** C5 (amended): [decryptMessage] maps no error.  A failure is the
    platform's rejection of the first step that fails: the exception of
    [importKey] itself when the private key is not imported (a
    [SyntaxError] for a public key, a [DataError] for a malformed one),
    [OperationError] when the RSA-OAEP unwrap fails and likewise when the
    AES-GCM decryption fails, so that these two are not told apart, and
    [DataError] when the unwrapped bytes are not 16, 24 or 32 long. *)
Theorem decryptMessage_failures `{P : Platform}
    (payload : EncryptedMessage.t) (privateKeyJwk : JsonWebKey) :
  let key := Utils.base64ToArrayBuffer (EncryptedMessage.key payload) in
  let iv := Utils.base64ToArrayBuffer (EncryptedMessage.iv payload) in
  let data := Utils.base64ToArrayBuffer (EncryptedMessage.data payload) in
  let outcome := Encryption.decryptMessage payload privateKeyJwk in
  (private_of_jwk privateKeyJwk = None ->
   outcome = Rejected (importKey_jwk_error decrypt privateKeyJwk)) /\
  (forall privateKey,
     private_of_jwk privateKeyJwk = Some privateKey ->
     (rsa_oaep_decrypt privateKey key = None ->
      outcome = Rejected (DOMException OperationError)) /\
     (forall raw,
        rsa_oaep_decrypt privateKey key = Some raw ->
        (aes_key_size raw = false ->
         outcome = Rejected (DOMException DataError)) /\
        (aes_key_size raw = true -> aes_gcm_decrypt raw iv data = None ->
         outcome = Rejected (DOMException OperationError)))) /\
  (forall e, outcome = Rejected e ->
     e = DOMException OperationError \/ e = DOMException DataError \/
     private_of_jwk privateKeyJwk = None /\
     e = importKey_jwk_error decrypt privateKeyJwk).
Proof.
  cbv zeta. unfold Encryption.decryptMessage, Subtle.importKey_jwk_private,
    Subtle.decrypt_RSA_OAEP, Subtle.importKey_raw_AES, Subtle.decrypt_AES_GCM,
    aes_key_size.
  destruct (private_of_jwk privateKeyJwk) as [privateKey|]; cbn [rbind].
  2:{ split; [reflexivity|]. split; [discriminate|].
      intros e E. injection E as <-. right. right. now split. }
  split; [discriminate|].
  destruct (rsa_oaep_decrypt privateKey _) as [raw|] eqn:Eraw; cbn [rbind].
  2:{ split.
      - intros ? [= <-]. rewrite Eraw. split; [reflexivity | discriminate].
      - intros e E. injection E as <-. now left. }
  destruct (_ || _) eqn:Esize; cbn [rbind aes_raw].
  2:{ split.
      - intros ? [= <-]. rewrite Eraw. split; [discriminate|].
        intros ? [= <-]. rewrite Esize. split; [reflexivity | discriminate].
      - intros e E. injection E as <-. right. now left. }
  unfold Subtle.has_usage. cbn [aes_usages aes_raw].
  rewrite bool_decide_eq_true_2 by (apply list_elem_of_here).
  destruct (aes_gcm_decrypt raw _ _) as [m|] eqn:Edec; cbn [rbind].
  - split; [|discriminate].
    intros ? [= <-]. rewrite Eraw. split; [discriminate|].
    intros ? [= <-]. rewrite Esize. split; [discriminate|].
    intros _. rewrite Edec. discriminate.
  - split.
    + intros ? [= <-]. rewrite Eraw. split; [discriminate|].
      intros ? [= <-]. rewrite Esize. split; [discriminate | reflexivity].
    + intros e E. injection E as <-. now left.
Qed.

Lemma decryptMessage_failures_witness :
  @Encryption.decryptMessage Reference.platform Reference.tampered_for_alice
    (KeyPair.privateKey Reference.alice) = Rejected (DOMException OperationError) /\
  @Encryption.decryptMessage Reference.platform Reference.hello_for_alice
    (KeyPair.privateKey Reference.bob) = Rejected (DOMException OperationError) /\
  @Encryption.decryptMessage Reference.platform Reference.hello_for_alice
    (KeyPair.publicKey Reference.alice) = Rejected (DOMException SyntaxError).
Proof.
  split; [|split].
  - destruct (@decryptMessage_failures Reference.platform
                Reference.tampered_for_alice (KeyPair.privateKey Reference.alice))
      as (_ & H & _).
    destruct (H 0%nat eq_refl) as [_ H'].
    destruct (H' (repeat x02 32)) as [_ H'']; [vm_compute; reflexivity|].
    apply H''; vm_compute; reflexivity.
  - destruct (@decryptMessage_failures Reference.platform
                Reference.hello_for_alice (KeyPair.privateKey Reference.bob))
      as (_ & H & _).
    destruct (H 2%nat eq_refl) as [H' _].
    apply H'. vm_compute. reflexivity.
  - apply (proj1 (@decryptMessage_failures Reference.platform
                    Reference.hello_for_alice (KeyPair.publicKey Reference.alice))).
    reflexivity.
Defined.

(** C5 as stated fails: two failures of [decryptMessage] that a caller
    tells apart, neither of them a [DecryptionFailed]. *)
Lemma decryption_error_counterexample :
  @Encryption.decryptMessage Reference.platform Reference.tampered_for_alice
    (KeyPair.privateKey Reference.alice) = Rejected (DOMException OperationError) /\
  @Encryption.decryptMessage Reference.platform Reference.short_key_for_alice
    (KeyPair.privateKey Reference.alice) = Rejected (DOMException DataError) /\
  DOMException OperationError <> DOMException DataError.
Proof.
  split; [vm_compute; reflexivity|].
  split; [vm_compute; reflexivity | discriminate].
Qed.


(** ** Group keys *)

Section GroupProofs.
Context `{P : Platform}.
Context (L : PlatformLaws P).

Lemma encrypt_for_members_spec (entries : list (jsstring * ParticipantKey.t))
    (raw : bytes) (acc : gmap jsstring jsstring) (w : World) :
  (List.length raw <= 190)%nat ->
  Forall entry_generated entries ->
  exists acc' w',
    GroupKeys.encrypt_for_members entries raw acc w = (Ok acc', w') /\
    (forall m, is_Some (acc' !! m) <-> is_Some (acc !! m) \/ m ∈ entries.*1) /\
    forall m ek, acc' !! m = Some ek ->
      acc !! m = Some ek \/ exists pk, (m, pk) ∈ entries /\ wraps raw pk ek.
Proof.
  intros Hraw Hgen. revert acc w.
  induction Hgen as [|[m0 pk0] rest [w0 Hpk] _ IH]; intros acc w.
  - exists acc, w. split; [reflexivity|]. split; [|auto].
    intros m. split; [auto|]. intros [?|Hin]; [assumption|].
    cbn in Hin. now apply elem_of_nil in Hin.
  - cbn [GroupKeys.encrypt_for_members].
    unfold bind at 1. unfold await at 1.
    unfold KeyGeneration.importPublicKey, Subtle.importKey_jwk_public.
    cbn [snd] in Hpk. rewrite Hpk, jwk_public_round_trip.
    unfold bind at 1.
    unfold Subtle.encrypt_RSA_OAEP, bind, await. rewrite getRandomValues_eq.
    destruct (rsa_oaep_correct w0 (fst (random_bytes 32 w)) raw Hraw)
      as (c & Hc & _).
    rewrite Hc.
    destruct (IH (<[m0 := Utils.arrayBufferToBase64 c]> acc)
                 (snd (random_bytes 32 w))) as (acc' & w' & He & Hdom & Hlk).
    exists acc', w'. split; [exact He|]. split.
    + intros m. rewrite Hdom. cbn [fmap list_fmap fst]. rewrite elem_of_cons.
      destruct (decide (m = m0)) as [->|Hne].
      * rewrite lookup_insert_eq. split; [auto|]. intros _. left. eauto.
      * rewrite lookup_insert_ne by congruence. split.
        -- intros [?|?]; auto.
        -- intros [?|[?|?]]; auto. contradiction.
    + intros m ek Hm. destruct (Hlk m ek Hm) as [Hacc|(pk & Hin & Hw)].
      * destruct (decide (m = m0)) as [->|Hne].
        -- rewrite lookup_insert_eq in Hacc. injection Hacc as <-.
           right. exists pk0. split; [apply list_elem_of_here|].
           exists (fst (fst (rsa_keygen w0))), (fst (random_bytes 32 w)), c.
           rewrite Hpk, jwk_public_round_trip. auto.
        -- rewrite lookup_insert_ne in Hacc by congruence. now left.
      * right. exists pk. split; [now apply list_elem_of_further | exact Hw].
Qed.

(** A member opens its entry of the bundle with its private key. *)
Lemma decryptGroupKey_wraps (raw : bytes) (kp : KeyPair.t) (ek : jsstring) :
  generated kp ->
  List.length raw = 32%nat ->
  wraps raw (participant kp) ek ->
  GroupKeys.decryptGroupKey ek (KeyPair.privateKey kp) =
  Ok {| aes_raw := raw; aes_extractable := true;
        aes_usages := [encrypt; decrypt] |}.
Proof.
  intros (w0 & w1 & Hkp) Hraw (pub & seed & c & Hpub & Hc & ->).
  destruct (generateUserKeyPair_keys w0 w1 kp Hkp) as [Epub Epriv].
  cbn [participant ParticipantKey.publicKey] in Hpub.
  rewrite Epub, jwk_public_round_trip in Hpub. injection Hpub as <-.
  destruct (rsa_oaep_correct w0 seed raw ltac:(lia)) as (c' & Hc' & Hd).
  rewrite Hc in Hc'. injection Hc' as <-.
  unfold GroupKeys.decryptGroupKey, KeyGeneration.importPrivateKey,
    Subtle.importKey_jwk_private.
  rewrite Epriv, jwk_private_round_trip. cbn [rbind].
  rewrite base64_round_trip. unfold Subtle.decrypt_RSA_OAEP. rewrite Hd.
  cbn [rbind]. unfold KeyGeneration.importSymmetricKey.
  now apply importKey_raw_AES_32.
Qed.

Lemma createGroupKeyBundle_spec (members : gmap jsstring KeyPair.t)
    (creatorId : jsstring) (w : World) :
  (forall m kp, members !! m = Some kp -> generated kp) ->
  let groupKey := {| aes_raw := fst (random_bytes 32 w); aes_extractable := true;
                     aes_usages := [encrypt; decrypt] |} in
  exists bundle w',
    GroupKeys.createGroupKeyBundle (participant <$> members) creatorId w
      = (Ok (bundle, groupKey), w') /\
    GroupKeyBundle.createdBy bundle = creatorId /\
    dom (GroupKeyBundle.encryptedKeys bundle) = dom members /\
    forall m kp, members !! m = Some kp ->
      exists ek, GroupKeyBundle.encryptedKeys bundle !! m = Some ek /\
                 GroupKeys.decryptGroupKey ek (KeyPair.privateKey kp) = Ok groupKey.
Proof.
  intros Hgen groupKey.
  assert (Hraw : List.length (fst (random_bytes 32 w)) = 32%nat)
    by apply random_bytes_length.
  unfold GroupKeys.createGroupKeyBundle.
  unfold bind at 1. unfold KeyGeneration.generateGroupSymmetricKey.
  unfold bind at 1. rewrite generateKey_AES_eq.
  unfold bind at 1. rewrite generateKeyId_eq. unfold ret at 1.
  cbn [fst snd]. fold groupKey.
  unfold bind at 1. unfold await at 1.
  unfold KeyGeneration.exportSymmetricKey, Subtle.exportKey_raw.
  cbn [aes_extractable aes_raw groupKey].
  set (w1 := snd (random_bytes 8 (snd (random_bytes 32 w)))).
  destruct (encrypt_for_members_spec (map_to_list (participant <$> members))
              (fst (random_bytes 32 w)) ∅ w1 ltac:(lia))
    as (keys & w2 & He & Hdom & Hlk).
  { apply Forall_forall. intros [m pk] Hin.
    apply elem_of_map_to_list in Hin. rewrite lookup_fmap in Hin.
    destruct (members !! m) as [kp|] eqn:Em; [|discriminate].
    injection Hin as <-. destruct (Hgen m kp Em) as (w0 & w0' & Hkp).
    exists w0. cbn [snd participant ParticipantKey.publicKey].
    apply (generateUserKeyPair_keys w0 w0' kp Hkp). }
  unfold bind at 1. rewrite He. unfold bind, now, ret.
  eexists. eexists. split; [reflexivity|].
  cbn [GroupKeyBundle.createdBy GroupKeyBundle.encryptedKeys].
  split; [reflexivity|].
  assert (Hd : dom keys = dom members).
  { apply set_eq. intros m.
    rewrite <- (dom_fmap_L participant members).
    rewrite (dom_alt (participant <$> members)), elem_of_list_to_set.
    rewrite elem_of_dom, Hdom, lookup_empty.
    split; [intros [H0|?]; [now destruct H0 | assumption] | auto]. }
  split; [exact Hd|].
  intros m kp Em.
  assert (Hin : m ∈ dom keys) by (rewrite Hd; apply elem_of_dom; eauto).
  apply elem_of_dom in Hin. destruct Hin as [ek Hek].
  exists ek. split; [exact Hek|].
  destruct (Hlk m ek Hek) as [Hempty|(pk & Hin & Hw)].
  { rewrite lookup_empty in Hempty. discriminate. }
  apply elem_of_map_to_list in Hin. rewrite lookup_fmap, Em in Hin.
  injection Hin as <-.
  apply decryptGroupKey_wraps; [now apply (Hgen m) | exact Hraw | exact Hw].
Qed.

Lemma encryptGroupMessage_eq (p : jsstring) (groupKey : AesKey)
    (keyId : jsstring) (w : World) :
  Subtle.has_usage encrypt groupKey = true ->
  GroupKeys.encryptGroupMessage p groupKey keyId w =
  (Ok {| GroupEncryptedMessage.encrypted := true;
         GroupEncryptedMessage.version := js "tt-e1";
         GroupEncryptedMessage.data :=
           Utils.arrayBufferToBase64
             (aes_gcm_encrypt (aes_raw groupKey) (fst (random_bytes 12 w))
                (TextCodec.TextEncoder_encode p));
         GroupEncryptedMessage.iv :=
           Utils.arrayBufferToBase64 (fst (random_bytes 12 w));
         GroupEncryptedMessage.keyId := keyId |},
   snd (random_bytes 12 w)).
Proof.
  intros Hu. unfold GroupKeys.encryptGroupMessage.
  unfold bind at 1. rewrite getRandomValues_eq.
  unfold bind, await, ret, Subtle.encrypt_AES_GCM. now rewrite Hu.
Qed.

Lemma group_message_round_trip (p : jsstring) (groupKey : AesKey)
    (keyId : jsstring) (w : World) :
  Subtle.has_usage encrypt groupKey = true ->
  Subtle.has_usage decrypt groupKey = true ->
  TextCodec.isWellFormed p = true -> head p <> Some 0xFEFF ->
  exists msg w',
    GroupKeys.encryptGroupMessage p groupKey keyId w = (Ok msg, w') /\
    GroupEncryptedMessage.keyId msg = keyId /\
    GroupKeys.decryptGroupMessage msg groupKey = Ok p.
Proof.
  intros He Hd Hwf Hbom. rewrite encryptGroupMessage_eq by assumption.
  eexists. eexists. split; [reflexivity|]. split; [reflexivity|].
  unfold GroupKeys.decryptGroupMessage.
  cbn [GroupEncryptedMessage.iv GroupEncryptedMessage.data].
  rewrite !base64_round_trip. unfold Subtle.decrypt_AES_GCM.
  rewrite Hd, aes_gcm_correct. cbn [rbind].
  now rewrite text_round_trip.
Qed.

(** C2 (amended): the bundle that [createGroupKeyBundle] returns for the
    public keys of generated identities has an [encryptedKeys] entry for
    exactly the members; every member recovers the group key from its entry
    with [decryptGroupKey] and its private key; and a plaintext that is a
    well-formed string not opening with U+FEFF, encrypted with
    [encryptGroupMessage] under that key, is returned by
    [decryptGroupMessage]. *)
Theorem group_round_trip (members : gmap jsstring KeyPair.t)
    (creatorId : jsstring) (w : World) :
  (forall m kp, members !! m = Some kp -> generated kp) ->
  exists bundle groupKey w',
    GroupKeys.createGroupKeyBundle (participant <$> members) creatorId w
      = (Ok (bundle, groupKey), w') /\
    dom (GroupKeyBundle.encryptedKeys bundle) = dom members /\
    forall m kp, members !! m = Some kp ->
      exists ek,
        GroupKeyBundle.encryptedKeys bundle !! m = Some ek /\
        GroupKeys.decryptGroupKey ek (KeyPair.privateKey kp) = Ok groupKey /\
        forall p w2,
          TextCodec.isWellFormed p = true -> head p <> Some 0xFEFF ->
          exists msg w3,
            GroupKeys.encryptGroupMessage p groupKey
              (GroupKeyBundle.keyId bundle) w2 = (Ok msg, w3) /\
            GroupKeys.decryptGroupMessage msg groupKey = Ok p.
Proof.
  intros Hgen.
  destruct (createGroupKeyBundle_spec members creatorId w Hgen)
    as (bundle & w' & Hc & _ & Hdom & Hm).
  eexists bundle, _, w'. split; [exact Hc|]. split; [exact Hdom|].
  intros m kp Em. destruct (Hm m kp Em) as (ek & Hek & Hdk).
  exists ek. split; [exact Hek|]. split; [exact Hdk|].
  intros p w2 Hwf Hbom.
  destruct (group_message_round_trip p
              {| aes_raw := fst (random_bytes 32 w); aes_extractable := true;
                 aes_usages := [encrypt; decrypt] |}
              (GroupKeyBundle.keyId bundle) w2 eq_refl eq_refl Hwf Hbom)
    as (msg & w3 & He & _ & Hd).
  eauto.
Qed.

End GroupProofs.

Lemma reference_members_generated (m : jsstring) (kp : @KeyPair.t Reference.platform) :
  Reference.three_members !! m = Some kp -> @generated Reference.platform kp.
Proof.
  unfold Reference.three_members. intros H.
  apply lookup_insert_Some in H as [[_ <-]|[_ H]].
  { exists 0%nat, 2%nat. exact reference_alice. }
  apply lookup_insert_Some in H as [[_ <-]|[_ H]].
  { exists 2%nat, 4%nat. exact reference_bob. }
  apply lookup_singleton_Some in H as [_ <-].
  exists 4%nat, 6%nat. exact reference_carol.
Qed.

Lemma reference_two_members_generated (m : jsstring)
    (kp : @KeyPair.t Reference.platform) :
  Reference.two_members !! m = Some kp -> @generated Reference.platform kp.
Proof.
  unfold Reference.two_members. intros H.
  apply lookup_insert_Some in H as [[_ <-]|[_ H]].
  { exists 0%nat, 2%nat. exact reference_alice. }
  apply lookup_singleton_Some in H as [_ <-].
  exists 2%nat, 4%nat. exact reference_bob.
Qed.

Lemma group_round_trip_witness :
  exists bundle groupKey w',
    @GroupKeys.createGroupKeyBundle Reference.platform
      (@participant Reference.platform <$> Reference.three_members)
      (js "alice") 6%nat = (Ok (bundle, groupKey), w') /\
    dom (GroupKeyBundle.encryptedKeys bundle) = dom Reference.three_members /\
    forall m kp, Reference.three_members !! m = Some kp ->
      exists ek,
        GroupKeyBundle.encryptedKeys bundle !! m = Some ek /\
        @GroupKeys.decryptGroupKey Reference.platform ek (KeyPair.privateKey kp)
          = Ok groupKey /\
        forall p w2,
          TextCodec.isWellFormed p = true -> head p <> Some 0xFEFF ->
          exists msg w3,
            @GroupKeys.encryptGroupMessage Reference.platform p groupKey
              (GroupKeyBundle.keyId bundle) w2 = (Ok msg, w3) /\
            @GroupKeys.decryptGroupMessage Reference.platform msg groupKey = Ok p.
Proof.
  apply (@group_round_trip Reference.platform reference_laws
           Reference.three_members (js "alice") 6%nat).
  exact reference_members_generated.
Defined.

(** C2 as stated fails: under the key of a bundle made for three generated
    identities, the group plaintext U+FEFF "hi" comes back as "hi", and the
    unpaired surrogate U+D83D comes back as U+FFFD. *)
Lemma group_round_trip_counterexample :
  key_of (fst (@GroupKeys.createGroupKeyBundle Reference.platform
                 (@participant Reference.platform <$> Reference.three_members)
                 (js "alice") 6%nat))
    = Some (Reference.group_key 6) /\
  fst (@roundTripGroup Reference.platform (0xFEFF :: js "hi")
         (Reference.group_key 6) (js "0707070707070707")
         (Reference.group_key 6) 11%nat)
    = Ok (js "hi") /\
  js "hi" <> 0xFEFF :: js "hi" /\
  fst (@roundTripGroup Reference.platform [0xD83D]
         (Reference.group_key 6) (js "0707070707070707")
         (Reference.group_key 6) 11%nat)
    = Ok [0xFFFD] /\
  [0xFFFD] <> [0xD83D].
Proof.
  split; [reflexivity|]. split; [reflexivity|]. split; [discriminate|].
  split; [reflexivity | discriminate].
Qed.

(** ** Key backup *)

Lemma arrayBufferToBase64_nonempty (buffer : bytes) :
  buffer <> [] -> Encryption.empty (Utils.arrayBufferToBase64 buffer) = false.
Proof.
  destruct buffer as [|a [|b [|c tl]]]; [contradiction| | |]; intros _;
    cbn [Utils.arrayBufferToBase64].
  - now rewrite encode_group_one.
  - now rewrite encode_group_two.
  - now rewrite encode_group_full.
Qed.

Lemma short_password (password : jsstring) :
  Encryption.empty password || (Z.of_nat (List.length password) <? 8) = true
  <-> (List.length password < 8)%nat.
Proof.
  rewrite orb_true_iff, Z.ltb_lt. split; [|lia].
  intros [H|H]; [|lia]. destruct password; [cbn; lia | discriminate].
Qed.

Section Backup.
Context `{P : Platform}.
Context (L : PlatformLaws P).

Lemma JSON_text_round_trip (K : KeyMap) :
  TextCodec.TextDecoder_decode (TextCodec.TextEncoder_encode (JSON_stringify K))
  = JSON_stringify K.
Proof.
  apply text_round_trip; [apply JSON_stringify_well_formed|].
  destruct (JSON_stringify_brace K) as [rest ->]. discriminate.
Qed.

(** C6: with a password of at least 8 code units, [exportPrivateKeys]
    resolves with a bundle from which [importPrivateKeys], given the same
    password, returns the key map; with a shorter password it rejects with
    its validation error, ['Password must be at least 8 characters'],
    before drawing a salt, and makes no bundle. *)
Theorem backup_round_trip (K : KeyMap) (password : jsstring) (w : World) :
  ((8 <= List.length password)%nat ->
   exists bundle w',
     Encryption.exportPrivateKeys K password w = (Ok bundle, w') /\
     Encryption.importPrivateKeys bundle password = Ok K) /\
  ((List.length password < 8)%nat ->
   Encryption.exportPrivateKeys K password w =
   (Rejected (Error "Password must be at least 8 characters"), w)).
Proof.
  split; intros Hlen; unfold Encryption.exportPrivateKeys.
  2:{ rewrite (proj2 (short_password password) Hlen). reflexivity. }
  destruct (Encryption.empty password || _) eqn:Eshort.
  { apply short_password in Eshort. lia. }
  assert (Hpw : Encryption.empty password = false)
    by now apply orb_false_iff in Eshort.
  unfold bind at 1. rewrite getRandomValues_eq.
  set (salt := fst (random_bytes 32 w)). set (w1 := snd (random_bytes 32 w)).
  unfold bind at 1. rewrite getRandomValues_eq.
  set (iv := fst (random_bytes 12 w1)). set (w2 := snd (random_bytes 12 w1)).
  unfold bind at 1. unfold await at 1.
  unfold Encryption.deriveKeyFromPassword, Subtle.deriveKey_PBKDF2.
  change (100000 <? 0) with false. change (4294967295 <? 100000) with false.
  change (100000 =? 0) with false. change (2147483647 <? 100000) with false. cbn [orb].
  unfold bind at 1. unfold await at 1.
  unfold Subtle.encrypt_AES_GCM at 1. unfold Subtle.has_usage at 1.
  cbn [aes_usages aes_raw].
  rewrite bool_decide_eq_true_2 by apply list_elem_of_here.
  unfold bind, now, ret.
  eexists. eexists. split; [reflexivity|].
  unfold Encryption.importPrivateKeys.
  cbn [EncryptedKeyBundle.ciphertext EncryptedKeyBundle.version
       EncryptedKeyBundle.salt EncryptedKeyBundle.iv
       EncryptedKeyBundle.iterations].
  rewrite arrayBufferToBase64_nonempty by apply aes_gcm_nonempty.
  rewrite Hpw. rewrite bool_decide_eq_true_2 by reflexivity. cbn [negb].
  change (100000 =? 0) with false. cbv iota.
  rewrite !base64_round_trip.
  unfold Encryption.deriveKeyFromPassword, Subtle.deriveKey_PBKDF2.
  change (100000 <? 0) with false. change (4294967295 <? 100000) with false.
  change (100000 =? 0) with false. change (2147483647 <? 100000) with false. cbn [orb rbind].
  unfold Subtle.decrypt_AES_GCM, Subtle.has_usage. cbn [aes_usages aes_raw].
  rewrite bool_decide_eq_true_2
    by (apply list_elem_of_further, list_elem_of_here).
  rewrite aes_gcm_correct. cbn [rbind].
  rewrite JSON_text_round_trip, JSON_round_trip. reflexivity.
Qed.

End Backup.

Lemma backup_round_trip_witness :
  (exists bundle w',
     @Encryption.exportPrivateKeys Reference.platform true
       (js "correct horse") 7%nat = (Ok bundle, w') /\
     @Encryption.importPrivateKeys Reference.platform bundle
       (js "correct horse") = Ok true) /\
  @Encryption.exportPrivateKeys Reference.platform true (js "horse") 7%nat =
  (Rejected (Error "Password must be at least 8 characters"), 7%nat).
Proof.
  destruct (@backup_round_trip Reference.platform reference_laws true
              (js "correct horse") 7%nat) as [Hlong _].
  destruct (@backup_round_trip Reference.platform reference_laws true
              (js "horse") 7%nat) as [_ Hshort].
  split; [apply Hlong | apply Hshort]; cbn; lia.
Defined.

Example backup_import_checks :
  @Encryption.importPrivateKeys Reference.platform
    {| EncryptedKeyBundle.version := js "2.0";
       EncryptedKeyBundle.algorithm := js "PBKDF2-AES-GCM-256";
       EncryptedKeyBundle.iterations := 100000;
       EncryptedKeyBundle.salt := js "AAAA";
       EncryptedKeyBundle.iv := js "AAAA";
       EncryptedKeyBundle.ciphertext := js "AAAA";
       EncryptedKeyBundle.exportedAt := [] |}
    (js "correct horse")
  = Rejected (Error "Unsupported key bundle version").
Proof. reflexivity. Qed.


(** ** The disappearing-message service *)

Section ServiceProofs.
Import DisappearingMessageService.
Context {App : Type}.
Context (deleteMessage : jsstring -> jsstring -> result unit).

Implicit Types (st : State App) (m : Message.t) (cb : Callback App).

Lemma falsy_Some (t : Z) : falsy (Some t) = false <-> t <> 0.
Proof. cbn. apply Z.eqb_neq. Qed.

(** A message whose id has a timer is left alone. *)
Lemma startMessageTimer_registered m cb st :
  is_Some (activeTimers App st !! Message.id m) ->
  startMessageTimer App m cb st = (Ok tt, st).
Proof.
  intros H. unfold startMessageTimer.
  rewrite (bool_decide_eq_true_2 _ H). now rewrite orb_true_r.
Qed.

Lemma startMessageTimer_permanent m cb st :
  falsy (Message.expiresAt m) = true ->
  startMessageTimer App m cb st = (Ok tt, st).
Proof. intros H. unfold startMessageTimer. now rewrite H. Qed.

(** A message not yet expired and without a timer gets one. *)
Lemma startMessageTimer_future m cb st (t : Z) :
  Message.expiresAt m = Some t -> t <> 0 ->
  activeTimers App st !! Message.id m = None ->
  clock App st (ticks App st) < t ->
  let timer := fresh (dom (timeouts App st)) in
  startMessageTimer App m cb st =
  (Ok tt,
   {| activeTimers := <[Message.id m := timer]> (activeTimers App st);
      timeouts := <[timer := {| onExpire := cb; messageId := Message.id m;
                                delay := t - clock App st (ticks App st) |}]>
                    (timeouts App st);
      clock := clock App st; ticks := S (ticks App st); app := app App st;
      deletions := deletions App st; pending := pending App st;
      console := console App st |}).
Proof.
  intros Ht Hnz Hnone Hfut timer. unfold startMessageTimer.
  rewrite Ht, (proj2 (falsy_Some t) Hnz), Hnone.
  rewrite bool_decide_eq_false_2 by (intros [? ?]; discriminate).
  cbn [orb Date_now number].
  rewrite (proj2 (Z.leb_gt _ _)) by lia.
  reflexivity.
Qed.

(** A message already expired and without a timer: the callback runs at
    once and nothing is registered; what the callback throws, the call
    throws. *)
Lemma startMessageTimer_expired m cb st (t : Z) :
  Message.expiresAt m = Some t -> t <> 0 ->
  activeTimers App st !! Message.id m = None ->
  t <= clock App st (ticks App st) ->
  startMessageTimer App m cb st =
  (fst (cb (app App st)),
   {| activeTimers := activeTimers App st; timeouts := timeouts App st;
      clock := clock App st; ticks := S (ticks App st);
      app := snd (cb (app App st));
      deletions := deletions App st; pending := pending App st;
      console := console App st |}).
Proof.
  intros Ht Hnz Hnone Hpast. unfold startMessageTimer.
  rewrite Ht, (proj2 (falsy_Some t) Hnz), Hnone.
  rewrite bool_decide_eq_false_2 by (intros [? ?]; discriminate).
  cbn [orb Date_now number].
  rewrite (proj2 (Z.leb_le _ _)) by lia.
  reflexivity.
Qed.

(** C7: for a message whose [expiresAt] is in the future, a second
    [startMessageTimer] for the same message changes nothing, both calls
    return, and after the two calls the id has one timer: the one it had,
    or else the only one that the two calls set, with the first callback.
    [cancelMessageTimer] for an id without a timer changes nothing.  The
    clock reads a time at or after the epoch. *)
Theorem timer_idempotence m (onExpire1 onExpire2 : Callback App) st (t : Z) :
  Message.expiresAt m = Some t ->
  0 <= clock App st (ticks App st) < t ->
  let st1 := snd (startMessageTimer App m onExpire1 st) in
  let st2 := snd (startMessageTimer App m onExpire2 st1) in
  st2 = st1 /\
  fst (startMessageTimer App m onExpire1 st) = Ok tt /\
  fst (startMessageTimer App m onExpire2 st1) = Ok tt /\
  (exists timer, activeTimers App st2 !! Message.id m = Some timer) /\
  (activeTimers App st !! Message.id m = None ->
   let timer := fresh (dom (timeouts App st)) in
   timeouts App st !! timer = None /\
   activeTimers App st2 = <[Message.id m := timer]> (activeTimers App st) /\
   timeouts App st2 =
     <[timer := {| onExpire := onExpire1; messageId := Message.id m;
                   delay := t - clock App st (ticks App st) |}]>
       (timeouts App st) /\
   getActiveTimerCount App st2 = S (getActiveTimerCount App st)) /\
  (forall st' id,
     activeTimers App st' !! id = None -> cancelMessageTimer App id st' = st').
Proof.
  intros Ht Hfut st1 st2.
  assert (Hreg : is_Some (activeTimers App st1 !! Message.id m) /\
                 fst (startMessageTimer App m onExpire1 st) = Ok tt).
  { subst st1. destruct (activeTimers App st !! Message.id m) as [h|] eqn:E.
    - rewrite startMessageTimer_registered by (rewrite E; eauto).
      cbn [fst snd]. rewrite E. eauto.
    - rewrite (startMessageTimer_future m onExpire1 st t) by (auto; lia).
      cbn [fst snd activeTimers]. rewrite lookup_insert_eq. eauto. }
  destruct Hreg as [Hreg Hret].
  assert (E21 : startMessageTimer App m onExpire2 st1 = (Ok tt, st1))
    by now apply startMessageTimer_registered.
  subst st2. rewrite E21. cbn [fst snd].
  split; [reflexivity|]. split; [exact Hret|]. split; [reflexivity|].
  split; [exact Hreg|]. split.
  - intros Hnone. cbv zeta. subst st1.
    rewrite (startMessageTimer_future m onExpire1 st t) by (auto; lia).
    cbn [snd activeTimers timeouts].
    split; [apply not_elem_of_dom, is_fresh|].
    split; [reflexivity|]. split; [reflexivity|].
    unfold getActiveTimerCount. cbn [activeTimers].
    now apply map_size_insert_None.
  - intros st' id Hnone. unfold cancelMessageTimer. now rewrite Hnone.
Qed.

(** C10 (amended): [startMessageTimer] for a message that has no timer and
    whose [expiresAt] is truthy and now or past runs [onExpire] and
    registers nothing: the call ends as the callback ends, returning or
    throwing, the timer map and the platform's timers are as before, the
    count of active timers is the same, the id has no timer; and a later
    call for the same message, still expired, runs its callback again. *)
Theorem immediate_expiry m (onExpire1 onExpire2 : Callback App) st (t : Z) :
  Message.expiresAt m = Some t -> t <> 0 ->
  activeTimers App st !! Message.id m = None ->
  t <= clock App st (ticks App st) ->
  let r1 := startMessageTimer App m onExpire1 st in
  let st1 := snd r1 in
  (fst r1, app App st1) = onExpire1 (app App st) /\
  activeTimers App st1 = activeTimers App st /\
  timeouts App st1 = timeouts App st /\
  getActiveTimerCount App st1 = getActiveTimerCount App st /\
  activeTimers App st1 !! Message.id m = None /\
  (t <= clock App st1 (ticks App st1) ->
   let r2 := startMessageTimer App m onExpire2 st1 in
   (fst r2, app App (snd r2)) = onExpire2 (app App st1) /\
   activeTimers App (snd r2) = activeTimers App st).
Proof.
  intros Ht Hnz Hnone Hpast r1 st1. subst st1 r1.
  rewrite (startMessageTimer_expired m onExpire1 st t) by assumption.
  cbn [fst snd app activeTimers timeouts clock ticks].
  unfold getActiveTimerCount. cbn [activeTimers].
  split; [now destruct (onExpire1 (app App st))|].
  do 4 (split; [first [reflexivity | assumption]|]).
  intros Hpast2.
  rewrite (startMessageTimer_expired m onExpire2 _ t) by assumption.
  cbn [fst snd app activeTimers].
  split; [|reflexivity].
  now destruct (onExpire2 (snd (onExpire1 (app App st)))).
Qed.

End ServiceProofs.

Section BatchProofs.
Import DisappearingMessageService.
Context {App : Type}.
Context (deleteMessage : jsstring -> jsstring -> result unit).

Implicit Types (st : State App) (m : Message.t) (cb : Callback App).

(** What [startMessageTimer] leaves alone, and what it keeps. *)
Lemma startMessageTimer_frame m cb st :
  let st' := snd (startMessageTimer App m cb st) in
  clock App st' = clock App st /\
  (ticks App st <= ticks App st')%nat /\
  (forall id, is_Some (activeTimers App st !! id) ->
              is_Some (activeTimers App st' !! id)).
Proof.
  cbv zeta. unfold startMessageTimer.
  destruct (_ || _); [cbn [snd]; auto|].
  cbn [Date_now]. destruct (_ <=? _); cbn [snd call clock ticks activeTimers].
  - split; [reflexivity|]. split; [lia | auto].
  - unfold setTimeout.
    cbn [snd set_timeouts set_activeTimers clock ticks activeTimers].
    split; [reflexivity|]. split; [lia|]. intros id H.
    destruct (decide (Message.id m = id)) as [->|Hne].
    + rewrite lookup_insert_eq. eauto.
    + now rewrite lookup_insert_ne.
Qed.

Lemma startMessageTimer_clock m cb st :
  clock App (snd (startMessageTimer App m cb st)) = clock App st.
Proof. apply startMessageTimer_frame. Qed.


Lemma initializeTimers_frame (messages : list Message.t)
    (f : jsstring -> Callback App) st :
  let st' := snd (initializeTimers App messages f st) in
  clock App st' = clock App st /\
  (ticks App st <= ticks App st')%nat /\
  (forall id, is_Some (activeTimers App st !! id) ->
              is_Some (activeTimers App st' !! id)).
Proof.
  revert st. induction messages as [|m rest IH]; intros st; cbv zeta.
  { cbn [initializeTimers snd]. auto. }
  cbn [initializeTimers]. destruct (falsy _); [apply IH|].
  cbn [Date_now].
  match goal with |- context [initializeTimers App rest f ?s] =>
    set (st_a := s) end.
  assert (Ha : clock App st_a = clock App st /\
               (ticks App st <= ticks App st_a)%nat /\
               activeTimers App st_a = activeTimers App st)
    by (subst st_a; cbn; auto).
  destruct Ha as (Hc & Ht & Hat).
  destruct (_ <? _).
  - destruct (startMessageTimer_frame m (f (Message.id m)) st_a)
      as (Hc1 & Ht1 & Hk1).
    destruct (startMessageTimer App m (f (Message.id m)) st_a)
      as [[u|e] st_b]; cbn [snd] in Hc1, Ht1, Hk1.
    + destruct (IH st_b) as (Hc2 & Ht2 & Hk2).
      split; [congruence|]. split; [lia|].
      intros id H. apply Hk2, Hk1. now rewrite Hat.
    + cbn [snd]. split; [congruence|]. split; [lia|].
      intros id H. apply Hk1. now rewrite Hat.
  - destruct (IH st_a) as (Hc2 & Ht2 & Hk2).
    split; [congruence|]. split; [lia|].
    intros id H. apply Hk2. now rewrite Hat.
Qed.

Lemma initializeTimers_clock (messages : list Message.t)
    (f : jsstring -> Callback App) st :
  clock App (snd (initializeTimers App messages f st)) = clock App st.
Proof. apply initializeTimers_frame. Qed.





(** A promise that settles leaves its line on the console, if it
    rejected, and changes nothing else. *)
Lemma settle_frame (i : nat) st :
  console App (settle App i st) ++ flat_map Batch.line (pending App (settle App i st))
    ≡ₚ console App st ++ flat_map Batch.line (pending App st) /\
  deletions App (settle App i st) = deletions App st /\
  activeTimers App (settle App i st) = activeTimers App st /\
  timeouts App (settle App i st) = timeouts App st /\
  app App (settle App i st) = app App st.
Proof.
  unfold settle. destruct (pending App st !! i) as [outcome|] eqn:E;
    [|auto 10].
  pose proof (delete_Permutation (pending App st) i outcome E) as Hperm.
  apply (Permutation_flat_map Batch.line) in Hperm. cbn [flat_map] in Hperm.
  split; [|destruct outcome; cbn; auto].
  rewrite Hperm.
  destruct outcome as [[]|err];
    cbn [catch_handler console_error console pending Batch.line List.app];
    [reflexivity|].
  apply (Permutation_middle (console App st)).
Qed.

Lemma settle_in_frame (order : list nat) st :
  console App (settle_in order st)
    ++ flat_map Batch.line (pending App (settle_in order st))
    ≡ₚ console App st ++ flat_map Batch.line (pending App st) /\
  deletions App (settle_in order st) = deletions App st /\
  activeTimers App (settle_in order st) = activeTimers App st /\
  timeouts App (settle_in order st) = timeouts App st /\
  app App (settle_in order st) = app App st.
Proof.
  unfold settle_in. revert st.
  induction order as [|i order IH]; intros st; [cbn; auto|].
  cbn [fold_left].
  destruct (IH (settle App i st)) as (H1 & H2 & H3 & H4 & H5).
  destruct (settle_frame i st) as (F1 & F2 & F3 & F4 & F5).
  rewrite H1, H2, H3, H4, H5. auto.
Qed.

Lemma cleanup_loop_spec (messages : list Message.t) (conversationId : jsstring)
    (t_now : Z) (validMessages : list Message.t) st :
  let r := cleanup_loop App deleteMessage messages conversationId t_now
             validMessages st in
  let dropped := List.filter (Batch.dropped t_now) messages in
  fst r = validMessages ++ List.filter (Batch.kept t_now) messages /\
  deletions App (snd r) =
    rev (map (fun m => (conversationId, Message.id m)) dropped)
    ++ deletions App st /\
  pending App (snd r) =
    pending App st
    ++ map (fun m => deleteMessage conversationId (Message.id m)) dropped /\
  console App (snd r) = console App st /\
  activeTimers App (snd r) = activeTimers App st /\
  timeouts App (snd r) = timeouts App st /\
  app App (snd r) = app App st /\
  clock App (snd r) = clock App st /\
  ticks App (snd r) = ticks App st.
Proof.
  revert validMessages st.
  induction messages as [|m rest IH]; intros validMessages st; cbv zeta.
  { cbn. rewrite !app_nil_r. auto 10. }
  cbn [cleanup_loop List.filter].
  assert (Hcode : negb (falsy (Message.expiresAt m))
                  && (number (Message.expiresAt m) <=? t_now)
                  = Batch.dropped t_now m).
  { unfold Batch.dropped. now destruct (Message.expiresAt m) as [t|]. }
  rewrite Hcode. unfold Batch.kept at 1.
  destruct (Batch.dropped t_now m) eqn:E; cbn [negb].
  - specialize (IH validMessages
                  (request_deletion App deleteMessage conversationId (Message.id m) st)).
    cbv zeta in IH.
    destruct IH as (H1 & H2 & H3 & H4 & H5 & H6 & H7 & H8 & H9).
    rewrite H1, H2, H3, H4, H5, H6, H7, H8, H9.
    cbn [map rev request_deletion deletions pending console activeTimers
         timeouts app clock ticks].
    rewrite <- !app_assoc. cbn [List.app]. auto 10.
  - specialize (IH (validMessages ++ [m]) st).
    cbv zeta in IH.
    destruct IH as (H1 & H2 & H3 & H4 & H5 & H6 & H7 & H8 & H9).
    rewrite H1, H2, H3, H4, H5, H6, H7, H8, H9.
    rewrite <- app_assoc. auto 10.
Qed.

(** C9 (amended): [cleanupExpiredMessages] returns exactly the messages
    that it keeps at the time it reads, in their order: those whose
    [expiresAt] is falsy ([null] or 0) or still in the future.  It calls
    [deleteMessage] once for each other message and attaches a handler to
    its promise; when the call returns, nothing has been written to the
    console.  The promises settle afterwards, in any order: once all have
    settled, the console holds one more line for each deletion that
    failed; the deletions asked for, the timers and the state of the
    caller are as the call left them, so that no failure of the sink
    reaches the caller. *)
Theorem cleanup_spec (messages : list Message.t) (conversationId : jsstring) st :
  let t_now := clock App st (ticks App st) in
  let r := cleanupExpiredMessages App deleteMessage messages conversationId st in
  let dropped := List.filter (Batch.dropped t_now) messages in
  fst r = List.filter (Batch.kept t_now) messages /\
  deletions App (snd r) =
    rev (map (fun m => (conversationId, Message.id m)) dropped)
    ++ deletions App st /\
  pending App (snd r) =
    pending App st
    ++ map (fun m => deleteMessage conversationId (Message.id m)) dropped /\
  console App (snd r) = console App st /\
  activeTimers App (snd r) = activeTimers App st /\
  timeouts App (snd r) = timeouts App st /\
  app App (snd r) = app App st /\
  (forall order,
     let st' := settle_in order (snd r) in
     deletions App st' = deletions App (snd r) /\
     activeTimers App st' = activeTimers App st /\
     timeouts App st' = timeouts App st /\
     app App st' = app App st /\
     (pending App st' = [] ->
      console App st' ≡ₚ
        flat_map (Batch.failure deleteMessage conversationId) dropped
        ++ flat_map Batch.line (pending App st) ++ console App st)).
Proof.
  intros t_now r dropped. subst r. unfold cleanupExpiredMessages.
  cbn [Date_now]. fold t_now.
  match goal with |- context [cleanup_loop App deleteMessage messages _ _ _ ?s] =>
    pose proof (cleanup_loop_spec messages conversationId t_now [] s) as H;
    set (r := cleanup_loop App deleteMessage messages conversationId t_now [] s)
      in *
  end.
  cbv zeta in H. fold dropped in H.
  destruct H as (H1 & H2 & H3 & H4 & H5 & H6 & H7 & _).
  cbn [deletions pending console activeTimers timeouts app] in H2, H3, H4, H5, H6, H7.
  do 7 (split; [assumption|]).
  intros order.
  destruct (settle_in_frame order (snd r)) as (S1 & S2 & S3 & S4 & S5).
  rewrite S2, S3, S4, S5, H5, H6, H7. do 4 (split; [reflexivity|]).
  intros Hdone. rewrite Hdone in S1. cbn [flat_map] in S1.
  rewrite app_nil_r in S1. rewrite S1, H3, H4, flat_map_app.
  assert (E : flat_map Batch.line
                (map (fun m => deleteMessage conversationId (Message.id m))
                     dropped)
              = flat_map (Batch.failure deleteMessage conversationId) dropped).
  { unfold Batch.failure. now rewrite !flat_map_concat_map, map_map. }
  rewrite E, (Permutation_app_comm (console App st)), <- app_assoc.
  apply Permutation_app_swap_app.
Qed.

End BatchProofs.

Section ServiceExamples.
Import DisappearingMessageService.

Lemma timer_idempotence_witness :
  let st1 := snd (startMessageTimer nat Batch.m1 (Batch.count (js "first"))
                    Batch.idle) in
  startMessageTimer nat Batch.m1 (Batch.count (js "second")) st1 = (Ok tt, st1) /\
  getActiveTimerCount nat st1 = 1%nat /\
  cancelMessageTimer nat (js "m9") Batch.idle = Batch.idle.
Proof.
  cbv zeta.
  destruct (timer_idempotence (App := nat) Batch.m1
              (Batch.count (js "first")) (Batch.count (js "second"))
              Batch.idle 1700000060000 eq_refl)
    as (Hsame & _ & Hret & _ & Hnew & Hcancel).
  { cbn. lia. }
  split; [|split].
  - rewrite (surjective_pairing (startMessageTimer nat Batch.m1 _ _)).
    now rewrite Hsame, Hret.
  - destruct (Hnew eq_refl) as (_ & _ & _ & Hcount).
    rewrite Hsame in Hcount. exact Hcount.
  - apply Hcancel. reflexivity.
Defined.

Lemma immediate_expiry_witness :
  let r1 := startMessageTimer nat Batch.m2 (Batch.count (js "first")) Batch.idle in
  let r2 := startMessageTimer nat Batch.m2 (Batch.throwing (js "second")) (snd r1) in
  (fst r1, app nat (snd r1)) = (Ok tt, 1%nat) /\
  getActiveTimerCount nat (snd r1) = 0%nat /\
  (fst r2, app nat (snd r2)) = (Rejected (Error "render failed"), 2%nat) /\
  activeTimers nat (snd r2) = ∅.
Proof.
  cbv zeta.
  destruct (immediate_expiry (App := nat) Batch.m2
              (Batch.count (js "first")) (Batch.throwing (js "second"))
              Batch.idle 1699999000000 eq_refl)
    as (Hrun & _ & _ & Hcount & _ & Hagain).
  { discriminate. }
  { reflexivity. }
  { cbn. lia. }
  split; [exact Hrun|]. split; [exact Hcount|].
  apply Hagain. rewrite startMessageTimer_clock. cbn. lia.
Defined.



Lemma cleanup_spec_witness :
  let r := cleanupExpiredMessages nat Batch.failing_sink
             [Batch.m1; Batch.m2; Batch.m3; Batch.m4] (js "c1") Batch.idle in
  fst r = [Batch.m1; Batch.m3] /\
  deletions nat (snd r) = [(js "c1", js "m4"); (js "c1", js "m2")] /\
  console nat (snd r) = [] /\
  console nat (settle_in [1; 0]%nat (snd r))
    ≡ₚ [("Failed to delete expired message:"%string, Error "unavailable")].
Proof.
  cbv zeta.
  destruct (cleanup_spec (App := nat) Batch.failing_sink
              [Batch.m1; Batch.m2; Batch.m3; Batch.m4] (js "c1") Batch.idle)
    as (Hvalid & Hdel & _ & Hcon & _ & _ & _ & Hsettled).
  split; [exact Hvalid|]. split; [exact Hdel|]. split; [exact Hcon|].
  destruct (Hsettled [1; 0]%nat) as (_ & _ & _ & _ & Hlog).
  apply Hlog. reflexivity.
Defined.

(** C9 as stated fails: a message whose [expiresAt] is the timestamp 0 is
    neither without an [expiresAt] nor still to expire, and
    [cleanupExpiredMessages] returns it and asks for no deletion. *)
Lemma cleanup_counterexample :
  Message.expiresAt m0 = Some 0 /\
  Batch.expired 1700000000000 m0 = true /\
  fst (cleanupExpiredMessages nat Batch.failing_sink [m0] (js "c1") Batch.idle)
    = [m0] /\
  deletions nat
    (snd (cleanupExpiredMessages nat Batch.failing_sink [m0] (js "c1") Batch.idle))
    = [].
Proof. repeat split; reflexivity. Qed.

(** C10 as stated fails: the timestamp 0 is past, and [startMessageTimer]
    returns without running the callback. *)
Lemma immediate_expiry_counterexample :
  Message.expiresAt m0 = Some 0 /\
  0 <= clock nat Batch.idle (ticks nat Batch.idle) /\
  activeTimers nat Batch.idle !! Message.id m0 = None /\
  startMessageTimer nat m0 (Batch.count (js "m0")) Batch.idle
    = (Ok tt, Batch.idle) /\
  app nat Batch.idle = 0%nat /\
  snd (Batch.count (js "m0") (app nat Batch.idle)) = 1%nat.
Proof. repeat split; [cbn; lia | reflexivity..]. Qed.

End ServiceExamples.

Section Firing.
Import DisappearingMessageService.
Context {App : Type}.

(** What [fire] does with a pending timer. *)
Lemma fire_pending (timer : positive) (t : Timer App) (st : State App) :
  timeouts App st !! timer = Some t ->
  fire App timer st =
  match fst (onExpire App t (app App st)) with
  | Ok _ =>
    (Ok tt,
     {| activeTimers := delete (messageId App t) (activeTimers App st);
        timeouts := delete timer (timeouts App st);
        clock := clock App st; ticks := ticks App st;
        app := snd (onExpire App t (app App st));
        deletions := deletions App st; pending := pending App st;
        console := console App st |})
  | Rejected e =>
    (Rejected e,
     {| activeTimers := activeTimers App st;
        timeouts := delete timer (timeouts App st);
        clock := clock App st; ticks := ticks App st;
        app := snd (onExpire App t (app App st));
        deletions := deletions App st; pending := pending App st;
        console := console App st |})
  end.
Proof.
  intros Ht. unfold fire. rewrite Ht.
  cbn [call set_timeouts app activeTimers timeouts].
  now destruct (fst (onExpire App t (app App st))).
Qed.

Lemma fire_cleared (timer : positive) (st : State App) :
  timeouts App st !! timer = None -> fire App timer st = (Ok tt, st).
Proof. intros H. unfold fire. now rewrite H. Qed.

(** When the platform fires the timer of a message, the callback runs; if
    it returns, the id has no timer any more. *)
Lemma fire_unregisters (m : Message.t) (cb : Callback App) (st : State App) (t : Z) :
  Message.expiresAt m = Some t -> t <> 0 ->
  activeTimers App st !! Message.id m = None ->
  clock App st (ticks App st) < t ->
  let st1 := snd (startMessageTimer App m cb st) in
  let r := fire App (fresh (dom (timeouts App st))) st1 in
  app App (snd r) = snd (cb (app App st)) /\
  timeouts App (snd r) = timeouts App st /\
  (fst (cb (app App st)) = Ok tt ->
   fst r = Ok tt /\ activeTimers App (snd r) = activeTimers App st).
Proof.
  intros Ht Hnz Hnone Hfut st1 r. subst r st1.
  rewrite (startMessageTimer_future m cb st t) by assumption. cbn [snd].
  erewrite fire_pending by (cbn [timeouts]; apply lookup_insert_eq).
  cbn [onExpire messageId app activeTimers timeouts].
  assert (Hto : delete (fresh (dom (timeouts App st)))
                  (<[fresh (dom (timeouts App st)) :=
                       {| onExpire := cb; messageId := Message.id m;
                          delay := t - clock App st (ticks App st) |}]>
                     (timeouts App st)) = timeouts App st).
  { rewrite delete_insert_eq. apply delete_id, not_elem_of_dom, is_fresh. }
  destruct (fst (cb (app App st))) as [[]|e]; cbn [fst snd app timeouts activeTimers].
  - split; [reflexivity|]. split; [exact Hto|]. intros _.
    split; [reflexivity|]. rewrite delete_insert_eq. now apply delete_id.
  - split; [reflexivity|]. split; [exact Hto|]. discriminate.
Qed.

End Firing.

(** ** More on the base64 helpers *)

Lemma b64char_in_chars (i : Z) : 0 <= i < 64 -> b64char i ∈ Utils.chars.
Proof.
  intros Hi. unfold b64char.
  apply list_elem_of_In, nth_In.
  change (List.length Utils.chars) with 64%nat. lia.
Qed.

Lemma clean_encoding_alphabet (buffer : bytes) :
  Forall (fun c => c ∈ Utils.chars) (clean_encoding buffer).
Proof.
  induction buffer as [|a|a b|a b c tl IH] using bytes_ind3;
    cbn [clean_encoding List.app];
    repeat (apply List.Forall_cons;
            [apply b64char_in_chars;
             first [ apply sextet1_range | apply sextet2_range
                   | apply sextet3_range | apply sextet4_range ];
             first [ apply u8_to_Z_range | apply zero_range ] |]);
    first [apply List.Forall_nil | assumption].
Qed.

Lemma padding_eq (buffer : bytes) :
  padding buffer = ((3 - List.length buffer mod 3) mod 3)%nat.
Proof.
  unfold padding.
  pose proof (Nat.mod_upper_bound (List.length buffer) 3 ltac:(lia)) as Hm.
  destruct (List.length buffer mod 3)%nat as [|[|[|k]]]; try reflexivity; lia.
Qed.

Lemma clean_encoding_padding_length (buffer : bytes) :
  (List.length (clean_encoding buffer) + padding buffer
   = 4 * ((List.length buffer + 2) / 3))%nat.
Proof.
  induction buffer as [|a|a b|a b c tl IH] using bytes_ind3;
    try reflexivity.
  cbn [clean_encoding List.app List.length].
  assert (Hp : padding (a :: b :: c :: tl) = padding tl).
  { unfold padding. cbn [List.length].
    replace (S (S (S (List.length tl)))) with (List.length tl + 1 * 3)%nat by lia.
    now rewrite Nat.Div0.mod_add. }
  rewrite Hp.
  replace (S (S (S (List.length tl))) + 2)%nat
    with ((List.length tl + 2) + 1 * 3)%nat by lia.
  rewrite Nat.div_add by lia. lia.
Qed.

(** X2 (core/crypto/utils.ts, [arrayBufferToBase64]): the encoding of [n]
    bytes has [4 * ceil(n / 3)] characters; it is a run of characters of the
    alphabet followed by [(3 - n mod 3) mod 3] padding characters [=]. *)
Theorem arrayBufferToBase64_shape (buffer : bytes) :
  let s := Utils.arrayBufferToBase64 buffer in
  let n := List.length buffer in
  List.length s = (4 * ((n + 2) / 3))%nat /\
  exists body,
    s = body ++ repeat 61 ((3 - n mod 3) mod 3)%nat /\
    Forall (fun c => c ∈ Utils.chars) body.
Proof.
  cbv zeta. rewrite arrayBufferToBase64_split. split.
  - rewrite length_app, repeat_length. apply clean_encoding_padding_length.
  - exists (clean_encoding buffer). split.
    + now rewrite padding_eq.
    + apply clean_encoding_alphabet.
Qed.

(** X1 (core/crypto/utils.ts, [arrayBufferToBase64] and
    [base64ToArrayBuffer]): decoding the encoding of a buffer gives the
    buffer back, for every buffer; so two buffers with the same encoding are
    equal. *)
Theorem base64_decode_encode (buffer buffer' : bytes) :
  Utils.base64ToArrayBuffer (Utils.arrayBufferToBase64 buffer) = buffer /\
  (Utils.arrayBufferToBase64 buffer = Utils.arrayBufferToBase64 buffer' ->
   buffer = buffer').
Proof.
  split; [apply base64_round_trip|].
  intros E. apply (f_equal Utils.base64ToArrayBuffer) in E.
  now rewrite !base64_round_trip in E.
Qed.

Lemma drop_leading_eq_idemp (s : jsstring) :
  Utils.drop_leading_eq (Utils.drop_leading_eq s) = Utils.drop_leading_eq s.
Proof.
  induction s as [|c s IH]; [reflexivity|]. cbn.
  destruct (Z.eqb_spec c 61) as [E|E]; [exact IH|].
  cbn. now destruct (Z.eqb_spec c 61).
Qed.

Lemma remove_padding_repeat (s : jsstring) (k : nat) :
  Utils.remove_padding (s ++ repeat 61 k) = Utils.remove_padding s.
Proof.
  unfold Utils.remove_padding.
  now rewrite rev_app_distr, rev_repeat, drop_leading_eq_repeat.
Qed.

Lemma remove_padding_idemp (s : jsstring) :
  Utils.remove_padding (Utils.remove_padding s) = Utils.remove_padding s.
Proof.
  unfold Utils.remove_padding.
  now rewrite rev_involutive, drop_leading_eq_idemp.
Qed.

(** X3 (core/crypto/utils.ts, [base64ToArrayBuffer]): padding is optional
    for the decoder.  Any number of [=] at the end of the input is ignored,
    and the encoding of a buffer without its padding decodes to the
    buffer. *)
Theorem base64ToArrayBuffer_padding_optional
    (s : jsstring) (k : nat) (buffer : bytes) :
  Utils.base64ToArrayBuffer (s ++ repeat 61 k) = Utils.base64ToArrayBuffer s /\
  Utils.base64ToArrayBuffer (Utils.remove_padding (Utils.arrayBufferToBase64 buffer))
    = buffer.
Proof.
  split.
  - unfold Utils.base64ToArrayBuffer. now rewrite remove_padding_repeat.
  - transitivity (Utils.base64ToArrayBuffer (Utils.arrayBufferToBase64 buffer));
      [|apply base64_round_trip].
    unfold Utils.base64ToArrayBuffer. now rewrite remove_padding_idemp.
Qed.

Lemma write_length (st : bytes * nat) (v : Z) :
  List.length (fst (Utils.write st v)) = List.length (fst st).
Proof. unfold Utils.write. cbn [fst]. apply length_insert. Qed.

Lemma decode_group_length (c1 c2 c3 c4 : jsstring) (st : bytes * nat) :
  List.length (fst (Utils.decode_group c1 c2 c3 c4 st)) = List.length (fst st).
Proof.
  unfold Utils.decode_group.
  repeat match goal with
         | |- context [if ?b then _ else _] => destruct b
         end;
    rewrite ?write_length; reflexivity.
Qed.

Lemma decode_loop_length (s : jsstring) :
  forall st, List.length (fst (Utils.decode_loop s st)) = List.length (fst st).
Proof.
  assert (H : forall n s, (List.length s <= n)%nat ->
            forall st, List.length (fst (Utils.decode_loop s st))
                       = List.length (fst st)).
  { clear s. induction n as [|n IH]; intros s Hn st.
    - destruct s; [reflexivity | cbn in Hn; lia].
    - destruct s as [|c1 [|c2 [|c3 [|c4 s']]]]; cbn [Utils.decode_loop];
        try reflexivity; try apply decode_group_length.
      rewrite IH by (cbn in Hn; lia). apply decode_group_length. }
  exact (H (List.length s) s (le_n _)).
Qed.

(** X4 (core/crypto/utils.ts, [base64ToArrayBuffer]): whatever the input,
    the decoder returns a buffer of [floor(3 * m / 4)] bytes, where [m] is
    the length of the input without the [=] at its end; characters outside
    the alphabet are not rejected. *)
Theorem base64ToArrayBuffer_length (base64 : jsstring) :
  Z.of_nat (List.length (Utils.base64ToArrayBuffer base64)) =
  Z.of_nat (List.length (Utils.remove_padding base64)) * 3 / 4.
Proof.
  unfold Utils.base64ToArrayBuffer.
  rewrite decode_loop_length. cbn [fst]. rewrite repeat_length.
  apply Z2Nat.id. apply Z.div_pos; lia.
Qed.

(** ** Identifiers *)

Lemma hex_digit_char (n : Z) : 0 <= n < 16 -> hex_char (Utils.hex_digit n) = true.
Proof.
  intros Hn. unfold Utils.hex_digit, hex_char.
  destruct (Z.ltb_spec n 10).
  - replace (48 <=? 48 + n) with true by (symmetry; apply Z.leb_le; lia).
    replace (48 + n <=? 57) with true by (symmetry; apply Z.leb_le; lia).
    reflexivity.
  - replace (97 <=? 97 + (n - 10)) with true by (symmetry; apply Z.leb_le; lia).
    replace (97 + (n - 10) <=? 102) with true by (symmetry; apply Z.leb_le; lia).
    apply orb_true_r.
Qed.

Lemma hex2_chars (b : byte) : Forall (fun c => hex_char c = true) (Utils.hex2 b).
Proof.
  pose proof (u8_to_Z_range b) as Hb. unfold Utils.hex2.
  repeat apply List.Forall_cons; try apply List.Forall_nil;
    apply hex_digit_char; dlia.
Qed.

Lemma hex_chars (bs : bytes) : Forall (fun c => hex_char c = true) (Utils.hex bs).
Proof.
  induction bs as [|b bs IH]; [apply List.Forall_nil|].
  unfold Utils.hex. cbn [map concat].
  apply Forall_app. split; [apply hex2_chars | exact IH].
Qed.

Lemma hex_length (bs : bytes) :
  List.length (Utils.hex bs) = (2 * List.length bs)%nat.
Proof.
  induction bs as [|b bs IH]; [reflexivity|].
  unfold Utils.hex in *. cbn [map concat List.length List.app Utils.hex2].
  rewrite IH. lia.
Qed.

Lemma version_nibble (x : Z) :
  0 <= x < 256 ->
  let b := u8_of_Z (Z.lor (Z.land x 0x0f) 0x40) in
  u8_to_Z b / 16 = 4 /\ u8_to_Z b mod 16 = x mod 16.
Proof.
  intros Hx b. subst b.
  change 0x0f with (2 ^ 4 - 1). rewrite land_low by lia.
  rewrite Z.lor_comm.
  change 0x40 with (Z.shiftl 1 6).
  rewrite lor_shiftl_low by dlia.
  rewrite u8_to_of_Z by dlia. dlia.
Qed.

Lemma variant_nibble (x : Z) :
  0 <= x < 256 ->
  let b := u8_of_Z (Z.lor (Z.land x 0x3f) 0x80) in
  8 <= u8_to_Z b / 16 <= 11 /\ u8_to_Z b mod 16 = x mod 16.
Proof.
  intros Hx b. subst b.
  change 0x3f with (2 ^ 6 - 1). rewrite land_low by lia.
  rewrite Z.lor_comm.
  change 0x80 with (Z.shiftl 1 7).
  rewrite lor_shiftl_low by dlia.
  rewrite u8_to_of_Z by dlia. dlia.
Qed.

Section Identifiers.
Context `{P : Platform}.
Context (L : PlatformLaws P).

(** X5 (core/crypto/utils.ts, [generateKeyId]): a key identifier is made of
    one draw of eight random bytes and is a string of sixteen lowercase
    hexadecimal digits. *)
Theorem generateKeyId_shape (w : World) :
  exists keyId,
    Utils.generateKeyId w = (Ok keyId, snd (random_bytes 8 w)) /\
    List.length keyId = 16%nat /\
    Forall (fun c => hex_char c = true) keyId.
Proof.
  exists (Utils.hex (fst (random_bytes 8 w))). split; [|split].
  - apply generateKeyId_eq.
  - now rewrite hex_length, random_bytes_length.
  - apply hex_chars.
Qed.

(** X6 (core/crypto/utils.ts, [generateUUID]): the result has the layout of
    a version 4 UUID: five groups of 8, 4, 4, 4 and 12 lowercase hexadecimal
    digits separated by dashes, the third group starting with [4] and the
    fourth with [8], [9], [a] or [b]. *)
Theorem generateUUID_shape (w : World) :
  exists a b c d e v,
    Utils.generateUUID w =
      (Ok (a ++ js "-" ++ b ++ js "-" ++ (js "4" ++ c) ++ js "-"
             ++ ([v] ++ d) ++ js "-" ++ e),
       snd (random_bytes 16 w)) /\
    List.length a = 8%nat /\ List.length b = 4%nat /\ List.length c = 3%nat /\
    List.length d = 3%nat /\ List.length e = 12%nat /\
    Forall (fun c => hex_char c = true) (a ++ b ++ c ++ d ++ e) /\
    v ∈ js "89ab".
Proof.
  unfold Utils.generateUUID, bind. rewrite getRandomValues_eq.
  pose proof (random_bytes_length 16 w) as Hlen.
  destruct (fst (random_bytes 16 w))
    as [|b0 [|b1 [|b2 [|b3 [|b4 [|b5 [|b6 [|b7 [|b8 [|b9 [|b10 [|b11
        [|b12 [|b13 [|b14 [|b15 [|b16 rest]]]]]]]]]]]]]]]]];
    try discriminate Hlen. clear Hlen.
  destruct (version_nibble (u8_to_Z b6) (u8_to_Z_range b6)) as [V1 V2].
  destruct (variant_nibble (u8_to_Z b8) (u8_to_Z_range b8)) as [R1 R2].
  set (B6 := u8_of_Z (Z.lor (Z.land (u8_to_Z b6) 0x0f) 0x40)) in *.
  set (B8 := u8_of_Z (Z.lor (Z.land (u8_to_Z b8) 0x3f) 0x80)) in *.
  exists (Utils.hex [b0; b1; b2; b3]), (Utils.hex [b4; b5]),
    (Utils.hex_digit (u8_to_Z B6 mod 16) :: Utils.hex [b7]),
    (Utils.hex_digit (u8_to_Z B8 mod 16) :: Utils.hex [b9]),
    (Utils.hex [b10; b11; b12; b13; b14; b15]),
    (Utils.hex_digit (u8_to_Z B8 / 16)).
  split; [|split; [|split; [|split; [|split; [|split; [|split]]]]]];
    try reflexivity.
  - unfold ret. f_equal. f_equal.
    change (js "4") with [Utils.hex_digit 4]. rewrite <- V1.
    reflexivity.
  - apply Forall_app; split; [apply hex_chars|].
    apply Forall_app; split; [apply hex_chars|].
    apply Forall_app; split;
      [apply List.Forall_cons;
       [apply hex_digit_char; apply Z.mod_pos_bound; lia | apply hex_chars]|].
    apply Forall_app; split;
      [apply List.Forall_cons;
       [apply hex_digit_char; apply Z.mod_pos_bound; lia | apply hex_chars]|].
    apply hex_chars.
  - generalize dependent (u8_to_Z B8 / 16). intros q Hq.
    assert (H8 : q = 8 \/ q = 9 \/ q = 10 \/ q = 11) by lia.
    destruct H8 as [-> | [-> | [-> | ->]]];
      apply list_elem_of_In; cbn; tauto.
Qed.

End Identifiers.

Lemma generateKeyId_shape_witness :
  exists keyId,
    @Utils.generateKeyId Reference.platform 0%nat = (Ok keyId, 1%nat) /\
    List.length keyId = 16%nat /\
    Forall (fun c => hex_char c = true) keyId.
Proof. exact (generateKeyId_shape reference_laws 0%nat). Defined.

Lemma generateUUID_shape_witness :
  exists a b c d e v,
    @Utils.generateUUID Reference.platform 171%nat =
      (Ok (a ++ js "-" ++ b ++ js "-" ++ (js "4" ++ c) ++ js "-"
             ++ ([v] ++ d) ++ js "-" ++ e),
       172%nat) /\
    List.length a = 8%nat /\ List.length b = 4%nat /\ List.length c = 3%nat /\
    List.length d = 3%nat /\ List.length e = 12%nat /\
    Forall (fun c => hex_char c = true) (a ++ b ++ c ++ d ++ e) /\
    v ∈ js "89ab".
Proof. exact (generateUUID_shape reference_laws 171%nat). Defined.

Example generateUUID_reference :
  fst (@Utils.generateUUID Reference.platform 171%nat)
  = Ok (js "abababab-abab-4bab-abab-abababababab").
Proof. vm_compute. reflexivity. Qed.

(** ** Symmetric encryption and the failures of the key backup *)

Section SymmetricProofs.
Context `{P : Platform}.
Context (L : PlatformLaws P).

(** X7 (core/crypto/encryption.ts, [encryptWithSymmetricKey] and
    [decryptWithSymmetricKey]): with a key that may encrypt and decrypt,
    what [encryptWithSymmetricKey] makes of a well-formed plaintext not
    opening with U+FEFF is opened by [decryptWithSymmetricKey]; the nonce
    it returns has 12 bytes. *)
Theorem symmetric_round_trip (p : jsstring) (k : AesKey) (w : World) :
  Subtle.has_usage encrypt k = true ->
  Subtle.has_usage decrypt k = true ->
  TextCodec.isWellFormed p = true -> head p <> Some 0xFEFF ->
  exists encryptedData iv w',
    Encryption.encryptWithSymmetricKey p k w = (Ok (encryptedData, iv), w') /\
    List.length (Utils.base64ToArrayBuffer iv) = 12%nat /\
    Encryption.decryptWithSymmetricKey encryptedData iv k = Ok p.
Proof.
  intros He Hd Hwf Hbom. unfold Encryption.encryptWithSymmetricKey.
  unfold bind at 1. rewrite getRandomValues_eq.
  unfold bind, await, ret, Subtle.encrypt_AES_GCM. rewrite He.
  eexists. eexists. eexists. split; [reflexivity|].
  rewrite base64_round_trip. split; [apply random_bytes_length|].
  unfold Encryption.decryptWithSymmetricKey.
  rewrite !base64_round_trip. unfold Subtle.decrypt_AES_GCM.
  rewrite Hd, aes_gcm_correct. cbn [rbind].
  now rewrite text_round_trip.
Qed.

(** What [exportPrivateKeys] returns for a password of at least 8 code
    units. *)
Lemma exportPrivateKeys_eq (K : KeyMap) (password : jsstring) (w : World) :
  (8 <= List.length password)%nat ->
  let salt := fst (random_bytes 32 w) in
  let w1 := snd (random_bytes 32 w) in
  let iv := fst (random_bytes 12 w1) in
  let w2 := snd (random_bytes 12 w1) in
  Encryption.exportPrivateKeys K password w =
  (Ok {| EncryptedKeyBundle.version := js "1.0";
         EncryptedKeyBundle.algorithm := js "PBKDF2-AES-GCM-256";
         EncryptedKeyBundle.iterations := 100000;
         EncryptedKeyBundle.salt := Utils.arrayBufferToBase64 salt;
         EncryptedKeyBundle.iv := Utils.arrayBufferToBase64 iv;
         EncryptedKeyBundle.ciphertext :=
           Utils.arrayBufferToBase64
             (aes_gcm_encrypt
                (pbkdf2_sha256 (TextCodec.TextEncoder_encode password) salt 100000)
                iv (TextCodec.TextEncoder_encode (JSON_stringify K)));
         EncryptedKeyBundle.exportedAt := Date_toISOString (Date_now w2) |},
   w2).
Proof.
  intros Hlen salt w1 iv w2. unfold Encryption.exportPrivateKeys.
  destruct (Encryption.empty password || _) eqn:Eshort.
  { apply short_password in Eshort. lia. }
  unfold bind at 1. rewrite getRandomValues_eq.
  unfold bind at 1. rewrite getRandomValues_eq.
  unfold bind at 1. unfold await at 1.
  unfold Encryption.deriveKeyFromPassword, Subtle.deriveKey_PBKDF2.
  change (100000 <? 0) with false. change (4294967295 <? 100000) with false.
  change (100000 =? 0) with false. change (2147483647 <? 100000) with false.
  cbn [orb].
  unfold bind at 1. unfold await at 1.
  unfold Subtle.encrypt_AES_GCM at 1. unfold Subtle.has_usage at 1.
  cbn [aes_usages aes_raw].
  rewrite bool_decide_eq_true_2 by apply list_elem_of_here.
  reflexivity.
Qed.

(** X10 (core/crypto/encryption.ts, [exportPrivateKeys]): the bundle made
    for a password of at least 8 code units records version 1.0, the
    algorithm name and 100000 iterations, and carries a salt of 32 bytes, a
    nonce of 12 bytes and a ciphertext that is not empty. *)
Theorem exportPrivateKeys_bundle (K : KeyMap) (password : jsstring) (w : World) :
  (8 <= List.length password)%nat ->
  exists bundle w',
    Encryption.exportPrivateKeys K password w = (Ok bundle, w') /\
    EncryptedKeyBundle.version bundle = js "1.0" /\
    EncryptedKeyBundle.algorithm bundle = js "PBKDF2-AES-GCM-256" /\
    EncryptedKeyBundle.iterations bundle = 100000 /\
    List.length (Utils.base64ToArrayBuffer (EncryptedKeyBundle.salt bundle))
      = 32%nat /\
    List.length (Utils.base64ToArrayBuffer (EncryptedKeyBundle.iv bundle))
      = 12%nat /\
    EncryptedKeyBundle.ciphertext bundle <> [].
Proof.
  intros Hlen. rewrite exportPrivateKeys_eq by assumption.
  eexists. eexists. split; [reflexivity|].
  cbn [EncryptedKeyBundle.version EncryptedKeyBundle.algorithm
       EncryptedKeyBundle.iterations EncryptedKeyBundle.salt
       EncryptedKeyBundle.iv EncryptedKeyBundle.ciphertext].
  rewrite !base64_round_trip, !random_bytes_length.
  do 5 (split; [reflexivity|]).
  intros E.
  pose proof (arrayBufferToBase64_nonempty _
                (aes_gcm_nonempty
                   (pbkdf2_sha256 (TextCodec.TextEncoder_encode password)
                      (fst (random_bytes 32 w)) 100000)
                   (fst (random_bytes 12 (snd (random_bytes 32 w))))
                   (TextCodec.TextEncoder_encode (JSON_stringify K)))) as Hne.
  rewrite E in Hne. discriminate.
Qed.

(** X9 (core/crypto/encryption.ts, [exportPrivateKeys] and
    [importPrivateKeys]): a bundle made by [exportPrivateKeys], opened
    with any password that is not empty.  [importPrivateKeys] returns keys
    only when AES-GCM, under the key derived from that password and the
    salt of the bundle with 100000 iterations, accepts the ciphertext and
    the text it gives parses; in every other case the call rejects with
    ['Invalid password or corrupted key bundle'], the same whether the
    decryption or the parsing failed.  None of the other errors of
    [importPrivateKeys] arises for such a bundle. *)
Theorem other_password_outcomes (K : KeyMap) (password password' : jsstring)
    (w : World) :
  (8 <= List.length password)%nat ->
  password' <> [] ->
  exists bundle w',
    Encryption.exportPrivateKeys K password w = (Ok bundle, w') /\
    let salt := Utils.base64ToArrayBuffer (EncryptedKeyBundle.salt bundle) in
    let iv := Utils.base64ToArrayBuffer (EncryptedKeyBundle.iv bundle) in
    let ciphertext :=
      Utils.base64ToArrayBuffer (EncryptedKeyBundle.ciphertext bundle) in
    let k' := pbkdf2_sha256 (TextCodec.TextEncoder_encode password') salt 100000 in
    match Encryption.importPrivateKeys bundle password' with
    | Ok K' =>
      exists m, aes_gcm_decrypt k' iv ciphertext = Some m /\
                JSON_parse (TextCodec.TextDecoder_decode m) = Some K'
    | Rejected e =>
      e = Error "Invalid password or corrupted key bundle" /\
      (aes_gcm_decrypt k' iv ciphertext = None \/
       exists m, aes_gcm_decrypt k' iv ciphertext = Some m /\
                 JSON_parse (TextCodec.TextDecoder_decode m) = None)
    end.
Proof.
  intros Hlen Hpw'.
  rewrite exportPrivateKeys_eq by assumption.
  eexists. eexists. split; [reflexivity|].
  unfold Encryption.importPrivateKeys.
  cbn [EncryptedKeyBundle.ciphertext EncryptedKeyBundle.version
       EncryptedKeyBundle.salt EncryptedKeyBundle.iv
       EncryptedKeyBundle.iterations].
  rewrite arrayBufferToBase64_nonempty by apply aes_gcm_nonempty.
  assert (Hempty : Encryption.empty password' = false)
    by (destruct password'; [contradiction | reflexivity]).
  rewrite Hempty. rewrite bool_decide_eq_true_2 by reflexivity. cbn [negb].
  change (100000 =? 0) with false. cbv iota.
  rewrite !base64_round_trip.
  unfold Encryption.deriveKeyFromPassword, Subtle.deriveKey_PBKDF2.
  change (100000 <? 0) with false. change (4294967295 <? 100000) with false.
  change (100000 =? 0) with false. change (2147483647 <? 100000) with false.
  cbn [orb rbind].
  unfold Subtle.decrypt_AES_GCM, Subtle.has_usage. cbn [aes_usages aes_raw].
  rewrite bool_decide_eq_true_2
    by (apply list_elem_of_further, list_elem_of_here).
  cbv zeta.
  destruct (aes_gcm_decrypt _ _ _) as [m|]; cbn [rbind Encryption.try_catch_rethrow].
  - destruct (JSON_parse (TextCodec.TextDecoder_decode m)) as [K'|] eqn:EK;
      cbn [Encryption.try_catch_rethrow].
    + exists m. auto.
    + split; [reflexivity|]. right. exists m. auto.
  - split; [reflexivity|]. now left.
Qed.

End SymmetricProofs.


(** X11 (core/crypto/encryption.ts, [encryptMessage]): a recipient key that
    [importKey] does not accept as a public key is refused with the
    exception of [importKey] itself (a [SyntaxError] for a private key, a
    [DataError] for a malformed one) before any random number is drawn;
    the only other failure is an [OperationError] of the RSA-OAEP
    encryption of the message key. *)
Theorem encryptMessage_failures `{P : Platform}
    (plaintext : jsstring) (recipientPublicKeyJwk : JsonWebKey) (w : World) :
  (public_of_jwk recipientPublicKeyJwk = None ->
   Encryption.encryptMessage plaintext recipientPublicKeyJwk w
     = (Rejected (importKey_jwk_error encrypt recipientPublicKeyJwk), w)) /\
  (forall e w',
     Encryption.encryptMessage plaintext recipientPublicKeyJwk w
       = (Rejected e, w') ->
     public_of_jwk recipientPublicKeyJwk = None /\
     e = importKey_jwk_error encrypt recipientPublicKeyJwk /\ w' = w \/
     e = DOMException OperationError /\
     exists publicKey,
       public_of_jwk recipientPublicKeyJwk = Some publicKey /\
       rsa_oaep_encrypt publicKey
         (fst (random_bytes 32 (snd (random_bytes 12 (snd (random_bytes 32 w))))))
         (fst (random_bytes 32 w)) = None).
Proof.
  destruct (public_of_jwk recipientPublicKeyJwk) as [publicKey|] eqn:Epub.
  2:{ assert (E : Encryption.encryptMessage plaintext recipientPublicKeyJwk w
                  = (Rejected (importKey_jwk_error encrypt recipientPublicKeyJwk),
                     w)).
      { unfold Encryption.encryptMessage, bind, await,
          Subtle.importKey_jwk_public. now rewrite Epub. }
      rewrite E. split; [reflexivity|]. intros e w' [= <- <-]. auto. }
  split; [discriminate|]. intros e w'.
  unfold Encryption.encryptMessage, Encryption.generateSymmetricKey.
  unfold bind at 1. unfold Subtle.importKey_jwk_public. rewrite Epub.
  unfold await at 1. cbv beta iota.
  unfold bind at 1. rewrite generateKey_AES_eq.
  unfold bind at 1. rewrite getRandomValues_eq.
  unfold bind at 1. unfold await at 1.
  unfold Subtle.encrypt_AES_GCM at 1. unfold Subtle.has_usage at 1.
  cbn [aes_usages aes_raw].
  rewrite bool_decide_eq_true_2 by apply list_elem_of_here.
  unfold bind at 1. unfold await at 1. unfold Subtle.exportKey_raw at 1.
  cbn [aes_extractable aes_raw].
  unfold bind at 1. unfold Subtle.encrypt_RSA_OAEP.
  unfold bind at 1. rewrite getRandomValues_eq. unfold await.
  destruct (rsa_oaep_encrypt publicKey _ _) eqn:E.
  - unfold ret. discriminate.
  - intros [= <- <-]. right. split; [reflexivity|]. eauto.
Qed.

Lemma symmetric_round_trip_witness :
  exists encryptedData iv w',
    @Encryption.encryptWithSymmetricKey Reference.platform (js "hello")
      (Reference.group_key 6) 11%nat = (Ok (encryptedData, iv), w') /\
    List.length (Utils.base64ToArrayBuffer iv) = 12%nat /\
    @Encryption.decryptWithSymmetricKey Reference.platform encryptedData iv
      (Reference.group_key 6) = Ok (js "hello").
Proof.
  apply (symmetric_round_trip reference_laws);
    [reflexivity | reflexivity | reflexivity | discriminate].
Defined.

Lemma exportPrivateKeys_bundle_witness :
  exists bundle w',
    @Encryption.exportPrivateKeys Reference.platform true
      (js "correct horse") 7%nat = (Ok bundle, w') /\
    EncryptedKeyBundle.version bundle = js "1.0" /\
    EncryptedKeyBundle.algorithm bundle = js "PBKDF2-AES-GCM-256" /\
    EncryptedKeyBundle.iterations bundle = 100000 /\
    List.length (Utils.base64ToArrayBuffer (EncryptedKeyBundle.salt bundle))
      = 32%nat /\
    List.length (Utils.base64ToArrayBuffer (EncryptedKeyBundle.iv bundle))
      = 12%nat /\
    EncryptedKeyBundle.ciphertext bundle <> [].
Proof.
  apply (exportPrivateKeys_bundle reference_laws). cbn. lia.
Defined.

Lemma other_password_outcomes_witness :
  exists bundle w',
    @Encryption.exportPrivateKeys Reference.platform true
      (js "correct horse") 7%nat = (Ok bundle, w') /\
    let salt := Utils.base64ToArrayBuffer (EncryptedKeyBundle.salt bundle) in
    let iv := Utils.base64ToArrayBuffer (EncryptedKeyBundle.iv bundle) in
    let ciphertext :=
      Utils.base64ToArrayBuffer (EncryptedKeyBundle.ciphertext bundle) in
    let k' :=
      @pbkdf2_sha256 Reference.platform
        (TextCodec.TextEncoder_encode (js "incorrect horse")) salt 100000 in
    match @Encryption.importPrivateKeys Reference.platform bundle
            (js "incorrect horse") with
    | Ok K' =>
      exists m, @aes_gcm_decrypt Reference.platform k' iv ciphertext = Some m /\
                @JSON_parse Reference.platform (TextCodec.TextDecoder_decode m)
                  = Some K'
    | Rejected e =>
      e = Error "Invalid password or corrupted key bundle" /\
      (@aes_gcm_decrypt Reference.platform k' iv ciphertext = None \/
       exists m, @aes_gcm_decrypt Reference.platform k' iv ciphertext = Some m /\
                 @JSON_parse Reference.platform (TextCodec.TextDecoder_decode m)
                   = None)
    end.
Proof.
  apply (other_password_outcomes (P := Reference.platform) reference_laws);
    [cbn; lia | discriminate].
Defined.

(** On the reference platform the other password is refused. *)
Example other_password_reference :
  exists bundle w',
    @Encryption.exportPrivateKeys Reference.platform true
      (js "correct horse") 7%nat = (Ok bundle, w') /\
    @Encryption.importPrivateKeys Reference.platform bundle
      (js "incorrect horse") =
      Rejected (Error "Invalid password or corrupted key bundle").
Proof.
  rewrite (exportPrivateKeys_eq (P := Reference.platform))
    by (cbn; lia).
  eexists. eexists. split; reflexivity.
Qed.


Lemma encryptMessage_failures_witness :
  @Encryption.encryptMessage Reference.platform (js "hello")
    (KeyPair.privateKey Reference.alice) 2%nat
  = (Rejected (DOMException SyntaxError), 2%nat).
Proof.
  apply (proj1 (@encryptMessage_failures Reference.platform (js "hello")
                  (KeyPair.privateKey Reference.alice) 2%nat)).
  reflexivity.
Defined.

(** ** Adding a member, and the failures of the group key functions *)

Lemma aes_key_size_length (raw : bytes) :
  aes_key_size raw = true -> (List.length raw <= 190)%nat.
Proof.
  unfold aes_key_size. rewrite !orb_true_iff, !Nat.eqb_eq. lia.
Qed.

Lemma importSymmetricKey_sized `{P : Platform} (raw : bytes) :
  aes_key_size raw = true ->
  KeyGeneration.importSymmetricKey raw =
  Ok {| aes_raw := raw; aes_extractable := true;
        aes_usages := [encrypt; decrypt] |}.
Proof.
  intros H. unfold KeyGeneration.importSymmetricKey, Subtle.importKey_raw_AES.
  unfold aes_key_size in H. now rewrite H.
Qed.

Section GroupKeyProofs.
Context `{P : Platform}.
Context (L : PlatformLaws P).

Lemma group_key_made_attributes (groupKey : AesKey) :
  group_key_made groupKey ->
  aes_key_size (aes_raw groupKey) = true /\
  aes_extractable groupKey = true /\
  aes_usages groupKey = [encrypt; decrypt].
Proof.
  intros [(w0 & keyId & w1 & H)|(ek & jwk & H)].
  - unfold KeyGeneration.generateGroupSymmetricKey in H.
    unfold bind at 1 in H. rewrite generateKey_AES_eq in H.
    unfold bind at 1 in H. rewrite generateKeyId_eq in H.
    unfold ret in H. injection H as <- _ _. cbn [aes_raw aes_extractable aes_usages].
    split; [|split; reflexivity].
    unfold aes_key_size. now rewrite random_bytes_length.
  - unfold GroupKeys.decryptGroupKey in H.
    destruct (KeyGeneration.importPrivateKey jwk) as [priv|]; [|discriminate].
    cbn [rbind] in H.
    destruct (Subtle.decrypt_RSA_OAEP priv _) as [raw|]; [|discriminate].
    cbn [rbind] in H.
    unfold KeyGeneration.importSymmetricKey, Subtle.importKey_raw_AES in H.
    destruct (_ || _) eqn:E in H; [|discriminate].
    injection H as <-. cbn [aes_raw aes_extractable aes_usages]. auto.
Qed.

(** [addMemberToGroup] for the public key that the generator makes at
    [w0]: the result is opened by the private key made with it. *)
Lemma addMemberToGroup_wraps (groupKey : AesKey) (w0 w : World) :
  aes_key_size (aes_raw groupKey) = true ->
  aes_extractable groupKey = true ->
  aes_usages groupKey = [encrypt; decrypt] ->
  exists encryptedKey,
    GroupKeys.addMemberToGroup groupKey
      (jwk_of_public (fst (fst (rsa_keygen w0)))) w
      = (Ok encryptedKey, snd (random_bytes 32 w)) /\
    GroupKeys.decryptGroupKey encryptedKey
      (jwk_of_private (snd (fst (rsa_keygen w0)))) = Ok groupKey.
Proof.
  intros Hsize Hex Hus.
  destruct groupKey as [raw ex us]. cbn [aes_raw aes_extractable aes_usages] in *.
  subst ex us.
  unfold GroupKeys.addMemberToGroup.
  unfold bind at 1. unfold await at 1.
  unfold KeyGeneration.exportSymmetricKey, Subtle.exportKey_raw.
  cbn [aes_extractable aes_raw].
  unfold bind at 1. unfold await at 1.
  unfold KeyGeneration.importPublicKey, Subtle.importKey_jwk_public.
  rewrite jwk_public_round_trip.
  destruct (encrypt_RSA_OAEP_generated L w0 w raw (aes_key_size_length raw Hsize))
    as (c & Hc & Hd).
  unfold bind at 1. rewrite Hc. unfold ret.
  eexists. split; [reflexivity|].
  unfold GroupKeys.decryptGroupKey, KeyGeneration.importPrivateKey,
    Subtle.importKey_jwk_private.
  rewrite jwk_private_round_trip. cbn [rbind].
  rewrite base64_round_trip, Hd. cbn [rbind].
  now apply importSymmetricKey_sized.
Qed.

(** X12 (core/crypto/groupKeys.ts, [addMemberToGroup] and
    [decryptGroupKey]): [addMemberToGroup] wraps a group key, generated or
    recovered from a bundle, for the public key of a generated identity,
    and that identity recovers from it, with [decryptGroupKey] and its
    private key, the very same key; the new member therefore opens what was
    encrypted under the group key before it joined. *)
Theorem addMemberToGroup_recovers (groupKey : AesKey) (kp : KeyPair.t)
    (w : World) :
  group_key_made groupKey ->
  generated kp ->
  exists encryptedKey w',
    GroupKeys.addMemberToGroup groupKey (KeyPair.publicKey kp) w
      = (Ok encryptedKey, w') /\
    GroupKeys.decryptGroupKey encryptedKey (KeyPair.privateKey kp) = Ok groupKey.
Proof.
  intros Hk (w0 & w1 & Hkp).
  destruct (group_key_made_attributes groupKey Hk) as (Hsize & Hex & Hus).
  destruct (generateUserKeyPair_keys w0 w1 kp Hkp) as [Epub Epriv].
  destruct (addMemberToGroup_wraps groupKey w0 w Hsize Hex Hus)
    as (encryptedKey & Hadd & Hdec).
  exists encryptedKey, (snd (random_bytes 32 w)).
  rewrite Epub, Epriv. split; [exact Hadd | exact Hdec].
Qed.

End GroupKeyProofs.

Section GroupKeyFailures.
Context `{P : Platform}.

(** The rejections of the loop: the exception of [importKey] for the key
    of a member, or the failure of an RSA-OAEP encryption. *)
Lemma encrypt_for_members_invalid (entries : list (jsstring * ParticipantKey.t))
    (raw : bytes) (acc : gmap jsstring jsstring) (w : World)
    (m : jsstring) (pk : ParticipantKey.t) :
  (m, pk) ∈ entries ->
  public_of_jwk (ParticipantKey.publicKey pk) = None ->
  exists e w',
    GroupKeys.encrypt_for_members entries raw acc w = (Rejected e, w') /\
    ((exists m' pk',
        (m', pk') ∈ entries /\
        public_of_jwk (ParticipantKey.publicKey pk') = None /\
        e = importKey_jwk_error encrypt (ParticipantKey.publicKey pk')) \/
     e = DOMException OperationError).
Proof.
  intros Hin Hpk. revert acc w.
  induction entries as [|[m0 pk0] rest IH]; intros acc w.
  { now apply elem_of_nil in Hin. }
  cbn [GroupKeys.encrypt_for_members].
  unfold bind at 1. unfold await at 1.
  unfold KeyGeneration.importPublicKey, Subtle.importKey_jwk_public.
  destruct (public_of_jwk (ParticipantKey.publicKey pk0)) as [pub|] eqn:E0.
  2:{ eexists. eexists. split; [reflexivity|]. left. exists m0, pk0.
      split; [apply list_elem_of_here|]. now split. }
  apply elem_of_cons in Hin. destruct Hin as [[= -> ->]|Hin].
  { rewrite Hpk in E0. discriminate. }
  unfold bind at 1. unfold Subtle.encrypt_RSA_OAEP.
  unfold bind at 1. rewrite getRandomValues_eq. unfold await.
  destruct (rsa_oaep_encrypt pub _ raw) as [c|].
  - destruct (IH Hin (<[m0 := Utils.arrayBufferToBase64 c]> acc)
                (snd (random_bytes 32 w))) as (e & w' & He & Hcase).
    exists e, w'. split; [exact He|].
    destruct Hcase as [(m' & pk' & Hin' & Hnone & Ee)|Ee]; [left|now right].
    exists m', pk'. split; [now apply list_elem_of_further|]. now split.
  - eexists. eexists. split; [reflexivity | now right].
Qed.

(** X13 (core/crypto/groupKeys.ts, [createGroupKeyBundle] and
    [rotateGroupKey]): when the key of some member is not imported as an
    RSA public key, no bundle is made, not even for the other members: the
    call rejects, with the exception that [importKey] raises for the key of
    such a member (a [SyntaxError] for a private key, a [DataError] for a
    malformed one) or with the [OperationError] of an RSA-OAEP encryption
    that failed before. *)
Theorem createGroupKeyBundle_invalid_member
    (memberPublicKeys : gmap jsstring ParticipantKey.t) (creatorId : jsstring)
    (w : World) (m : jsstring) (pk : ParticipantKey.t) :
  memberPublicKeys !! m = Some pk ->
  public_of_jwk (ParticipantKey.publicKey pk) = None ->
  exists e w',
    GroupKeys.createGroupKeyBundle memberPublicKeys creatorId w
      = (Rejected e, w') /\
    GroupKeys.rotateGroupKey memberPublicKeys creatorId w = (Rejected e, w') /\
    ((exists m' pk',
        memberPublicKeys !! m' = Some pk' /\
        public_of_jwk (ParticipantKey.publicKey pk') = None /\
        e = importKey_jwk_error encrypt (ParticipantKey.publicKey pk')) \/
     e = DOMException OperationError).
Proof.
  intros Hm Hpk. unfold GroupKeys.rotateGroupKey.
  cut (exists e w',
         GroupKeys.createGroupKeyBundle memberPublicKeys creatorId w
           = (Rejected e, w') /\
         ((exists m' pk',
             memberPublicKeys !! m' = Some pk' /\
             public_of_jwk (ParticipantKey.publicKey pk') = None /\
             e = importKey_jwk_error encrypt (ParticipantKey.publicKey pk')) \/
          e = DOMException OperationError)).
  { intros (e & w' & He & Hcase). exists e, w'. auto. }
  unfold GroupKeys.createGroupKeyBundle.
  unfold bind at 1. unfold KeyGeneration.generateGroupSymmetricKey.
  unfold bind at 1. rewrite generateKey_AES_eq.
  unfold bind at 1. rewrite generateKeyId_eq. unfold ret at 1.
  cbn [fst snd].
  unfold bind at 1. unfold await at 1.
  unfold KeyGeneration.exportSymmetricKey, Subtle.exportKey_raw.
  cbn [aes_extractable aes_raw].
  destruct (encrypt_for_members_invalid (map_to_list memberPublicKeys)
              (fst (random_bytes 32 w)) ∅
              (snd (random_bytes 8 (snd (random_bytes 32 w)))) m pk)
    as (e & w' & He & Hcase).
  { now apply elem_of_map_to_list. }
  { exact Hpk. }
  unfold bind at 1. rewrite He.
  exists e, w'. split; [reflexivity|].
  destruct Hcase as [(m' & pk' & Hin' & Hnone & Ee)|Ee]; [left|now right].
  exists m', pk'. split; [now apply elem_of_map_to_list|]. now split.
Qed.

(** X14 (core/crypto/groupKeys.ts, [decryptGroupKey]): the outcome by
    cases.  A private key that [importKey] does not accept gives the
    exception of [importKey] itself (a [SyntaxError] for a public key, a
    [DataError] for a malformed one); an entry that the private key does
    not unwrap gives an [OperationError]; unwrapped bytes that are not 16,
    24 or 32 long give a [DataError]; otherwise the result is the key with
    those bytes, which is extractable and may encrypt and decrypt. *)
Theorem decryptGroupKey_outcomes (encryptedKey : jsstring)
    (privateKeyJwk : JsonWebKey) :
  let outcome := GroupKeys.decryptGroupKey encryptedKey privateKeyJwk in
  (private_of_jwk privateKeyJwk = None ->
   outcome = Rejected (importKey_jwk_error decrypt privateKeyJwk)) /\
  (forall privateKey,
     private_of_jwk privateKeyJwk = Some privateKey ->
     (rsa_oaep_decrypt privateKey (Utils.base64ToArrayBuffer encryptedKey) = None ->
      outcome = Rejected (DOMException OperationError)) /\
     (forall raw,
        rsa_oaep_decrypt privateKey (Utils.base64ToArrayBuffer encryptedKey)
          = Some raw ->
        (aes_key_size raw = false ->
         outcome = Rejected (DOMException DataError)) /\
        (aes_key_size raw = true ->
         outcome = Ok {| aes_raw := raw; aes_extractable := true;
                         aes_usages := [encrypt; decrypt] |}))).
Proof.
  cbv zeta. unfold GroupKeys.decryptGroupKey, KeyGeneration.importPrivateKey,
    Subtle.importKey_jwk_private.
  split.
  - intros ->. reflexivity.
  - intros privateKey ->. cbn [rbind]. unfold Subtle.decrypt_RSA_OAEP. split.
    + intros ->. reflexivity.
    + intros raw ->. cbn [rbind]. split.
      * intros H. unfold KeyGeneration.importSymmetricKey,
          Subtle.importKey_raw_AES. unfold aes_key_size in H. now rewrite H.
      * apply importSymmetricKey_sized.
Qed.

End GroupKeyFailures.

Lemma addMemberToGroup_recovers_witness :
  exists encryptedKey w',
    @GroupKeys.addMemberToGroup Reference.platform (Reference.group_key 6)
      (KeyPair.publicKey Reference.carol) 20%nat = (Ok encryptedKey, w') /\
    @GroupKeys.decryptGroupKey Reference.platform encryptedKey
      (KeyPair.privateKey Reference.carol) = Ok (Reference.group_key 6).
Proof.
  apply (addMemberToGroup_recovers reference_laws).
  - left. exists 6%nat, (js "0707070707070707"), 8%nat. reflexivity.
  - exists 4%nat, 6%nat. exact reference_carol.
Defined.

Lemma createGroupKeyBundle_invalid_member_witness :
  exists e w',
    @GroupKeys.createGroupKeyBundle Reference.platform broken_directory
      (js "alice") 6%nat = (Rejected e, w') /\
    @GroupKeys.rotateGroupKey Reference.platform broken_directory
      (js "alice") 6%nat = (Rejected e, w') /\
    ((exists m' pk',
        broken_directory !! m' = Some pk' /\
        @public_of_jwk Reference.platform (ParticipantKey.publicKey pk') = None /\
        e = @importKey_jwk_error Reference.platform encrypt
              (ParticipantKey.publicKey pk')) \/
     e = DOMException OperationError).
Proof.
  apply (@createGroupKeyBundle_invalid_member Reference.platform
           broken_directory (js "alice") 6%nat (js "carol") broken_entry).
  - apply lookup_insert_eq.
  - reflexivity.
Defined.

(** On the reference platform the directory with the private key of carol
    is refused with the [SyntaxError] of [importKey]. *)
Example createGroupKeyBundle_reference :
  fst (@GroupKeys.createGroupKeyBundle Reference.platform broken_directory
         (js "alice") 6%nat)
  = Rejected (DOMException SyntaxError).
Proof. vm_compute. reflexivity. Qed.

Lemma decryptGroupKey_outcomes_witness :
  @GroupKeys.decryptGroupKey Reference.platform (js "AAAA")
    (KeyPair.publicKey Reference.alice)
  = Rejected (DOMException SyntaxError).
Proof.
  apply (proj1 (@decryptGroupKey_outcomes Reference.platform (js "AAAA")
                  (KeyPair.publicKey Reference.alice))).
  reflexivity.
Defined.

(** ** The timers of the service and of the platform *)

Section TimerInvariant.
Import DisappearingMessageService.
Context {App : Type}.
Context (deleteMessage : jsstring -> jsstring -> result unit).

Implicit Types (st : State App) (m : Message.t) (cb : Callback App).

(** Pending timers that are each registered under their own message are
    no more than the registered messages. *)
Lemma tracked_size {A} (f : A -> jsstring) (pending : gmap positive A)
    (registered : gmap jsstring positive) :
  (forall timer t, pending !! timer = Some t -> registered !! f t = Some timer) ->
  (size pending <= size registered)%nat.
Proof.
  revert registered.
  induction pending as [|timer t pending Hnone IH] using map_ind;
    intros registered H.
  { rewrite map_size_empty. lia. }
  rewrite map_size_insert_None by assumption.
  assert (Hreg : registered !! f t = Some timer)
    by (apply H, lookup_insert_eq).
  assert (Hrest : (size pending <= size (delete (f t) registered))%nat).
  { apply IH. intros timer' t' Hl.
    assert (Hne : timer' <> timer) by (intros ->; congruence).
    assert (Hreg' : registered !! f t' = Some timer')
      by (apply H; now rewrite lookup_insert_ne).
    rewrite lookup_delete_ne; [exact Hreg'|]. intros E.
    rewrite <- E, Hreg in Hreg'. congruence. }
  rewrite <- (insert_delete_id registered (f t) timer Hreg).
  rewrite map_size_insert_None by apply lookup_delete_eq. lia.
Qed.

Lemma tracked_same st st' :
  activeTimers App st' = activeTimers App st ->
  timeouts App st' = timeouts App st ->
  timers_tracked st -> timers_tracked st'.
Proof. unfold timers_tracked. intros -> ->. auto. Qed.

Lemma tracked_register st st' (id : jsstring) (timer : positive) (t : Timer App) :
  timers_tracked st ->
  activeTimers App st !! id = None ->
  messageId App t = id ->
  activeTimers App st' = <[id := timer]> (activeTimers App st) ->
  timeouts App st' = <[timer := t]> (timeouts App st) ->
  timers_tracked st'.
Proof.
  unfold timers_tracked. intros H Hid Ht -> -> timer' t' Hl.
  destruct (decide (timer' = timer)) as [->|Hne].
  - rewrite lookup_insert_eq in Hl. injection Hl as Heq. subst t'.
    rewrite Ht. apply lookup_insert_eq.
  - rewrite lookup_insert_ne in Hl by congruence.
    pose proof (H timer' t' Hl) as Hreg.
    rewrite lookup_insert_ne; [exact Hreg|]. intros E.
    rewrite <- E in Hreg. congruence.
Qed.

Lemma tracked_unregister st st' (id : jsstring) (timer : positive) :
  timers_tracked st ->
  activeTimers App st !! id = Some timer ->
  activeTimers App st' = delete id (activeTimers App st) ->
  timeouts App st' = delete timer (timeouts App st) ->
  timers_tracked st'.
Proof.
  unfold timers_tracked. intros H Hid -> -> timer' t' Hl.
  destruct (decide (timer = timer')) as [->|Hne].
  - now rewrite lookup_delete_eq in Hl.
  - rewrite lookup_delete_ne in Hl by assumption.
    pose proof (H timer' t' Hl) as Hreg.
    rewrite lookup_delete_ne; [exact Hreg|]. intros E.
    rewrite <- E, Hid in Hreg. congruence.
Qed.

(** A timer that is gone while its entry stays. *)
Lemma tracked_drop st st' (timer : positive) :
  timers_tracked st ->
  activeTimers App st' = activeTimers App st ->
  timeouts App st' = delete timer (timeouts App st) ->
  timers_tracked st'.
Proof.
  unfold timers_tracked. intros H -> -> timer' t' Hl.
  destruct (decide (timer = timer')) as [->|Hne].
  - now rewrite lookup_delete_eq in Hl.
  - rewrite lookup_delete_ne in Hl by assumption. now apply H.
Qed.

Lemma balanced_same st st' :
  activeTimers App st' = activeTimers App st ->
  timeouts App st' = timeouts App st ->
  timers_balanced st -> timers_balanced st'.
Proof.
  unfold timers_balanced, timers_consistent, timers_tracked,
    getActiveTimerCount.
  intros -> ->. auto.
Qed.

Lemma balanced_register st st' (id : jsstring) (timer : positive) (t : Timer App) :
  timers_balanced st ->
  activeTimers App st !! id = None ->
  timeouts App st !! timer = None ->
  messageId App t = id ->
  activeTimers App st' = <[id := timer]> (activeTimers App st) ->
  timeouts App st' = <[timer := t]> (timeouts App st) ->
  timers_balanced st'.
Proof.
  intros [[H1 H2] Hsize] Hid Htimer Ht Hat Hto. split; [split|].
  - rewrite Hat, Hto. intros id' timer' Hl.
    destruct (decide (id' = id)) as [->|Hne].
    + rewrite lookup_insert_eq in Hl. injection Hl as Heq. subst timer'.
      exists t. now rewrite lookup_insert_eq.
    + rewrite lookup_insert_ne in Hl by congruence.
      destruct (H1 id' timer' Hl) as (t' & Ht' & Hm).
      exists t'. split; [|exact Hm].
      rewrite lookup_insert_ne; [exact Ht'|]. intros <-. congruence.
  - now apply (tracked_register st st' id timer t).
  - unfold getActiveTimerCount in *. rewrite Hat, Hto.
    rewrite !map_size_insert_None by assumption. now rewrite Hsize.
Qed.

Lemma balanced_unregister st st' (id : jsstring) (timer : positive) :
  timers_balanced st ->
  activeTimers App st !! id = Some timer ->
  activeTimers App st' = delete id (activeTimers App st) ->
  timeouts App st' = delete timer (timeouts App st) ->
  timers_balanced st'.
Proof.
  intros [[H1 H2] Hsize] Hid Hat Hto.
  destruct (H1 id timer Hid) as (t & Ht & Hm).
  split; [split|].
  - rewrite Hat, Hto. intros id' timer' Hl.
    destruct (decide (id = id')) as [->|Hne].
    + now rewrite lookup_delete_eq in Hl.
    + rewrite lookup_delete_ne in Hl by assumption.
      destruct (H1 id' timer' Hl) as (t' & Ht' & Hm').
      exists t'. split; [|exact Hm'].
      rewrite lookup_delete_ne; [exact Ht'|]. intros <-.
      rewrite Ht in Ht'. injection Ht' as <-. congruence.
  - now apply (tracked_unregister st st' id timer).
  - unfold getActiveTimerCount in *. rewrite Hat, Hto.
    rewrite !map_size_delete_Some by eauto. now rewrite Hsize.
Qed.

Lemma fresh_timer st : timeouts App st !! fresh (dom (timeouts App st)) = None.
Proof. apply not_elem_of_dom, is_fresh. Qed.

(** The maps after [startMessageTimer]: as they were, or with the new
    timer. *)
Lemma startMessageTimer_maps m cb st :
  let st' := snd (startMessageTimer App m cb st) in
  activeTimers App st' = activeTimers App st /\
  timeouts App st' = timeouts App st \/
  exists t,
    activeTimers App st !! Message.id m = None /\
    messageId App t = Message.id m /\
    activeTimers App st'
      = <[Message.id m := fresh (dom (timeouts App st))]> (activeTimers App st) /\
    timeouts App st'
      = <[fresh (dom (timeouts App st)) := t]> (timeouts App st).
Proof.
  cbv zeta. unfold startMessageTimer.
  destruct (falsy _ || bool_decide _) eqn:E; [now left|].
  apply orb_false_iff in E as [_ E]. apply bool_decide_eq_false in E.
  apply eq_None_not_Some in E.
  cbn [Date_now]. destruct (_ <=? 0); [now left|].
  right. eexists. split; [exact E|]. split; [|split; reflexivity]. reflexivity.
Qed.

Lemma startMessageTimer_tracked m cb st :
  timers_tracked st -> timers_tracked (snd (startMessageTimer App m cb st)).
Proof.
  intros H.
  destruct (startMessageTimer_maps m cb st) as [[E1 E2]|(t & Hid & Ht & E1 & E2)].
  - now apply (tracked_same st).
  - now apply (tracked_register st _ (Message.id m)
                 (fresh (dom (timeouts App st))) t).
Qed.

Lemma startMessageTimer_balanced m cb st :
  timers_balanced st -> timers_balanced (snd (startMessageTimer App m cb st)).
Proof.
  intros H.
  destruct (startMessageTimer_maps m cb st) as [[E1 E2]|(t & Hid & Ht & E1 & E2)].
  - now apply (balanced_same st).
  - apply (balanced_register st _ (Message.id m)
             (fresh (dom (timeouts App st))) t); auto using fresh_timer.
Qed.

Lemma cancelMessageTimer_tracked (id : jsstring) st :
  timers_tracked st -> timers_tracked (cancelMessageTimer App id st).
Proof.
  intros H. unfold cancelMessageTimer.
  destruct (activeTimers App st !! id) as [timer|] eqn:E; [|exact H].
  now apply (tracked_unregister st _ id timer).
Qed.

Lemma cancelMessageTimer_balanced (id : jsstring) st :
  timers_balanced st -> timers_balanced (cancelMessageTimer App id st).
Proof.
  intros Hb. unfold cancelMessageTimer.
  destruct (activeTimers App st !! id) as [timer|] eqn:E; [|exact Hb].
  now apply (balanced_unregister st _ id timer).
Qed.

Lemma fire_tracked (timer : positive) st :
  timers_tracked st -> timers_tracked (snd (fire App timer st)).
Proof.
  intros H. destruct (timeouts App st !! timer) as [t|] eqn:E.
  - rewrite (fire_pending timer t st E).
    destruct (fst (onExpire App t (app App st))); cbn [snd].
    + apply (tracked_unregister st _ (messageId App t) timer);
        [exact H | now apply H | reflexivity | reflexivity].
    + now apply (tracked_drop st _ timer).
  - now rewrite fire_cleared.
Qed.

(** A timer that fires and whose callback returns leaves the timers in
    agreement. *)
Lemma fire_balanced (timer : positive) st :
  fst (fire App timer st) = Ok tt ->
  timers_balanced st -> timers_balanced (snd (fire App timer st)).
Proof.
  intros Hret Hb. destruct (timeouts App st !! timer) as [t|] eqn:E.
  - revert Hret. rewrite (fire_pending timer t st E).
    destruct (fst (onExpire App t (app App st))); cbn [fst snd];
      [intros _|discriminate].
    apply (balanced_unregister st _ (messageId App t) timer);
      [exact Hb | | reflexivity | reflexivity].
    now apply Hb.
  - now rewrite fire_cleared.
Qed.

Lemma clearTimeout_fields (timer : positive) st :
  activeTimers App (clearTimeout App timer st) = activeTimers App st /\
  app App (clearTimeout App timer st) = app App st /\
  timeouts App (clearTimeout App timer st) = delete timer (timeouts App st).
Proof. repeat split. Qed.

(** What the loop of [clearAllTimers] leaves. *)
Lemma clear_loop (l : list (jsstring * positive)) st :
  let st' := foldr (fun kv st => clearTimeout App (snd kv) st) st l in
  activeTimers App st' = activeTimers App st /\
  app App st' = app App st /\
  forall timer,
    timeouts App st' !! timer =
    if bool_decide (timer ∈ l.*2) then None else timeouts App st !! timer.
Proof.
  induction l as [|[id timer0] l IH]; cbv zeta; cbn [foldr].
  - repeat split.
  - destruct IH as (IH1 & IH2 & IH3). cbv zeta in IH1, IH2, IH3.
    cbn [snd].
    destruct (clearTimeout_fields timer0
                (foldr (fun kv st => clearTimeout App (snd kv) st) st l))
      as (E1 & E2 & E3).
    rewrite E1, E2, E3.
    split; [exact IH1|]. split; [exact IH2|]. intros timer.
    cbn [fmap list_fmap snd].
    destruct (decide (timer0 = timer)) as [->|Hne].
    + rewrite lookup_delete_eq.
      rewrite bool_decide_eq_true_2; [reflexivity | apply list_elem_of_here].
    + rewrite lookup_delete_ne by assumption. rewrite IH3.
      destruct (decide (timer ∈ l.*2)) as [Hin|Hout].
      * rewrite !bool_decide_eq_true_2;
          [reflexivity | now apply list_elem_of_further | exact Hin].
      * rewrite !bool_decide_eq_false_2; [reflexivity | | exact Hout].
        intros Hin. apply elem_of_cons in Hin. destruct Hin; congruence.
Qed.

Lemma registered_timers (timer : positive) st :
  timer ∈ (map_to_list (activeTimers App st)).*2 <->
  exists id, activeTimers App st !! id = Some timer.
Proof.
  rewrite list_elem_of_fmap. split.
  - intros ([id timer'] & -> & H). apply elem_of_map_to_list in H. eauto.
  - intros (id & H). exists (id, timer). split; [reflexivity|].
    now apply elem_of_map_to_list.
Qed.

Lemma clearAllTimers_lookup st :
  activeTimers App (clearAllTimers App st) = ∅ /\
  app App (clearAllTimers App st) = app App st /\
  forall timer,
    timeouts App (clearAllTimers App st) !! timer =
    if bool_decide (timer ∈ (map_to_list (activeTimers App st)).*2)
    then None else timeouts App st !! timer.
Proof.
  unfold clearAllTimers.
  destruct (clear_loop (map_to_list (activeTimers App st)) st) as (_ & Happ & Hto).
  cbv zeta in Happ, Hto.
  split; [reflexivity|]. split; [exact Happ | exact Hto].
Qed.

Lemma clearAllTimers_tracked_empty st :
  timers_tracked st -> timeouts App (clearAllTimers App st) = ∅.
Proof.
  intros H2. destruct (clearAllTimers_lookup st) as (_ & _ & Hto).
  apply map_empty. intros timer. rewrite Hto.
  destruct (timeouts App st !! timer) as [t|] eqn:E.
  - rewrite bool_decide_eq_true_2; [reflexivity|]. apply registered_timers.
    exists (messageId App t). now apply H2.
  - now destruct (bool_decide _).
Qed.

(** X18 (services/disappearingMessageService.ts, [clearAllTimers]): after
    [clearAllTimers] no message is registered and the timer of every
    message that was registered is cleared, so none of their callbacks can
    still run; no callback is run by the call, and a timer of the platform
    that the map did not hold is left pending.  When the map and the
    platform agreed before, no timer is pending afterwards. *)
Theorem clearAllTimers_clears st :
  let st' := clearAllTimers App st in
  getActiveTimerCount App st' = 0%nat /\
  (forall id timer,
     activeTimers App st !! id = Some timer -> timeouts App st' !! timer = None) /\
  (forall timer,
     (forall id, activeTimers App st !! id <> Some timer) ->
     timeouts App st' !! timer = timeouts App st !! timer) /\
  app App st' = app App st /\
  (timers_consistent st -> timeouts App st' = ∅).
Proof.
  cbv zeta. destruct (clearAllTimers_lookup st) as (Hat & Happ & Hto).
  split; [|split; [|split; [|split]]].
  - unfold getActiveTimerCount. rewrite Hat. apply map_size_empty.
  - intros id timer H. rewrite Hto, bool_decide_eq_true_2; [reflexivity|].
    apply registered_timers. eauto.
  - intros timer H. rewrite Hto, bool_decide_eq_false_2; [reflexivity|].
    rewrite registered_timers. intros (id & Hid). now apply (H id).
  - exact Happ.
  - intros [_ H]. now apply clearAllTimers_tracked_empty.
Qed.

Lemma clearAllTimers_balanced st :
  timers_tracked st -> timers_balanced (clearAllTimers App st).
Proof.
  intros Hc.
  destruct (clearAllTimers_lookup st) as (Hat & _ & _).
  pose proof (clearAllTimers_tracked_empty st Hc) as Hempty.
  unfold timers_balanced, timers_consistent, timers_tracked,
    getActiveTimerCount.
  rewrite Hempty, Hat. split; [split|].
  - intros id timer H. now rewrite lookup_empty in H.
  - intros timer t H. now rewrite lookup_empty in H.
  - now rewrite !map_size_empty.
Qed.

Lemma cleanup_loop_timers (messages : list Message.t) (conversationId : jsstring)
    (t_now : Z) (validMessages : list Message.t) st :
  let st' := snd (cleanup_loop App deleteMessage messages conversationId t_now
                    validMessages st) in
  activeTimers App st' = activeTimers App st /\
  timeouts App st' = timeouts App st /\
  app App st' = app App st.
Proof.
  destruct (cleanup_loop_spec deleteMessage messages conversationId t_now
              validMessages st) as (_ & _ & _ & _ & H1 & H2 & H3 & _).
  auto.
Qed.

Lemma cleanupExpiredMessages_maps (messages : list Message.t)
    (conversationId : jsstring) st :
  let st' := snd (cleanupExpiredMessages App deleteMessage messages
                    conversationId st) in
  activeTimers App st' = activeTimers App st /\
  timeouts App st' = timeouts App st.
Proof.
  cbv zeta. unfold cleanupExpiredMessages. cbn [Date_now].
  match goal with |- context [cleanup_loop App deleteMessage messages _ _ _ ?s] =>
    destruct (cleanup_loop_timers messages conversationId
                (clock App st (ticks App st)) [] s) as (E1 & E2 & _)
  end.
  split; [exact E1 | exact E2].
Qed.

Lemma getTimeRemaining_maps m st :
  activeTimers App (snd (getTimeRemaining App m st)) = activeTimers App st /\
  timeouts App (snd (getTimeRemaining App m st)) = timeouts App st.
Proof.
  unfold getTimeRemaining. destruct (falsy _); [auto|].
  cbn [Date_now snd]. auto.
Qed.

Lemma settle_maps (i : nat) st :
  activeTimers App (settle App i st) = activeTimers App st /\
  timeouts App (settle App i st) = timeouts App st.
Proof. destruct (settle_frame i st) as (_ & _ & H1 & H2 & _). auto. Qed.

(** [initializeTimers] keeps what [startMessageTimer] keeps. *)
Lemma initializeTimers_preserves (P : State App -> Prop)
    (messages : list Message.t) (f : jsstring -> Callback App) st :
  (forall st st',
     activeTimers App st' = activeTimers App st ->
     timeouts App st' = timeouts App st -> P st -> P st') ->
  (forall m cb st, P st -> P (snd (startMessageTimer App m cb st))) ->
  P st -> P (snd (initializeTimers App messages f st)).
Proof.
  intros Hsame Hstart. revert st.
  induction messages as [|message rest IH]; intros st Hb;
    cbn [initializeTimers]; [exact Hb|].
  destruct (falsy _); [now apply IH|].
  cbn [Date_now].
  match goal with |- context [initializeTimers App rest f ?s] =>
    assert (Hb' : P s) by (revert Hb; now apply Hsame)
  end.
  destruct (_ <? _); [|now apply IH].
  match goal with |- context [startMessageTimer App message ?c ?s] =>
    pose proof (Hstart message c s Hb') as Hs;
    destruct (startMessageTimer App message c s) as [[u|e] st_b]
  end; cbn [snd] in Hs |- *; [now apply IH | exact Hs].
Qed.

Lemma step_tracked st outcome st' :
  step deleteMessage st outcome st' -> timers_tracked st -> timers_tracked st'.
Proof.
  intros [message onExpire st0|id st0|st0|messages conversationId st0
         |message st0|messages onMessageExpire st0|timer st0|i st0].
  - apply startMessageTimer_tracked.
  - apply cancelMessageTimer_tracked.
  - intros H. now apply clearAllTimers_balanced.
  - apply tracked_same; apply cleanupExpiredMessages_maps.
  - apply tracked_same; apply getTimeRemaining_maps.
  - apply initializeTimers_preserves;
      [exact tracked_same | exact startMessageTimer_tracked].
  - apply fire_tracked.
  - apply tracked_same; apply settle_maps.
Qed.

Lemma step_balanced st outcome st' :
  step deleteMessage st outcome st' -> outcome = Ok tt ->
  timers_balanced st -> timers_balanced st'.
Proof.
  intros [message onExpire st0|id st0|st0|messages conversationId st0
         |message st0|messages onMessageExpire st0|timer st0|i st0] Hret.
  - apply startMessageTimer_balanced.
  - apply cancelMessageTimer_balanced.
  - intros H. now apply clearAllTimers_balanced, H.
  - apply balanced_same; apply cleanupExpiredMessages_maps.
  - apply balanced_same; apply getTimeRemaining_maps.
  - apply initializeTimers_preserves;
      [exact balanced_same | exact startMessageTimer_balanced].
  - now apply fire_balanced.
  - apply balanced_same; apply settle_maps.
Qed.

(** X15 (services/disappearingMessageService.ts, the module as a whole):
    started without timers, and whatever sequence of calls of
    [startMessageTimer], [cancelMessageTimer], [clearAllTimers],
    [cleanupExpiredMessages], [getTimeRemaining] and [initializeTimers], of
    timers firing and of promises settling follows, with callbacks that
    return or throw, every pending timer of the platform is the one
    registered for its message, so that the pending timers are no more
    than [getActiveTimerCount] says.  As long as no step has thrown, the
    map and the timers agree in full: every registered message has a
    pending timer set for it, and [getActiveTimerCount] is the number of
    pending timers. *)
Theorem reachable_timers_consistent outcomes st :
  reachable deleteMessage outcomes st ->
  timers_tracked st /\
  (size (timeouts App st) <= getActiveTimerCount App st)%nat /\
  (Forall (fun outcome => outcome = Ok tt) outcomes ->
   timers_consistent st /\
   getActiveTimerCount App st = size (timeouts App st)).
Proof.
  intros Hreach.
  assert (H : timers_tracked st /\
              (Forall (fun outcome => outcome = Ok tt) outcomes ->
               timers_balanced st)).
  { induction Hreach as [st Hat Hto|outcomes st outcome st' _ [IH1 IH2] Hstep].
    - split.
      + intros timer t H. now rewrite Hto, lookup_empty in H.
      + intros _. unfold timers_balanced, timers_consistent, timers_tracked,
          getActiveTimerCount. rewrite Hat, Hto. split; [split|].
        * intros id timer H. now rewrite lookup_empty in H.
        * intros timer t H. now rewrite lookup_empty in H.
        * now rewrite !map_size_empty.
    - split; [exact (step_tracked st outcome st' Hstep IH1)|].
      intros Hall. inversion Hall as [|? ? Hret Hrest]; subst.
      exact (step_balanced st _ st' Hstep eq_refl (IH2 Hrest)). }
  destruct H as [Htracked Hbalanced].
  split; [exact Htracked|]. split; [|exact Hbalanced].
  exact (tracked_size (messageId App) (timeouts App st) (activeTimers App st)
           Htracked).
Qed.

(** X16 (services/disappearingMessageService.ts, [cancelMessageTimer]):
    cancelling a registered message removes its entry, and only its entry,
    and clears its timer, and only its timer; the count goes down by one;
    the callback is not run by the call, and cannot run later: the platform
    firing the cleared timer changes nothing. *)
Theorem cancelMessageTimer_cancels (id : jsstring) (timer : positive) st :
  activeTimers App st !! id = Some timer ->
  let st' := cancelMessageTimer App id st in
  activeTimers App st' = delete id (activeTimers App st) /\
  timeouts App st' = delete timer (timeouts App st) /\
  getActiveTimerCount App st' = Nat.pred (getActiveTimerCount App st) /\
  app App st' = app App st /\
  fire App timer st' = (Ok tt, st').
Proof.
  intros Hid st'. subst st'. unfold cancelMessageTimer. rewrite Hid.
  split; [reflexivity|]. split; [reflexivity|]. split; [|split; [reflexivity|]].
  - unfold getActiveTimerCount.
    cbn [set_activeTimers activeTimers clearTimeout set_timeouts].
    apply map_size_delete_Some. eauto.
  - apply fire_cleared.
    cbn [set_activeTimers activeTimers clearTimeout set_timeouts timeouts].
    apply lookup_delete_eq.
Qed.

(** X17 (services/disappearingMessageService.ts, [startMessageTimer] and
    [cancelMessageTimer]): starting a timer for a message that is not yet
    expired and cancelling it again leaves the map and the timers of the
    platform as they were; the callback has not run and the timer that was
    set for the message does not fire. *)
Theorem start_then_cancel m cb st (t : Z) :
  Message.expiresAt m = Some t -> t <> 0 ->
  activeTimers App st !! Message.id m = None ->
  clock App st (ticks App st) < t ->
  let st1 := snd (startMessageTimer App m cb st) in
  let st2 := cancelMessageTimer App (Message.id m) st1 in
  fst (startMessageTimer App m cb st) = Ok tt /\
  is_Some (activeTimers App st1 !! Message.id m) /\
  activeTimers App st2 = activeTimers App st /\
  timeouts App st2 = timeouts App st /\
  app App st2 = app App st /\
  fire App (fresh (dom (timeouts App st))) st2 = (Ok tt, st2).
Proof.
  intros Ht Hnz Hnone Hfut st1 st2. subst st1 st2.
  rewrite (startMessageTimer_future m cb st t Ht Hnz Hnone Hfut).
  cbn [fst snd].
  unfold cancelMessageTimer. cbn [activeTimers].
  rewrite lookup_insert_eq.
  cbn [set_activeTimers activeTimers clearTimeout set_timeouts timeouts app].
  rewrite delete_insert_id by assumption.
  rewrite delete_insert_id by apply fresh_timer.
  split; [reflexivity|]. split; [eauto|]. do 3 (split; [reflexivity|]).
  apply fire_cleared.
  cbn [set_activeTimers clearTimeout set_timeouts timeouts].
  apply lookup_delete_eq.
Qed.

(** X21 (services/disappearingMessageService.ts, the closure that
    [startMessageTimer] gives to [setTimeout]): when the pending timer of a
    message fires, [onExpire] runs and the timer is no longer pending, so
    that firing it again does nothing.  If [onExpire] returns, the entry of
    the message is removed and the count goes down by one.  If [onExpire]
    throws, the closure ends before [activeTimers.delete]: the exception
    goes to the host and the entry stays without a pending timer, so that
    the map and the timers no longer agree; [startMessageTimer] for that
    message, whatever its [expiresAt] and callback, then returns without
    setting a timer or running the callback; [cancelMessageTimer] removes
    the entry. *)
Theorem fire_outcomes (timer : positive) (t : Timer App) st m cb :
  timeouts App st !! timer = Some t ->
  activeTimers App st !! messageId App t = Some timer ->
  Message.id m = messageId App t ->
  let r := fire App timer st in
  let st1 := snd r in
  (fst r, app App st1) = onExpire App t (app App st) /\
  timeouts App st1 = delete timer (timeouts App st) /\
  fire App timer st1 = (Ok tt, st1) /\
  (fst r = Ok tt ->
   activeTimers App st1 = delete (messageId App t) (activeTimers App st) /\
   getActiveTimerCount App st1 = Nat.pred (getActiveTimerCount App st)) /\
  (fst r <> Ok tt ->
   activeTimers App st1 = activeTimers App st /\
   ~ timers_consistent st1 /\
   startMessageTimer App m cb st1 = (Ok tt, st1) /\
   activeTimers App (cancelMessageTimer App (Message.id m) st1)
     = delete (messageId App t) (activeTimers App st) /\
   timeouts App (cancelMessageTimer App (Message.id m) st1)
     = timeouts App st1).
Proof.
  intros Ht Hreg Hid r st1. subst st1 r.
  rewrite (fire_pending timer t st Ht).
  destruct (onExpire App t (app App st)) as [[[]|e] a] eqn:Ecb;
    cbn [fst snd app timeouts activeTimers].
  - split; [reflexivity|]. split; [reflexivity|]. split.
    { apply fire_cleared. cbn [timeouts]. apply lookup_delete_eq. }
    split; [|intros H; now contradiction H].
    intros _. split; [reflexivity|].
    unfold getActiveTimerCount. cbn [activeTimers].
    apply map_size_delete_Some. eauto.
  - split; [reflexivity|]. split; [reflexivity|]. split.
    { apply fire_cleared. cbn [timeouts]. apply lookup_delete_eq. }
    split; [discriminate|]. intros _.
    split; [reflexivity|]. split; [|split; [|split]].
    + intros [H1 _]. destruct (H1 (messageId App t) timer) as (t' & Ht' & _).
      { exact Hreg. }
      cbn [timeouts] in Ht'. now rewrite lookup_delete_eq in Ht'.
    + apply startMessageTimer_registered. cbn [activeTimers].
      rewrite Hid, Hreg. eauto.
    + unfold cancelMessageTimer. cbn [activeTimers]. rewrite Hid, Hreg.
      reflexivity.
    + unfold cancelMessageTimer. cbn [activeTimers]. rewrite Hid, Hreg.
      cbn [set_activeTimers clearTimeout set_timeouts timeouts].
      apply delete_id, lookup_delete_eq.
Qed.

(** X19 (services/disappearingMessageService.ts, [getTimeRemaining] and
    [cleanupExpiredMessages]): [getTimeRemaining] returns [null] exactly
    for a message whose [expiresAt] is falsy, and never a negative number;
    it returns 0 exactly for a message that [cleanupExpiredMessages] drops
    at the same reading of the clock. *)
Theorem getTimeRemaining_expired m (conversationId : jsstring) st :
  let remaining := fst (getTimeRemaining App m st) in
  (remaining = None <-> falsy (Message.expiresAt m) = true) /\
  (forall v, remaining = Some v -> 0 <= v) /\
  (remaining = Some 0 <->
   fst (cleanupExpiredMessages App deleteMessage [m] conversationId st) = []).
Proof.
  cbv zeta. unfold getTimeRemaining, cleanupExpiredMessages.
  cbn [Date_now cleanup_loop].
  destruct (falsy (Message.expiresAt m)) eqn:Ef; cbn [negb andb fst app].
  - split; [tauto|]. split; [discriminate|]. split; discriminate.
  - split; [split; discriminate|].
    set (now_ := clock App st (ticks App st)).
    set (t := number (Message.expiresAt m)).
    destruct (Z.ltb_spec 0 (t - now_)) as [Hpos|Hle];
      destruct (Z.leb_spec t now_) as [Hexp|Hfut]; try lia; cbn [fst].
    + split; [intros v [= <-]; lia|]. split; [intros [= E]; lia | discriminate].
    + split; [intros v [= <-]; lia|]. split; reflexivity.
Qed.

(** X22 (services/disappearingMessageService.ts): the timestamp 0 counts
    as no expiry in every function of the service.  A message whose
    [expiresAt] is 0 gets no timer from [startMessageTimer] or
    [initializeTimers], is kept by [cleanupExpiredMessages] without a
    deletion being asked for, and has [null] time remaining, although the
    timestamp lies in the past. *)
Theorem zero_timestamp_never_expires m cb (f : jsstring -> Callback App)
    (conversationId : jsstring) st :
  Message.expiresAt m = Some 0 ->
  startMessageTimer App m cb st = (Ok tt, st) /\
  initializeTimers App [m] f st = (Ok tt, st) /\
  fst (cleanupExpiredMessages App deleteMessage [m] conversationId st) = [m] /\
  deletions App
    (snd (cleanupExpiredMessages App deleteMessage [m] conversationId st))
    = deletions App st /\
  getTimeRemaining App m st = (None, st).
Proof.
  intros H0. unfold startMessageTimer, cleanupExpiredMessages, getTimeRemaining.
  cbn [initializeTimers cleanup_loop Date_now]. rewrite H0.
  cbn [falsy Z.eqb orb negb andb]. repeat split.
Qed.

End TimerInvariant.

(** ** The display of the time remaining *)

Section Display.
Import DisappearingMessageService.

Lemma nested_floor (ms : Z) :
  ms / 1000 / 60 = ms / 60000 /\
  ms / 1000 / 60 / 60 = ms / 3600000 /\
  ms / 1000 / 60 / 60 / 24 = ms / 86400000.
Proof.
  rewrite !Z.div_div by lia. repeat split.
Qed.

(** X20 (services/disappearingMessageService.ts, [formatTimeRemaining]):
    for [null] and for a whole number of milliseconds that a [number]
    holds exactly (at most 2^53 - 1 in absolute value).  [null] is shown
    as the empty string and a time that is not positive as
    ['Expiring...']; a positive time is shown in the largest of the units
    day, hour, minute and second of which it holds at least one, as the
    whole number of such units, rounded down, so that less than a second is
    shown as [0s]. *)
Theorem formatTimeRemaining_units (ms : Z) :
  - MAX_SAFE_INTEGER <= ms <= MAX_SAFE_INTEGER ->
  formatTimeRemaining None = [] /\
  (ms <= 0 -> formatTimeRemaining (Some ms) = js "Expiring...") /\
  (0 < ms < 60000 ->
   formatTimeRemaining (Some ms) = Number_toString (ms / 1000) ++ js "s") /\
  (60000 <= ms < 3600000 ->
   formatTimeRemaining (Some ms) = Number_toString (ms / 60000) ++ js "m") /\
  (3600000 <= ms < 86400000 ->
   formatTimeRemaining (Some ms) = Number_toString (ms / 3600000) ++ js "h") /\
  (86400000 <= ms ->
   formatTimeRemaining (Some ms) = Number_toString (ms / 86400000) ++ js "d").
Proof.
  intros _.
  destruct (nested_floor ms) as (Em & Eh & Ed).
  unfold formatTimeRemaining. cbv zeta. rewrite Ed, Eh, Em.
  split; [reflexivity|].
  split; [intros H; now rewrite (proj2 (Z.leb_le ms 0) H)|].
  split; [|split; [|split]]; intros H;
    rewrite (proj2 (Z.leb_gt ms 0)) by lia.
  - rewrite (proj2 (Z.ltb_ge 0 (ms / 86400000))) by dlia.
    rewrite (proj2 (Z.ltb_ge 0 (ms / 3600000))) by dlia.
    now rewrite (proj2 (Z.ltb_ge 0 (ms / 60000))) by dlia.
  - rewrite (proj2 (Z.ltb_ge 0 (ms / 86400000))) by dlia.
    rewrite (proj2 (Z.ltb_ge 0 (ms / 3600000))) by dlia.
    now rewrite (proj2 (Z.ltb_lt 0 (ms / 60000))) by dlia.
  - rewrite (proj2 (Z.ltb_ge 0 (ms / 86400000))) by dlia.
    now rewrite (proj2 (Z.ltb_lt 0 (ms / 3600000))) by dlia.
  - now rewrite (proj2 (Z.ltb_lt 0 (ms / 86400000))) by dlia.
Qed.

Example formatTimeRemaining_examples :
  formatTimeRemaining (Some 119999) = js "1m" /\
  formatTimeRemaining (Some 999) = js "0s" /\
  formatTimeRemaining (Some 90000000) = js "1d" /\
  formatTimeRemaining (Some 0) = js "Expiring...".
Proof. vm_compute. repeat split. Qed.

Lemma formatTimeRemaining_units_witness :
  formatTimeRemaining (Some 7200000) = js "2h".
Proof.
  assert (Hsafe : - MAX_SAFE_INTEGER <= 7200000 <= MAX_SAFE_INTEGER)
    by (unfold MAX_SAFE_INTEGER; lia).
  rewrite (proj1 (proj2 (proj2 (proj2 (proj2
             (formatTimeRemaining_units 7200000 Hsafe))))));
    [reflexivity | lia].
Defined.

Lemma reachable_timers_consistent_witness :
  let st := snd (fire nat 1%positive
                   (snd (startMessageTimer nat Batch.m1
                           (Batch.throwing (js "m1")) Batch.idle))) in
  timers_tracked st /\
  (size (timeouts nat st) <= getActiveTimerCount nat st)%nat /\
  (Forall (fun outcome => outcome = Ok tt)
          [Rejected (Error "render failed"); Ok tt] ->
   timers_consistent st /\
   getActiveTimerCount nat st = size (timeouts nat st)).
Proof.
  apply (reachable_timers_consistent Batch.failing_sink).
  apply (reachable_step Batch.failing_sink [Ok tt]
           (snd (startMessageTimer nat Batch.m1 (Batch.throwing (js "m1"))
                   Batch.idle))
           (fst (fire nat 1%positive
                   (snd (startMessageTimer nat Batch.m1
                           (Batch.throwing (js "m1")) Batch.idle))))).
  - apply (reachable_step Batch.failing_sink [] Batch.idle
             (fst (startMessageTimer nat Batch.m1 (Batch.throwing (js "m1"))
                     Batch.idle))).
    + now apply reachable_start.
    + apply step_start.
  - apply step_fire.
Defined.

(** After the callback of "m1" has thrown, one message is registered and
    no timer is pending. *)
Example stale_entry :
  let st := snd (fire nat 1%positive
                   (snd (startMessageTimer nat Batch.m1
                           (Batch.throwing (js "m1")) Batch.idle))) in
  getActiveTimerCount nat st = 1%nat /\ size (timeouts nat st) = 0%nat.
Proof. split; reflexivity. Qed.

Lemma cancelMessageTimer_cancels_witness :
  let st := snd (startMessageTimer nat Batch.m1 (Batch.count (js "m1"))
                   Batch.idle) in
  let st' := cancelMessageTimer nat (js "m1") st in
  activeTimers nat st' = delete (js "m1") (activeTimers nat st) /\
  timeouts nat st' = delete 1%positive (timeouts nat st) /\
  getActiveTimerCount nat st' = Nat.pred (getActiveTimerCount nat st) /\
  app nat st' = app nat st /\
  fire nat 1%positive st' = (Ok tt, st').
Proof.
  apply (cancelMessageTimer_cancels (App := nat)). reflexivity.
Defined.

Lemma start_then_cancel_witness :
  let st1 := snd (startMessageTimer nat Batch.m1 (Batch.count (js "m1"))
                    Batch.idle) in
  let st2 := cancelMessageTimer nat (js "m1") st1 in
  fst (startMessageTimer nat Batch.m1 (Batch.count (js "m1")) Batch.idle)
    = Ok tt /\
  is_Some (activeTimers nat st1 !! js "m1") /\
  activeTimers nat st2 = ∅ /\
  timeouts nat st2 = ∅ /\
  app nat st2 = 0%nat /\
  fire nat (fresh (dom (timeouts nat Batch.idle))) st2 = (Ok tt, st2).
Proof.
  apply (start_then_cancel (App := nat) Batch.m1 (Batch.count (js "m1"))
           Batch.idle 1700000060000); [reflexivity | discriminate | reflexivity |].
  cbn. lia.
Defined.

Lemma fire_outcomes_witness :
  let st := snd (startMessageTimer nat Batch.m1 (Batch.throwing (js "m1"))
                   Batch.idle) in
  let r := fire nat 1%positive st in
  fst r = Rejected (Error "render failed") /\
  app nat (snd r) = 1%nat /\
  activeTimers nat (snd r) = activeTimers nat st /\
  timeouts nat (snd r) = ∅ /\
  startMessageTimer nat Batch.m1 (Batch.count (js "again")) (snd r)
    = (Ok tt, snd r).
Proof.
  cbv zeta.
  destruct (fire_outcomes (App := nat) 1%positive
              {| onExpire := Batch.throwing (js "m1"); messageId := js "m1";
                 delay := 60000 |}
              (snd (startMessageTimer nat Batch.m1 (Batch.throwing (js "m1"))
                      Batch.idle))
              Batch.m1 (Batch.count (js "again")))
    as (Hrun & Hto & _ & _ & Hthrown); [reflexivity..|].
  pose proof (f_equal fst Hrun) as Hret.
  pose proof (f_equal snd Hrun) as Happ.
  destruct Hthrown as (Hat & _ & Hstart & _); [discriminate|].
  split; [exact Hret|]. split; [exact Happ|]. split; [exact Hat|].
  split; [rewrite Hto; reflexivity | exact Hstart].
Defined.

Lemma getTimeRemaining_expired_witness :
  fst (getTimeRemaining nat Batch.m2 Batch.idle) = Some 0 /\
  fst (getTimeRemaining nat Batch.m1 Batch.idle) = Some 60000 /\
  fst (getTimeRemaining nat Batch.m3 Batch.idle) = None.
Proof.
  split; [|split; [reflexivity|]].
  - apply (proj2 (proj2 (getTimeRemaining_expired (App := nat)
                           Batch.failing_sink Batch.m2 (js "c1") Batch.idle))).
    reflexivity.
  - apply (proj1 (getTimeRemaining_expired (App := nat)
                    Batch.failing_sink Batch.m3 (js "c1") Batch.idle)).
    reflexivity.
Defined.

Lemma zero_timestamp_never_expires_witness :
  startMessageTimer nat m0 (Batch.count (js "m0")) Batch.idle
    = (Ok tt, Batch.idle) /\
  initializeTimers nat [m0] Batch.count Batch.idle = (Ok tt, Batch.idle) /\
  fst (cleanupExpiredMessages nat Batch.failing_sink [m0] (js "c1") Batch.idle)
    = [m0] /\
  deletions nat
    (snd (cleanupExpiredMessages nat Batch.failing_sink [m0] (js "c1") Batch.idle))
    = [] /\
  getTimeRemaining nat m0 Batch.idle = (None, Batch.idle).
Proof.
  apply (zero_timestamp_never_expires (App := nat) Batch.failing_sink).
  reflexivity.
Defined.

Lemma clearAllTimers_clears_witness :
  let st := snd (startMessageTimer nat Batch.m1 (Batch.count (js "m1"))
                   Batch.idle) in
  getActiveTimerCount nat st = 1%nat /\
  getActiveTimerCount nat (clearAllTimers nat st) = 0%nat /\
  timeouts nat (clearAllTimers nat st) !! 1%positive = None.
Proof.
  cbv zeta. split; [reflexivity|].
  destruct (clearAllTimers_clears (App := nat)
              (snd (startMessageTimer nat Batch.m1 (Batch.count (js "m1"))
                      Batch.idle)))
    as (Hcount & Hcleared & _).
  split; [exact Hcount|].
  apply (Hcleared (js "m1")). reflexivity.
Defined.

End Display.

(** ** Password validation *)

Section PasswordProofs.
Import PasswordValidation.

Lemma test_range_spec (lo hi : ascii) (s : jsstring) :
  test_range lo hi s = true <->
  exists c, c ∈ s /\ code lo <= c <= code hi.
Proof.
  unfold test_range. rewrite existsb_exists. split.
  - intros (c & Hin & Hc). exists c. split; [now apply list_elem_of_In|].
    apply andb_true_iff in Hc. rewrite !Z.leb_le in Hc. exact Hc.
  - intros (c & Hin & Hc). exists c. split; [now apply list_elem_of_In|].
    apply andb_true_iff. now rewrite !Z.leb_le.
Qed.

Lemma validatePassword_valid_eq (password : jsstring) :
  valid (validatePassword password) =
  negb (Encryption.empty password || (Z.of_nat (List.length password) <? 12))
  && test_range "A" "Z" password && test_range "a" "z" password
  && test_range "0" "9" password.
Proof.
  unfold validatePassword.
  cbn [minLength requireUppercase requireLowercase requireNumber requireSpecial
       PASSWORD_REQUIREMENTS andb].
  destruct (Encryption.empty password || _), (test_range "A" "Z" password),
    (test_range "a" "z" password), (test_range "0" "9" password); reflexivity.
Qed.

(** X23 (core/auth/passwordValidation.ts, [validatePassword]): a password
    is valid exactly when it has at least 12 code units and contains an
    uppercase letter A-Z, a lowercase letter a-z and a digit 0-9; no special
    character is asked for, and an invalid password comes with at least one
    and at most four error messages. *)
Theorem validatePassword_valid (password : jsstring) :
  (valid (validatePassword password) = true <->
   (12 <= List.length password)%nat /\
   (exists c, c ∈ password /\ 65 <= c <= 90) /\
   (exists c, c ∈ password /\ 97 <= c <= 122) /\
   (exists c, c ∈ password /\ 48 <= c <= 57)) /\
  (valid (validatePassword password) = false <->
   (1 <= List.length (errors (validatePassword password)) <= 4)%nat).
Proof.
  split.
  - rewrite validatePassword_valid_eq, !andb_true_iff, negb_true_iff,
      orb_false_iff, Z.ltb_ge, !test_range_spec.
    change (code "A") with 65. change (code "Z") with 90.
    change (code "a") with 97. change (code "z") with 122.
    change (code "0") with 48. change (code "9") with 57.
    split.
    + intros [[[[_ Hlen] Hu] Hl] Hd]. repeat split; try assumption. lia.
    + intros (Hlen & Hu & Hl & Hd). repeat split; try assumption; [|lia].
      destruct password; [cbn in Hlen; lia | reflexivity].
  - unfold validatePassword.
    cbn [minLength requireUppercase requireLowercase requireNumber
         requireSpecial PASSWORD_REQUIREMENTS andb valid errors].
    destruct (Encryption.empty password || _), (test_range "A" "Z" password),
      (test_range "a" "z" password), (test_range "0" "9" password);
      cbn [negb push_if List.length List.app Nat.eqb]; split;
      first [reflexivity | discriminate | lia | intros; lia].
Qed.

Lemma validatePassword_valid_witness :
  valid (validatePassword (js "CorrectHorse42")) = true /\
  valid (validatePassword (js "correct horse")) = false.
Proof.
  split.
  - apply (proj1 (validatePassword_valid (js "CorrectHorse42"))).
    split; [cbn; lia|].
    split; [exists 67; split; [apply list_elem_of_here | lia]|].
    split; [exists 111; split;
            [apply list_elem_of_further, list_elem_of_here | lia]|].
    exists 52. split; [|lia]. apply list_elem_of_In. cbn. tauto.
  - apply (proj2 (validatePassword_valid (js "correct horse"))).
    vm_compute. lia.
Defined.

Example validatePassword_empty :
  errors (validatePassword []) =
  [js "Password must be at least 12 characters";
   js "Password must contain at least one uppercase letter";
   js "Password must contain at least one lowercase letter";
   js "Password must contain at least one number"].
Proof. vm_compute. reflexivity. Qed.

Example getPasswordRequirementsText_value :
  getPasswordRequirementsText =
  [js "At least 12 characters long";
   js "At least one uppercase letter (A-Z)";
   js "At least one lowercase letter (a-z)";
   js "At least one number (0-9)"].
Proof. vm_compute. reflexivity. Qed.

End PasswordProofs.

(** ** The group service *)

Section GroupServiceProofs.
Context `{P : Platform}.
Context (L : PlatformLaws P).
Context (not_found : JsError).

Implicit Types (s : Firestore.Store) (w : World).

Lemma getConversation_eq (groupId : jsstring) s w :
  ConversationService.getConversation groupId s w =
  (Ok (ConversationService.documentToConversation groupId
         <$> Firestore.conversations s !! groupId), s, w).
Proof.
  unfold ConversationService.getConversation, Firestore.sbind,
    Firestore.conversation_get.
  now destruct (Firestore.conversations s !! groupId).
Qed.

Lemma stored_group_data (groupId : jsstring) s (c : Conversation.t) :
  stored_group s groupId = Some c ->
  exists data,
    Firestore.conversations s !! groupId = Some data /\
    Firestore.type data = group /\
    c = ConversationService.documentToConversation groupId data.
Proof.
  unfold stored_group, GroupService.as_group.
  destruct (Firestore.conversations s !! groupId) as [data|]; [|discriminate].
  cbn [fmap option_fmap option_map].
  destruct (Conversation.type _) eqn:E; [discriminate|].
  intros [= <-]. eauto.
Qed.

(** The first step of a function of the group service: it reads the
    conversation. *)
Ltac svc_start :=
  unfold Firestore.sbind at 1; rewrite getConversation_eq;
  match goal with
  | |- context [GroupService.as_group
                  (ConversationService.documentToConversation ?g
                     <$> Firestore.conversations ?s !! ?g)] =>
    change (GroupService.as_group
              (ConversationService.documentToConversation g
                 <$> Firestore.conversations s !! g))
      with (stored_group s g)
  end.

(** X24 (services/groupService.ts, [removeMember]): the guards.  Without a
    group under the identifier the call rejects with ['Group not found'];
    for a caller who is not an admin with ['Only admins can remove
    members']; and when the member to remove is an admin and the only one,
    with ['Cannot remove the last admin'].  In each case nothing is written
    and no random number is drawn. *)
Theorem removeMember_guards (groupId adminId memberIdToRemove : jsstring) s w :
  let outcome :=
    GroupService.removeMember not_found groupId adminId memberIdToRemove s w in
  (stored_group s groupId = None ->
   outcome = (Rejected (Error "Group not found"), s, w)) /\
  (forall c,
     stored_group s groupId = Some c ->
     GroupService.is_admin c adminId = false ->
     outcome = (Rejected (Error "Only admins can remove members"), s, w)) /\
  (forall c,
     stored_group s groupId = Some c ->
     GroupService.is_admin c adminId = true ->
     GroupService.is_admin c memberIdToRemove = true ->
     GroupService.admin_count c = 1%nat ->
     outcome = (Rejected (Error "Cannot remove the last admin"), s, w)).
Proof.
  cbv zeta. split; [|split].
  - intros Hg. unfold GroupService.removeMember; svc_start. now rewrite Hg.
  - intros c Hg Hadmin. unfold GroupService.removeMember; svc_start.
    now rewrite Hg, Hadmin.
  - intros c Hg Hadmin Hmember Hcount. unfold GroupService.removeMember; svc_start.
    now rewrite Hg, Hadmin, Hmember, Hcount.
Qed.

Lemma stored_group_of_data (groupId : jsstring) s
    (data : Firestore.ConversationData) :
  Firestore.conversations s !! groupId = Some data ->
  Firestore.type data = group ->
  stored_group s groupId
    = Some (ConversationService.documentToConversation groupId data).
Proof.
  intros Hdata Htype. unfold stored_group. rewrite Hdata.
  cbn [fmap option_fmap option_map GroupService.as_group
       ConversationService.documentToConversation Conversation.type].
  now rewrite Htype.
Qed.

Lemma filter_other (m : gmap jsstring ParticipantKey.t) (id : jsstring) :
  filter (fun entry : jsstring * ParticipantKey.t => fst entry <> id) m
  = delete id m.
Proof.
  apply map_eq. intros i. destruct (decide (id = i)) as [->|Hne].
  - rewrite lookup_delete_eq. apply map_lookup_filter_None. right.
    intros x _ Hx. now apply Hx.
  - rewrite lookup_delete_ne by assumption.
    destruct (m !! i) as [x|] eqn:E.
    + apply map_lookup_filter_Some. split; [exact E|]. cbn. congruence.
    + apply map_lookup_filter_None. now left.
Qed.

Lemma removeGroupMember_eq (groupId memberId : jsstring) s w
    (data : Firestore.ConversationData) :
  Firestore.conversations s !! groupId = Some data ->
  ConversationService.removeGroupMember not_found groupId memberId s w =
  (Ok tt,
   {| Firestore.conversations :=
        <[groupId := Firestore.remove_participant memberId
                       (delete memberId (Firestore.participantKeys data))
                       (Date_now w) data]> (Firestore.conversations s);
      Firestore.messages := Firestore.messages s;
      Firestore.groupKeys := Firestore.groupKeys s;
      Firestore.users := Firestore.users s |},
   w).
Proof.
  intros Hdata.
  unfold ConversationService.removeGroupMember, Firestore.sbind,
    Firestore.conversation_get, Firestore.lift, now,
    Firestore.conversation_update.
  rewrite Hdata. cbv beta iota. now rewrite Hdata.
Qed.

Lemma conversation_update_eq (groupId : jsstring)
    (fields : Firestore.ConversationData -> Firestore.ConversationData) s w
    (data : Firestore.ConversationData) :
  Firestore.conversations s !! groupId = Some data ->
  Firestore.conversation_update not_found groupId fields s w =
  (Ok tt,
   {| Firestore.conversations :=
        <[groupId := fields data]> (Firestore.conversations s);
      Firestore.messages := Firestore.messages s;
      Firestore.groupKeys := Firestore.groupKeys s;
      Firestore.users := Firestore.users s |},
   w).
Proof.
  intros Hdata. unfold Firestore.conversation_update. now rewrite Hdata.
Qed.

(** X25 (services/groupService.ts, [removeMember], with
    [removeGroupMember] of services/conversationService.ts and
    [rotateGroupKey]): an admin removes a member who is not the last admin,
    the remaining members having generated identities.  The call resolves
    with a new group key.  In the stored conversation the member is gone
    from [participants] and [participantKeys]; [groupKeyDistribution] is
    replaced by the entries of a new bundle, one for each remaining member
    and none for the one removed, from which every remaining member
    recovers the new key; [groupKeyId] names the bundle, which is also
    written to the key history; [adminIds] is left as it was. *)
Theorem removeMember_rotates (groupId adminId memberIdToRemove : jsstring)
    (data : Firestore.ConversationData) (remaining : gmap jsstring KeyPair.t)
    s w :
  Firestore.conversations s !! groupId = Some data ->
  Firestore.type data = group ->
  GroupService.is_admin
    (ConversationService.documentToConversation groupId data) adminId = true ->
  GroupService.is_admin
    (ConversationService.documentToConversation groupId data) memberIdToRemove
  && (GroupService.admin_count
        (ConversationService.documentToConversation groupId data) =? 1)%nat
  = false ->
  participant <$> remaining
    = delete memberIdToRemove (Firestore.participantKeys data) ->
  (forall m kp, remaining !! m = Some kp -> generated kp) ->
  exists groupKey bundle data' s' w',
    GroupService.removeMember not_found groupId adminId memberIdToRemove s w
      = (Ok groupKey, s', w') /\
    Firestore.conversations s' = <[groupId := data']> (Firestore.conversations s) /\
    Firestore.groupKeys s'
      = <[(groupId, GroupKeyBundle.keyId bundle) := bundle]> (Firestore.groupKeys s) /\
    Firestore.participants data'
      = Firestore.arrayRemove memberIdToRemove (Firestore.participants data) /\
    Firestore.participantKeys data'
      = delete memberIdToRemove (Firestore.participantKeys data) /\
    Firestore.adminIds data' = Firestore.adminIds data /\
    Firestore.groupKeyId data' = Some (GroupKeyBundle.keyId bundle) /\
    Firestore.groupKeyDistribution data'
      = Some (GroupKeyBundle.encryptedKeys bundle) /\
    GroupKeyBundle.createdBy bundle = adminId /\
    GroupKeyBundle.encryptedKeys bundle !! memberIdToRemove = None /\
    dom (GroupKeyBundle.encryptedKeys bundle) = dom remaining /\
    (forall m kp,
       remaining !! m = Some kp ->
       exists ek,
         GroupKeyBundle.encryptedKeys bundle !! m = Some ek /\
         GroupKeys.decryptGroupKey ek (KeyPair.privateKey kp) = Ok groupKey).
Proof.
  intros Hdata Htype Hadmin Hlast Hrem Hgen.
  destruct (createGroupKeyBundle_spec L remaining adminId w Hgen)
    as (bundle & w' & Hrot & Hby & Hdom & Hkeys).
  set (groupKey := {| aes_raw := fst (random_bytes 32 w);
                      aes_extractable := true;
                      aes_usages := [encrypt; decrypt] |}) in *.
  set (data1 := Firestore.remove_participant memberIdToRemove
                  (delete memberIdToRemove (Firestore.participantKeys data))
                  (Date_now w) data).
  exists groupKey, bundle,
    (Firestore.set_groupKey (GroupKeyBundle.keyId bundle)
       (GroupKeyBundle.encryptedKeys bundle) data1).
  eexists. exists w'.
  split.
  { unfold GroupService.removeMember; svc_start.
    rewrite (stored_group_of_data groupId s data Hdata Htype).
    rewrite Hadmin. cbn [negb]. rewrite Hlast.
    unfold Firestore.sbind at 1.
    rewrite (removeGroupMember_eq groupId memberIdToRemove s w data Hdata).
    fold data1.
    cbn [ConversationService.documentToConversation Conversation.participantKeys].
    rewrite filter_other, <- Hrem.
    unfold Firestore.sbind at 1. unfold Firestore.lift at 1.
    unfold GroupKeys.rotateGroupKey. rewrite Hrot. cbn [fst snd].
    unfold Firestore.sbind at 1.
    erewrite conversation_update_eq
      by (cbn [Firestore.conversations]; apply lookup_insert_eq).
    cbn [Firestore.conversations Firestore.messages Firestore.groupKeys Firestore.users].
    unfold Firestore.sbind, Firestore.groupKey_set, Firestore.sret.
    cbn [Firestore.conversations Firestore.messages Firestore.groupKeys Firestore.users].
    rewrite insert_insert_eq. reflexivity. }
  cbn [Firestore.conversations Firestore.groupKeys].
  do 8 (split; [reflexivity || exact Hby|]).
  assert (Hout : remaining !! memberIdToRemove = None).
  { apply (f_equal (fun m => m !! memberIdToRemove)) in Hrem.
    rewrite lookup_fmap, lookup_delete_eq in Hrem.
    now destruct (remaining !! memberIdToRemove). }
  split; [|split; [exact Hdom | exact Hkeys]].
  apply not_elem_of_dom. rewrite Hdom. now apply not_elem_of_dom.
Qed.

(** X26 (services/groupService.ts, [leaveGroup], with [removeGroupMember]
    of services/conversationService.ts): leaving does not rotate the group
    key.  Whatever the outcome, the key history and the other conversations
    are untouched, and the conversation keeps its [groupKeyDistribution],
    with the entry of the member who leaves, its [groupKeyId] and its
    [adminIds].  The call is refused, with nothing written, for the only
    admin of a group that has other participants; for every other member of
    a group it resolves, and the member is then gone from [participants]
    and [participantKeys]. *)
Theorem leaveGroup_keeps_key (groupId userId : jsstring) s w :
  let r := GroupService.leaveGroup not_found groupId userId s w in
  let s' := snd (fst r) in
  Firestore.groupKeys s' = Firestore.groupKeys s /\
  (forall id, id <> groupId ->
     Firestore.conversations s' !! id = Firestore.conversations s !! id) /\
  (forall data,
     Firestore.conversations s !! groupId = Some data ->
     exists data',
       Firestore.conversations s' !! groupId = Some data' /\
       Firestore.groupKeyDistribution data' = Firestore.groupKeyDistribution data /\
       Firestore.groupKeyId data' = Firestore.groupKeyId data /\
       Firestore.adminIds data' = Firestore.adminIds data /\
       (fst (fst r) = Ok tt ->
        Firestore.participants data'
          = Firestore.arrayRemove userId (Firestore.participants data) /\
        Firestore.participantKeys data'
          = delete userId (Firestore.participantKeys data))) /\
  (forall c,
     stored_group s groupId = Some c ->
     (if GroupService.is_admin c userId
         && (GroupService.admin_count c =? 1)%nat
         && (1 <? List.length (Conversation.participants c))%nat
      then r = (Rejected (Error
                  "You are the last admin. Please promote another member before leaving."),
                s, w)
      else fst (fst r) = Ok tt)) /\
  (stored_group s groupId = None ->
   r = (Rejected (Error "Group not found"), s, w)).
Proof.
  cbv zeta.
  assert (Hsame : forall e,
            GroupService.leaveGroup not_found groupId userId s w
              = (Rejected e, s, w) ->
            Firestore.groupKeys
              (snd (fst (GroupService.leaveGroup not_found groupId userId s w)))
              = Firestore.groupKeys s /\
            (forall id, id <> groupId ->
               Firestore.conversations
                 (snd (fst (GroupService.leaveGroup not_found groupId userId s w)))
                 !! id = Firestore.conversations s !! id) /\
            (forall data,
               Firestore.conversations s !! groupId = Some data ->
               exists data',
                 Firestore.conversations
                   (snd (fst (GroupService.leaveGroup not_found groupId userId s w)))
                   !! groupId = Some data' /\
                 Firestore.groupKeyDistribution data'
                   = Firestore.groupKeyDistribution data /\
                 Firestore.groupKeyId data' = Firestore.groupKeyId data /\
                 Firestore.adminIds data' = Firestore.adminIds data /\
                 (fst (fst (GroupService.leaveGroup not_found groupId userId s w))
                    = Ok tt ->
                  Firestore.participants data'
                    = Firestore.arrayRemove userId (Firestore.participants data) /\
                  Firestore.participantKeys data'
                    = delete userId (Firestore.participantKeys data)))).
  { intros e ->. cbn [fst snd]. split; [reflexivity|]. split; [reflexivity|].
    intros data Hdata. exists data. repeat split; try assumption; discriminate. }
  destruct (stored_group s groupId) as [c|] eqn:Hg.
  2:{ assert (E : GroupService.leaveGroup not_found groupId userId s w
                  = (Rejected (Error "Group not found"), s, w)).
      { unfold GroupService.leaveGroup; svc_start. now rewrite Hg. }
      destruct (Hsame _ E) as (H1 & H2 & H3).
      split; [exact H1|]. split; [exact H2|]. split; [exact H3|].
      split; [discriminate | intros _; exact E]. }
  destruct (stored_group_data groupId s c Hg) as (data0 & Hdata0 & Htype & ->).
  set (c := ConversationService.documentToConversation groupId data0) in *.
  destruct (GroupService.is_admin c userId
            && (GroupService.admin_count c =? 1)%nat
            && (1 <? List.length (Conversation.participants c))%nat) eqn:Hguard.
  - assert (E : GroupService.leaveGroup not_found groupId userId s w
                = (Rejected (Error
                     "You are the last admin. Please promote another member before leaving."),
                   s, w)).
    { unfold GroupService.leaveGroup; svc_start. rewrite Hg.
      fold c. now rewrite Hguard. }
    destruct (Hsame _ E) as (H1 & H2 & H3).
    split; [exact H1|]. split; [exact H2|]. split; [exact H3|].
    split; [|discriminate]. intros c' [= <-]. now rewrite Hguard.
  - assert (E : GroupService.leaveGroup not_found groupId userId s w
                = (Ok tt,
                   {| Firestore.conversations :=
                        <[groupId := Firestore.remove_participant userId
                                       (delete userId (Firestore.participantKeys data0))
                                       (Date_now w) data0]>
                          (Firestore.conversations s);
                      Firestore.messages := Firestore.messages s;
      Firestore.groupKeys := Firestore.groupKeys s;
                      Firestore.users := Firestore.users s |},
                   w)).
    { unfold GroupService.leaveGroup; svc_start. rewrite Hg.
      fold c. rewrite Hguard.
      apply (removeGroupMember_eq groupId userId s w data0 Hdata0). }
    rewrite E. cbn [fst snd Firestore.groupKeys Firestore.conversations].
    split; [reflexivity|]. split; [|split; [|split]].
    + intros id Hne. now rewrite lookup_insert_ne by congruence.
    + intros data Hdata. rewrite Hdata0 in Hdata. injection Hdata as <-.
      eexists. split; [apply lookup_insert_eq|]. repeat split.
    + intros c' [= <-]. now rewrite Hguard.
    + discriminate.
Qed.

Lemma getUserById_eq (userId : jsstring) s w (user : Firestore.UserData) :
  Firestore.users s !! userId = Some user ->
  AuthService.getUserById userId s w =
  (Ok (Some {| User.id := userId;
               User.email := Firestore.user_email user;
               User.displayName := Firestore.user_displayName user;
               User.publicKey := Firestore.user_publicKey user;
               User.publicKeyId := Firestore.user_publicKeyId user;
               User.fcmToken := Firestore.user_fcmToken user;
               User.createdAt := Firestore.user_createdAt user;
               User.lastSeen := Firestore.user_lastSeen user |}), s, w).
Proof.
  intros Hu. unfold AuthService.getUserById, Firestore.sbind,
    Firestore.user_get. now rewrite Hu.
Qed.

Lemma getUserById_missing (userId : jsstring) s w :
  Firestore.users s !! userId = None ->
  AuthService.getUserById userId s w = (Ok None, s, w).
Proof.
  intros Hu. unfold AuthService.getUserById, Firestore.sbind,
    Firestore.user_get. now rewrite Hu.
Qed.

Section Device.
Context (getPrivateKey : jsstring -> option JsonWebKey).

Lemma getGroupKey_eq (groupId userId : jsstring) s w
    (data : Firestore.ConversationData) (keys : gmap jsstring jsstring)
    (encryptedKey : jsstring) (privateKey : JsonWebKey) (groupKey : AesKey) :
  Firestore.conversations s !! groupId = Some data ->
  Firestore.type data = group ->
  Firestore.groupKeyDistribution data = Some keys ->
  keys !! userId = Some encryptedKey ->
  encryptedKey <> [] ->
  getPrivateKey userId = Some privateKey ->
  GroupKeys.decryptGroupKey encryptedKey privateKey = Ok groupKey ->
  GroupService.getGroupKey getPrivateKey groupId userId s w
    = (Ok (Some groupKey), s, w).
Proof.
  intros Hdata Htype Hdist Hkey Hne Hpriv Hdec.
  unfold GroupService.getGroupKey; svc_start.
  rewrite (stored_group_of_data groupId s data Hdata Htype).
  cbn [ConversationService.documentToConversation
       Conversation.groupKeyDistribution].
  rewrite Hdist, Hkey.
  destruct encryptedKey as [|c0 rest]; [contradiction|].
  cbn [Encryption.empty]. rewrite Hpriv.
  unfold Firestore.sbind, Firestore.lift, await, Firestore.sret.
  now rewrite Hdec.
Qed.

(** X27 (services/groupService.ts, [addMember] and [getGroupKey], with
    [addGroupMember] of services/conversationService.ts and
    [addMemberToGroup]): an admin who holds the group key adds a user with
    a generated identity.  The call resolves; the stored conversation lists
    the new member in [participants] and [participantKeys], and
    [groupKeyDistribution] keeps every entry and gains one for the new
    member, from which the new member recovers the group key of the admin:
    the key is not rotated when a member is added. *)
Theorem addMember_shares_key (groupId adminId newMemberId : jsstring)
    (data : Firestore.ConversationData) (keys : gmap jsstring jsstring)
    (encryptedKey : jsstring) (privateKey : JsonWebKey) (groupKey : AesKey)
    (user : Firestore.UserData) (kp : KeyPair.t) s w :
  Firestore.conversations s !! groupId = Some data ->
  Firestore.type data = group ->
  GroupService.is_admin
    (ConversationService.documentToConversation groupId data) adminId = true ->
  Firestore.groupKeyDistribution data = Some keys ->
  keys !! adminId = Some encryptedKey ->
  encryptedKey <> [] ->
  getPrivateKey adminId = Some privateKey ->
  GroupKeys.decryptGroupKey encryptedKey privateKey = Ok groupKey ->
  Firestore.users s !! newMemberId = Some user ->
  generated kp ->
  Firestore.user_publicKey user = KeyPair.publicKey kp ->
  exists encryptedKeyForNewMember data' s' w',
    GroupService.addMember not_found getPrivateKey groupId adminId newMemberId s w
      = (Ok tt, s', w') /\
    Firestore.conversations s' = <[groupId := data']> (Firestore.conversations s) /\
    Firestore.groupKeys s' = Firestore.groupKeys s /\
    Firestore.participants data'
      = Firestore.arrayUnion newMemberId (Firestore.participants data) /\
    Firestore.participantKeys data'
      = <[newMemberId := {| ParticipantKey.publicKey := Firestore.user_publicKey user;
                            ParticipantKey.keyId := Firestore.user_publicKeyId user |}]>
          (Firestore.participantKeys data) /\
    Firestore.groupKeyId data' = Firestore.groupKeyId data /\
    Firestore.groupKeyDistribution data'
      = Some (<[newMemberId := encryptedKeyForNewMember]> keys) /\
    GroupKeys.decryptGroupKey encryptedKeyForNewMember (KeyPair.privateKey kp)
      = Ok groupKey.
Proof.
  intros Hdata Htype Hadmin Hdist Hkey Hne Hpriv Hdec Huser (w0 & w1 & Hkp) Hpub.
  destruct (generateUserKeyPair_keys w0 w1 kp Hkp) as [Epub Epriv].
  assert (Hmade : group_key_made groupKey) by (right; eauto).
  destruct (group_key_made_attributes L groupKey Hmade) as (Hsize & Hex & Hus).
  destruct (addMemberToGroup_wraps L groupKey w0 w Hsize Hex Hus)
    as (ek & Hadd & Hrec).
  set (wa := snd (random_bytes 32 w)) in *.
  set (pk := {| ParticipantKey.publicKey := Firestore.user_publicKey user;
                ParticipantKey.keyId := Firestore.user_publicKeyId user |}).
  exists ek,
    (Firestore.set_groupKey_entry newMemberId ek
       (Firestore.add_participant newMemberId pk (Date_now wa) data)).
  eexists. exists wa.
  split.
  { unfold GroupService.addMember; svc_start.
    rewrite (stored_group_of_data groupId s data Hdata Htype).
    rewrite Hadmin. cbn [negb].
    unfold Firestore.sbind at 1.
    rewrite (getGroupKey_eq groupId adminId s w data keys encryptedKey
               privateKey groupKey Hdata Htype Hdist Hkey Hne Hpriv Hdec).
    unfold Firestore.sbind at 1.
    rewrite (getUserById_eq newMemberId s w user Huser).
    cbn [User.publicKey]. rewrite Hpub, Epub.
    unfold Firestore.sbind at 1. unfold Firestore.lift at 1. rewrite Hadd.
    unfold Firestore.sbind at 1.
    unfold ConversationService.addGroupMember.
    unfold Firestore.sbind at 1.
    rewrite (getUserById_eq newMemberId s wa user Huser).
    unfold Firestore.sbind at 1. unfold Firestore.lift at 1. unfold now at 1.
    cbn [User.publicKey User.publicKeyId]. fold pk.
    rewrite (conversation_update_eq groupId _ s wa data Hdata).
    erewrite conversation_update_eq
      by (cbn [Firestore.conversations]; apply lookup_insert_eq).
    cbn [Firestore.conversations Firestore.messages Firestore.groupKeys Firestore.users].
    rewrite insert_insert_eq. reflexivity. }
  cbn [Firestore.conversations Firestore.groupKeys
       Firestore.set_groupKey_entry Firestore.add_participant
       Firestore.participants Firestore.participantKeys Firestore.groupKeyId
       Firestore.groupKeyDistribution].
  rewrite Hdist, Epriv.
  do 6 (split; [reflexivity|]). exact Hrec.
Qed.

End Device.

Lemma collect_keys_spec (ids : list jsstring)
    (acc : gmap jsstring ParticipantKey.t) s w :
  exists keys,
    ConversationService.collect_keys ids acc s w = (Ok keys, s, w) /\
    forall m,
      keys !! m =
      match Firestore.users s !! m with
      | Some user =>
        if bool_decide (m ∈ ids)
        then Some {| ParticipantKey.publicKey := Firestore.user_publicKey user;
                     ParticipantKey.keyId := Firestore.user_publicKeyId user |}
        else acc !! m
      | None => acc !! m
      end.
Proof.
  revert acc. induction ids as [|id rest IH]; intros acc.
  - exists acc. split; [reflexivity|]. intros m.
    destruct (Firestore.users s !! m); [|reflexivity].
    rewrite bool_decide_eq_false_2; [reflexivity | apply not_elem_of_nil].
  - cbn [ConversationService.collect_keys]. unfold Firestore.sbind at 1.
    destruct (Firestore.users s !! id) as [user|] eqn:Eu.
    + rewrite (getUserById_eq id s w user Eu).
      cbn [User.publicKey User.publicKeyId].
      destruct (IH (<[id := {| ParticipantKey.publicKey := Firestore.user_publicKey user;
                               ParticipantKey.keyId := Firestore.user_publicKeyId user |}]>
                      acc)) as (keys & Hrun & Hkeys).
      exists keys. split; [exact Hrun|]. intros m. rewrite Hkeys.
      destruct (decide (m = id)) as [->|Hne].
      * rewrite Eu, lookup_insert_eq.
        rewrite (bool_decide_eq_true_2 (id ∈ id :: rest))
          by apply list_elem_of_here.
        now destruct (bool_decide (id ∈ rest)).
      * rewrite lookup_insert_ne by congruence.
        destruct (Firestore.users s !! m); [|reflexivity].
        destruct (decide (m ∈ rest)) as [Hin|Hout].
        -- rewrite !bool_decide_eq_true_2;
             [reflexivity | now apply list_elem_of_further | exact Hin].
        -- rewrite !bool_decide_eq_false_2; [reflexivity | | exact Hout].
           intros Hin. apply elem_of_cons in Hin. destruct Hin; congruence.
    + rewrite (getUserById_missing id s w Eu).
      destruct (IH acc) as (keys & Hrun & Hkeys).
      exists keys. split; [exact Hrun|]. intros m. rewrite Hkeys.
      destruct (Firestore.users s !! m) as [user|] eqn:Em; [|reflexivity].
      destruct (decide (m ∈ rest)) as [Hin|Hout].
      * rewrite !bool_decide_eq_true_2;
          [reflexivity | now apply list_elem_of_further | exact Hin].
      * rewrite !bool_decide_eq_false_2; [reflexivity | | exact Hout].
        intros Hin. apply elem_of_cons in Hin. destruct Hin as [->|?];
          [congruence | contradiction].
Qed.

(** X28 (services/groupService.ts, [createGroup], with
    [createGroupConversation] of services/conversationService.ts and
    [createGroupKeyBundle]): a group is created for user identifiers of
    which those with a user document have generated identities.  The
    stored conversation is new, lists the creator first and then the other
    identifiers given, has the creator as its only admin, and holds a key
    entry and a group key entry for exactly the listed users that have a
    user document: each of them recovers the group key returned, and a
    listed identifier without a user document is a participant without a
    key. *)
Theorem createGroup_distributes (creatorId name : jsstring)
    (memberIds : list jsstring) (members : gmap jsstring KeyPair.t) s w :
  let allMemberIds :=
    creatorId
      :: List.filter (fun id => negb (bool_decide (id = creatorId))) memberIds in
  published s members ->
  (forall id,
     is_Some (members !! id) <->
     id ∈ allMemberIds /\ is_Some (Firestore.users s !! id)) ->
  (forall id kp, members !! id = Some kp -> generated kp) ->
  exists conversation groupKey data keys s' w',
    GroupService.createGroup not_found creatorId name memberIds s w
      = (Ok (conversation, groupKey), s', w') /\
    Firestore.conversations s !! Conversation.id conversation = None /\
    Firestore.conversations s'
      = <[Conversation.id conversation := data]> (Firestore.conversations s) /\
    Firestore.type data = group /\
    Firestore.participants data = allMemberIds /\
    Firestore.adminIds data = Some [creatorId] /\
    Firestore.participantKeys data = participant <$> members /\
    Firestore.groupKeyDistribution data = Some keys /\
    Conversation.groupKeyDistribution conversation = Some keys /\
    dom keys = dom members /\
    (forall m kp,
       members !! m = Some kp ->
       exists ek,
         keys !! m = Some ek /\
         GroupKeys.decryptGroupKey ek (KeyPair.privateKey kp) = Ok groupKey).
Proof.
  intros allMemberIds Hpub Hdomain Hgen.
  destruct (collect_keys_spec allMemberIds ∅ s w) as (pkeys & Hcollect & Hpkeys).
  assert (Epkeys : pkeys = participant <$> members).
  { apply map_eq. intros m. rewrite Hpkeys, lookup_fmap, lookup_empty.
    destruct (members !! m) as [kp|] eqn:Em.
    - destruct (Hpub m kp Em) as (user & Hu & Hk & Hi). rewrite Hu.
      assert (Hin : m ∈ allMemberIds) by (apply Hdomain; eauto).
      rewrite bool_decide_eq_true_2 by exact Hin.
      cbn [fmap option_fmap option_map participant]. now rewrite Hk, Hi.
    - cbn [fmap option_fmap option_map].
      destruct (Firestore.users s !! m) as [user|] eqn:Eu; [|reflexivity].
      rewrite bool_decide_eq_false_2; [reflexivity|].
      intros Hin. assert (Hs : is_Some (members !! m)) by (apply Hdomain; eauto).
      rewrite Em in Hs. now destruct Hs. }
  subst pkeys.
  destruct (createGroupKeyBundle_spec L members creatorId w Hgen)
    as (bundle & w' & Hbundle & Hby & Hdom & Hkeys).
  set (groupKey := {| aes_raw := fst (random_bytes 32 w);
                      aes_extractable := true;
                      aes_usages := [encrypt; decrypt] |}) in *.
  set (id := fresh (dom (Firestore.conversations s))).
  assert (Hfresh : Firestore.conversations s !! id = None)
    by apply not_elem_of_dom, is_fresh.
  set (data0 := {| Firestore.type := group;
                   Firestore.participants := allMemberIds;
                   Firestore.participantKeys := participant <$> members;
                   Firestore.createdAt := Date_now w;
                   Firestore.updatedAt := Date_now w;
                   Firestore.lastMessage := None;
                   Firestore.name := Some name;
                   Firestore.adminIds := Some [creatorId];
                   Firestore.groupKeyId := None;
                   Firestore.groupKeyDistribution := None |}).
  eexists. exists groupKey,
    (Firestore.set_groupKey (GroupKeyBundle.keyId bundle)
       (GroupKeyBundle.encryptedKeys bundle) data0),
    (GroupKeyBundle.encryptedKeys bundle).
  eexists. exists w'.
  split.
  { unfold GroupService.createGroup. unfold Firestore.sbind at 1.
    unfold ConversationService.createGroupConversation.
    unfold Firestore.sbind at 1. fold allMemberIds. rewrite Hcollect.
    unfold Firestore.sbind at 1. unfold Firestore.lift at 1. unfold now at 1.
    unfold Firestore.sbind at 1. unfold Firestore.lift at 1. unfold now at 1.
    unfold Firestore.sbind at 1. unfold Firestore.conversation_add at 1.
    fold id. fold data0. unfold Firestore.sret at 1.
    cbn [Conversation.participantKeys Conversation.id].
    unfold Firestore.sbind at 1. unfold Firestore.lift at 1. rewrite Hbundle.
    cbn [fst snd].
    unfold Firestore.sbind at 1.
    erewrite conversation_update_eq
      by (cbn [Firestore.conversations]; apply lookup_insert_eq).
    cbn [Firestore.conversations Firestore.messages Firestore.groupKeys Firestore.users].
    unfold Firestore.sbind, Firestore.groupKey_set, Firestore.sret.
    cbn [Firestore.conversations Firestore.messages Firestore.groupKeys Firestore.users].
    rewrite insert_insert_eq. reflexivity. }
  cbn [Conversation.id Conversation.groupKeyDistribution
       Firestore.conversations].
  split; [exact Hfresh|].
  do 7 (split; [reflexivity|]).
  split; [exact Hdom | exact Hkeys].
Qed.

Lemma arrayRemove_spec (x y : jsstring) (l : list jsstring) :
  y ∈ Firestore.arrayRemove x l <-> y ∈ l /\ y <> x.
Proof.
  unfold Firestore.arrayRemove. rewrite !list_elem_of_In, filter_In.
  rewrite negb_true_iff, bool_decide_eq_false. reflexivity.
Qed.

Lemma arrayRemove_keeps_one (x a : jsstring) (l : list jsstring) :
  NoDup l -> a ∈ l -> List.length l <> 1%nat -> Firestore.arrayRemove x l <> [].
Proof.
  intros Hnd Ha Hlen.
  assert (Hy : exists y, y ∈ l /\ y <> x).
  { destruct l as [|b [|c rest]].
    - now apply elem_of_nil in Ha.
    - now cbn in Hlen.
    - apply NoDup_cons in Hnd as [Hb _].
      destruct (decide (b = x)) as [->|Hbx].
      + exists c. split; [apply list_elem_of_further, list_elem_of_here|].
        intros ->. apply Hb. apply list_elem_of_here.
      + exists b. split; [apply list_elem_of_here | exact Hbx]. }
  destruct Hy as (y & Hy & Hyx). intros E.
  assert (Hin : y ∈ Firestore.arrayRemove x l) by now apply arrayRemove_spec.
  rewrite E in Hin. now apply elem_of_nil in Hin.
Qed.

Lemma arrayUnion_NoDup (x : jsstring) (l : list jsstring) :
  NoDup l -> NoDup (Firestore.arrayUnion x l) /\ x ∈ Firestore.arrayUnion x l.
Proof.
  intros Hnd. unfold Firestore.arrayUnion.
  destruct (decide (x ∈ l)) as [Hin|Hout].
  - rewrite bool_decide_eq_true_2 by assumption. auto.
  - rewrite bool_decide_eq_false_2 by assumption. split.
    + apply NoDup_app. split; [exact Hnd|]. split.
      * intros y Hy Hy'. apply list_elem_of_singleton in Hy'. congruence.
      * apply NoDup_singleton.
    + apply elem_of_app. right. apply list_elem_of_here.
Qed.

(** X29 (services/groupService.ts, [makeAdmin] and [removeAdmin]): the list
    of admins of a group, when it has no duplicates, keeps none and does
    not become empty.  For a caller who is an admin, [makeAdmin] refuses a
    user who is not a participant and otherwise adds the user unless
    already listed; [removeAdmin] refuses when one admin is left and
    otherwise removes the user from the list, which keeps at least one
    admin. *)
Theorem admin_list_kept (groupId actor target : jsstring)
    (data : Firestore.ConversationData) (admins : list jsstring) s w :
  Firestore.conversations s !! groupId = Some data ->
  Firestore.type data = group ->
  Firestore.adminIds data = Some admins ->
  NoDup admins ->
  actor ∈ admins ->
  (target ∉ Firestore.participants data ->
   GroupService.makeAdmin not_found groupId actor target s w
     = (Rejected (Error "User is not a member of this group"), s, w)) /\
  (target ∈ Firestore.participants data ->
   exists s' data',
     GroupService.makeAdmin not_found groupId actor target s w = (Ok tt, s', w) /\
     Firestore.conversations s' = <[groupId := data']> (Firestore.conversations s) /\
     Firestore.adminIds data' = Some (Firestore.arrayUnion target admins) /\
     NoDup (Firestore.arrayUnion target admins) /\
     target ∈ Firestore.arrayUnion target admins) /\
  (List.length admins = 1%nat ->
   GroupService.removeAdmin not_found groupId actor target s w
     = (Rejected (Error "Cannot remove the last admin"), s, w)) /\
  (List.length admins <> 1%nat ->
   exists s' data',
     GroupService.removeAdmin not_found groupId actor target s w = (Ok tt, s', w) /\
     Firestore.conversations s' = <[groupId := data']> (Firestore.conversations s) /\
     Firestore.adminIds data' = Some (Firestore.arrayRemove target admins) /\
     NoDup (Firestore.arrayRemove target admins) /\
     Firestore.arrayRemove target admins <> [] /\
     target ∉ Firestore.arrayRemove target admins).
Proof.
  intros Hdata Htype Hadmins Hnd Hactor.
  pose proof (stored_group_of_data groupId s data Hdata Htype) as Hg.
  assert (Hadm : GroupService.is_admin
                   (ConversationService.documentToConversation groupId data)
                   actor = true).
  { unfold GroupService.is_admin.
    cbn [ConversationService.documentToConversation Conversation.adminIds].
    rewrite Hadmins. now apply bool_decide_eq_true_2. }
  assert (Hcount : GroupService.admin_count
                     (ConversationService.documentToConversation groupId data)
                   = List.length admins).
  { unfold GroupService.admin_count.
    cbn [ConversationService.documentToConversation Conversation.adminIds].
    now rewrite Hadmins. }
  split; [|split; [|split]].
  - intros Hout. unfold GroupService.makeAdmin; svc_start.
    rewrite Hg, Hadm. cbn [negb].
    cbn [ConversationService.documentToConversation Conversation.participants].
    now rewrite bool_decide_eq_false_2 by assumption.
  - intros Hin. eexists. eexists. split.
    { unfold GroupService.makeAdmin; svc_start.
      rewrite Hg, Hadm. cbn [negb].
      cbn [ConversationService.documentToConversation Conversation.participants].
      rewrite bool_decide_eq_true_2 by assumption. cbn [negb].
      apply (conversation_update_eq groupId _ s w data Hdata). }
    cbn [Firestore.conversations]. split; [reflexivity|].
    cbn [Firestore.change_adminIds Firestore.adminIds]. rewrite Hadmins.
    split; [reflexivity|]. now apply arrayUnion_NoDup.
  - intros Hone. unfold GroupService.removeAdmin; svc_start.
    rewrite Hg, Hadm, Hcount, Hone. reflexivity.
  - intros Hmore. eexists. eexists. split.
    { unfold GroupService.removeAdmin; svc_start.
      rewrite Hg, Hadm, Hcount. cbn [negb].
      rewrite (proj2 (Nat.eqb_neq _ _) Hmore).
      apply (conversation_update_eq groupId _ s w data Hdata). }
    cbn [Firestore.conversations]. split; [reflexivity|].
    cbn [Firestore.change_adminIds Firestore.adminIds]. rewrite Hadmins.
    split; [reflexivity|]. split; [|split].
    + unfold Firestore.arrayRemove.
      apply NoDup_ListNoDup, List.NoDup_filter, NoDup_ListNoDup, Hnd.
    + now apply (arrayRemove_keeps_one target actor).
    + rewrite arrayRemove_spec. tauto.
Qed.

End GroupServiceProofs.

(** ** The group service on the reference store *)

Lemma reference_g1 :
  @stored_group Reference.platform ReferenceStore.store (js "g1")
  = Some (@ConversationService.documentToConversation Reference.platform
            (js "g1") ReferenceStore.g1).
Proof. reflexivity. Qed.

Lemma removeMember_guards_witness :
  @GroupService.removeMember Reference.platform ReferenceStore.not_found
    (js "g1") (js "bob") (js "carol") ReferenceStore.store 20%nat
  = (Rejected (Error "Only admins can remove members"),
     ReferenceStore.store, 20%nat).
Proof.
  apply (proj1 (proj2 (@removeMember_guards Reference.platform
                         ReferenceStore.not_found (js "g1") (js "bob")
                         (js "carol") ReferenceStore.store 20%nat))
           _ reference_g1).
  reflexivity.
Defined.

Lemma removeMember_rotates_witness :
  exists groupKey bundle data' s' w',
    @GroupService.removeMember Reference.platform ReferenceStore.not_found
      (js "g1") (js "alice") (js "carol") ReferenceStore.store 20%nat
      = (Ok groupKey, s', w') /\
    Firestore.conversations s'
      = <[js "g1" := data']> (Firestore.conversations ReferenceStore.store) /\
    Firestore.groupKeys s'
      = <[(js "g1", GroupKeyBundle.keyId bundle) := bundle]>
          (Firestore.groupKeys ReferenceStore.store) /\
    Firestore.participants data'
      = Firestore.arrayRemove (js "carol")
          (Firestore.participants ReferenceStore.g1) /\
    Firestore.participantKeys data'
      = delete (js "carol") (Firestore.participantKeys ReferenceStore.g1) /\
    Firestore.adminIds data' = Firestore.adminIds ReferenceStore.g1 /\
    Firestore.groupKeyId data' = Some (GroupKeyBundle.keyId bundle) /\
    Firestore.groupKeyDistribution data'
      = Some (GroupKeyBundle.encryptedKeys bundle) /\
    GroupKeyBundle.createdBy bundle = js "alice" /\
    GroupKeyBundle.encryptedKeys bundle !! js "carol" = None /\
    dom (GroupKeyBundle.encryptedKeys bundle) = dom Reference.two_members /\
    (forall m kp,
       Reference.two_members !! m = Some kp ->
       exists ek,
         GroupKeyBundle.encryptedKeys bundle !! m = Some ek /\
         @GroupKeys.decryptGroupKey Reference.platform ek (KeyPair.privateKey kp)
           = Ok groupKey).
Proof.
  apply (@removeMember_rotates Reference.platform reference_laws
           ReferenceStore.not_found (js "g1") (js "alice") (js "carol")
           ReferenceStore.g1 Reference.two_members ReferenceStore.store 20%nat).
  - reflexivity.
  - reflexivity.
  - reflexivity.
  - reflexivity.
  - reflexivity.
  - exact reference_two_members_generated.
Defined.

Lemma leaveGroup_keeps_key_witness :
  exists data',
    Firestore.conversations
      (snd (fst (@GroupService.leaveGroup Reference.platform
                   ReferenceStore.not_found (js "g1") (js "bob")
                   ReferenceStore.store 20%nat)))
      !! js "g1" = Some data' /\
    Firestore.groupKeyDistribution data'
      = Firestore.groupKeyDistribution ReferenceStore.g1 /\
    Firestore.groupKeyId data' = Firestore.groupKeyId ReferenceStore.g1 /\
    Firestore.adminIds data' = Firestore.adminIds ReferenceStore.g1 /\
    (fst (fst (@GroupService.leaveGroup Reference.platform
                 ReferenceStore.not_found (js "g1") (js "bob")
                 ReferenceStore.store 20%nat)) = Ok tt ->
     Firestore.participants data'
       = Firestore.arrayRemove (js "bob")
           (Firestore.participants ReferenceStore.g1) /\
     Firestore.participantKeys data'
       = delete (js "bob") (Firestore.participantKeys ReferenceStore.g1)).
Proof.
  apply (proj1 (proj2 (proj2
           (@leaveGroup_keeps_key Reference.platform ReferenceStore.not_found
              (js "g1") (js "bob") ReferenceStore.store 20%nat)))).
  reflexivity.
Defined.

Lemma addMember_shares_key_witness :
  exists encryptedKeyForNewMember data' s' w',
    @GroupService.addMember Reference.platform ReferenceStore.not_found
      ReferenceStore.getPrivateKey (js "g2") (js "alice") (js "carol")
      ReferenceStore.store 20%nat = (Ok tt, s', w') /\
    Firestore.conversations s'
      = <[js "g2" := data']> (Firestore.conversations ReferenceStore.store) /\
    Firestore.groupKeys s' = Firestore.groupKeys ReferenceStore.store /\
    Firestore.participants data'
      = Firestore.arrayUnion (js "carol")
          (Firestore.participants ReferenceStore.g2) /\
    Firestore.participantKeys data'
      = <[js "carol" :=
            @ParticipantKey.Build_t Reference.platform
              (Firestore.user_publicKey
                 (ReferenceStore.user_of Reference.carol "carol"))
              (Firestore.user_publicKeyId
                 (ReferenceStore.user_of Reference.carol "carol"))]>
          (Firestore.participantKeys ReferenceStore.g2) /\
    Firestore.groupKeyId data' = Firestore.groupKeyId ReferenceStore.g2 /\
    Firestore.groupKeyDistribution data'
      = Some (<[js "carol" := encryptedKeyForNewMember]>
                (<[js "alice" := ReferenceStore.wrapped 0 6]>
                   {[js "bob" := ReferenceStore.wrapped 2 6]})) /\
    @GroupKeys.decryptGroupKey Reference.platform encryptedKeyForNewMember
      (KeyPair.privateKey Reference.carol) = Ok (Reference.group_key 6).
Proof.
  apply (@addMember_shares_key Reference.platform reference_laws
           ReferenceStore.not_found ReferenceStore.getPrivateKey
           (js "g2") (js "alice") (js "carol") ReferenceStore.g2
           (<[js "alice" := ReferenceStore.wrapped 0 6]>
              {[js "bob" := ReferenceStore.wrapped 2 6]})
           (ReferenceStore.wrapped 0 6) (KeyPair.privateKey Reference.alice)
           (Reference.group_key 6)
           (ReferenceStore.user_of Reference.carol "carol") Reference.carol
           ReferenceStore.store 20%nat).
  - reflexivity.
  - reflexivity.
  - reflexivity.
  - reflexivity.
  - reflexivity.
  - discriminate.
  - reflexivity.
  - reflexivity.
  - reflexivity.
  - exists 4%nat, 6%nat. exact reference_carol.
  - reflexivity.
Defined.

Lemma admin_list_kept_witness :
  @GroupService.removeAdmin Reference.platform ReferenceStore.not_found
    (js "g1") (js "alice") (js "alice") ReferenceStore.store 20%nat
  = (Rejected (Error "Cannot remove the last admin"),
     ReferenceStore.store, 20%nat).
Proof.
  apply (proj1 (proj2 (proj2
           (@admin_list_kept Reference.platform ReferenceStore.not_found
              (js "g1") (js "alice") (js "alice") ReferenceStore.g1
              [js "alice"] ReferenceStore.store 20%nat
              eq_refl eq_refl eq_refl
              (NoDup_singleton (js "alice"))
              (list_elem_of_here (js "alice") []))))).
  reflexivity.
Defined.

Lemma reference_published :
  @published Reference.platform ReferenceStore.store Reference.two_members.
Proof.
  intros id kp H. unfold Reference.two_members in H.
  apply lookup_insert_Some in H as [[<- <-]|[_ H]].
  { exists (ReferenceStore.user_of Reference.alice "alice").
    repeat split. }
  apply lookup_singleton_Some in H as [<- <-].
  exists (ReferenceStore.user_of Reference.bob "bob"). repeat split.
Qed.

Lemma reference_listed (id : jsstring) :
  is_Some (Reference.two_members !! id) <->
  id ∈ [js "alice"; js "bob"; js "dave"] /\
  is_Some (Firestore.users ReferenceStore.store !! id).
Proof.
  split.
  - intros [kp H]. unfold Reference.two_members in H.
    apply lookup_insert_Some in H as [[<- <-]|[_ H]].
    { split; [apply list_elem_of_here | now eexists]. }
    apply lookup_singleton_Some in H as [<- <-].
    split; [apply list_elem_of_further, list_elem_of_here | now eexists].
  - intros [Hin [u Hu]]. apply elem_of_cons in Hin as [->|Hin]; [now eexists|].
    apply elem_of_cons in Hin as [->|Hin]; [now eexists|].
    apply list_elem_of_singleton in Hin as ->.
    discriminate Hu.
Qed.

Lemma createGroup_distributes_witness :
  exists conversation groupKey data keys s' w',
    @GroupService.createGroup Reference.platform ReferenceStore.not_found
      (js "alice") (js "friends") [js "bob"; js "alice"; js "dave"]
      ReferenceStore.store 6%nat
      = (Ok (conversation, groupKey), s', w') /\
    Firestore.conversations ReferenceStore.store !! Conversation.id conversation
      = None /\
    Firestore.conversations s'
      = <[Conversation.id conversation := data]>
          (Firestore.conversations ReferenceStore.store) /\
    Firestore.type data = group /\
    Firestore.participants data = [js "alice"; js "bob"; js "dave"] /\
    Firestore.adminIds data = Some [js "alice"] /\
    Firestore.participantKeys data
      = @participant Reference.platform <$> Reference.two_members /\
    Firestore.groupKeyDistribution data = Some keys /\
    Conversation.groupKeyDistribution conversation = Some keys /\
    dom keys = dom Reference.two_members /\
    (forall m kp,
       Reference.two_members !! m = Some kp ->
       exists ek,
         keys !! m = Some ek /\
         @GroupKeys.decryptGroupKey Reference.platform ek (KeyPair.privateKey kp)
           = Ok groupKey).
Proof.
  apply (@createGroup_distributes Reference.platform reference_laws
           ReferenceStore.not_found (js "alice") (js "friends")
           [js "bob"; js "alice"; js "dave"] Reference.two_members
           ReferenceStore.store 6%nat).
  - exact reference_published.
  - exact reference_listed.
  - exact reference_two_members_generated.
Defined.

(** ** The message service *)

Section MessageServiceProofs.
Context `{P : Platform}.
Context (L : PlatformLaws P).
Context (not_found : JsError).
Context (getPrivateKey : jsstring -> option JsonWebKey).

Implicit Types (s : Firestore.Store) (w : World).

Lemma expiry_eq (ttl : option Z) s w :
  MessageService.expiry ttl s w =
  (Ok match ttl with
      | Some seconds =>
        if seconds =? 0 then None else Some (Date_now w + seconds * 1000)
      | None => None
      end, s, w).
Proof.
  unfold MessageService.expiry. destruct ttl as [seconds|]; [|reflexivity].
  now destruct (seconds =? 0).
Qed.

(** X30 (services/messageService.ts, [sendDirectMessage] and
    [decryptDirectMessageContent], with [encryptMessage] and
    [decryptMessage]): a direct message reaches its recipient.  In a stored
    conversation whose first participant other than the sender has a
    generated identity, [sendDirectMessage] of a well-formed plaintext not
    opening with U+FEFF resolves; the message is stored under a new
    identifier with the encrypted content only, the conversation gets the
    preview ['Encrypted message'], [expiresAt] is [null] exactly for a
    [ttl] that is [null] or 0, and on the device of the recipient
    [decryptDirectMessageContent] returns the plaintext. *)
Theorem sendDirectMessage_delivers
    (conversationId senderId recipientId plaintext : jsstring)
    (ttl : option Z) (data : Firestore.ConversationData) (kp : KeyPair.t) s w :
  Firestore.conversations s !! conversationId = Some data ->
  List.find (fun id => negb (bool_decide (id = senderId)))
            (Firestore.participants data) = Some recipientId ->
  recipientId <> [] ->
  Firestore.participantKeys data !! recipientId = Some (participant kp) ->
  generated kp ->
  getPrivateKey recipientId = Some (KeyPair.privateKey kp) ->
  TextCodec.isWellFormed plaintext = true ->
  head plaintext <> Some 0xFEFF ->
  exists message payload stored data' s' w',
    MessageService.sendDirectMessage not_found conversationId senderId
      plaintext ttl s w = (Ok message, s', w') /\
    Message.encryptedContent message = inl payload /\
    MessageService.decryptDirectMessageContent getPrivateKey payload
      recipientId s' w' = (Ok plaintext, s', w') /\
    (Message.expiresAt message = None <-> ttl = None \/ ttl = Some 0) /\
    Firestore.messages_of s conversationId !! Message.id message = None /\
    Firestore.messages_of s' conversationId
      = <[Message.id message := stored]> (Firestore.messages_of s conversationId) /\
    Firestore.message_encryptedContent stored = inl payload /\
    Firestore.message_senderId stored = senderId /\
    Firestore.conversations s' !! conversationId = Some data' /\
    LastMessage.preview <$> Firestore.lastMessage data'
      = Some (js "Encrypted message").
Proof.
  intros Hdata Hfind Hne Hkey (w0 & w1 & Hkp) Hpriv Hwf Hbom.
  destruct (generateUserKeyPair_keys w0 w1 kp Hkp) as [Epub Epriv].
  destruct (hybrid_round_trip L plaintext w0 w) as (payload & w' & Henc & Hdec).
  rewrite text_round_trip in Hdec by assumption.
  set (expiresAt := match ttl with
                    | Some seconds =>
                      if seconds =? 0 then None
                      else Some (Date_now w' + seconds * 1000)
                    | None => None
                    end).
  set (stored := {| Firestore.message_senderId := senderId;
                    Firestore.message_timestamp := Date_now w';
                    Firestore.message_type := direct;
                    Firestore.message_encrypted := true;
                    Firestore.message_version := js "tt-e1";
                    Firestore.message_encryptedContent := inl payload;
                    Firestore.message_ttl := ttl;
                    Firestore.message_expiresAt := expiresAt;
                    Firestore.message_readBy := ∅ |}).
  set (id := fresh (dom (Firestore.messages_of s conversationId))).
  eexists. exists payload, stored. eexists. eexists. exists w'.
  split.
  { unfold MessageService.sendDirectMessage. unfold Firestore.sbind at 1.
    rewrite getConversation_eq, Hdata.
    cbn [fmap option_fmap option_map
         ConversationService.documentToConversation
         Conversation.participants Conversation.participantKeys].
    rewrite Hfind.
    destruct recipientId as [|c0 rest] eqn:Er; [contradiction|].
    cbn [Encryption.empty]. rewrite <- Er in *. rewrite Hkey.
    cbn [participant ParticipantKey.publicKey]. rewrite Epub.
    unfold Firestore.sbind at 1. unfold Firestore.lift at 1. rewrite Henc.
    unfold Firestore.sbind at 1. unfold Firestore.lift at 1. unfold now at 1.
    unfold Firestore.sbind at 1. rewrite expiry_eq. fold expiresAt. fold stored.
    unfold Firestore.sbind at 1. unfold Firestore.message_add at 1. fold id.
    unfold Firestore.sbind at 1.
    unfold ConversationService.updateLastMessage.
    unfold Firestore.sbind at 1. unfold Firestore.lift at 1. unfold now at 1.
    unfold Firestore.sbind at 1. unfold Firestore.lift at 1. unfold now at 1.
    erewrite conversation_update_eq by (cbn [Firestore.conversations]; exact Hdata).
    unfold Firestore.sret. reflexivity. }
  cbn [Message.encryptedContent Message.expiresAt Message.id
       Firestore.conversations Firestore.messages].
  split; [reflexivity|]. split.
  { unfold MessageService.decryptDirectMessageContent.
    rewrite Hpriv, Epriv. unfold Firestore.lift, await. now rewrite Hdec. }
  split.
  { subst expiresAt. destruct ttl as [seconds|]; [|tauto].
    destruct (Z.eqb_spec seconds 0) as [->|Hnz]; [tauto|].
    split; [discriminate|]. intros [?|[= ?]]; [discriminate | contradiction]. }
  split; [apply not_elem_of_dom, is_fresh|].
  split.
  { unfold Firestore.messages_of at 1. cbn [Firestore.messages].
    now rewrite lookup_insert_eq. }
  split; [reflexivity|]. split; [reflexivity|].
  split; [apply lookup_insert_eq | reflexivity].
Qed.

End MessageServiceProofs.

Lemma reference_first_other :
  List.find (fun id => negb (bool_decide (id = js "bob")))
            (Firestore.participants ReferenceStore.g2) = Some (js "alice").
Proof. reflexivity. Qed.

Lemma sendDirectMessage_delivers_witness :
  exists message payload stored data' s' w',
    @MessageService.sendDirectMessage Reference.platform
      ReferenceStore.not_found (js "g2") (js "bob") (js "hello") (Some 60)
      ReferenceStore.store 2%nat = (Ok message, s', w') /\
    Message.encryptedContent message = inl payload /\
    @MessageService.decryptDirectMessageContent Reference.platform
      ReferenceStore.getPrivateKey payload (js "alice") s' w'
      = (Ok (js "hello"), s', w') /\
    (Message.expiresAt message = None <-> Some 60 = None \/ Some 60 = Some 0) /\
    Firestore.messages_of ReferenceStore.store (js "g2") !! Message.id message
      = None /\
    Firestore.messages_of s' (js "g2")
      = <[Message.id message := stored]>
          (Firestore.messages_of ReferenceStore.store (js "g2")) /\
    Firestore.message_encryptedContent stored = inl payload /\
    Firestore.message_senderId stored = js "bob" /\
    Firestore.conversations s' !! js "g2" = Some data' /\
    LastMessage.preview <$> Firestore.lastMessage data'
      = Some (js "Encrypted message").
Proof.
  apply (@sendDirectMessage_delivers Reference.platform reference_laws
           ReferenceStore.not_found ReferenceStore.getPrivateKey
           (js "g2") (js "bob") (js "alice") (js "hello") (Some 60)
           ReferenceStore.g2 Reference.alice ReferenceStore.store 2%nat).
  - reflexivity.
  - exact reference_first_other.
  - discriminate.
  - reflexivity.
  - exists 0%nat, 2%nat. exact reference_alice.
  - reflexivity.
  - reflexivity.
  - discriminate.
Defined.
